(** * ShabaniPy: switching-current extraction and Fraunhofer utilities

    A shallow embedding of [shabanipy/dvdi.py] and of the index logic of
    [shabanipy/jj/fraunhofer/utils.py], with the properties of the
    specification stated and settled on it.

    Samples are IEEE binary64 numbers (numpy's [float64]), embedded as Rocq's
    primitive floats; indices are Python integers, embedded as [Z]. *)

From Stdlib Require Import String ZArith List Bool Floats Lia.
Import ListNotations.

Local Open Scope Z_scope.

(** * Python results and exceptions *)

Inductive exn : Type :=
| ValueError (msg : string)
| IndexError (msg : string)
| AxisError (msg : string)
| OverflowError (msg : string)
| UnboundLocalError (msg : string).

Inductive result (A : Type) : Type :=
| Ok (a : A)
| Raise (e : exn).

Arguments Ok {A} a.
Arguments Raise {A} e.

Class Monad (M : Type -> Type) : Type := {
  ret : forall {A}, A -> M A;
  bind : forall {A B}, M A -> (A -> M B) -> M B
}.

Declare Scope monad_scope.
Delimit Scope monad_scope with monad.
Notation "x <- c ;; k" := (bind c (fun x => k))
  (at level 61, c at next level, right associativity) : monad_scope.
Notation "c ;;; k" := (bind c (fun _ => k))
  (at level 61, right associativity) : monad_scope.
Local Open Scope monad_scope.

#[global] Instance result_Monad : Monad result := {
  ret := @Ok;
  bind := fun A B c k => match c with Ok a => k a | Raise e => Raise e end
}.

Fixpoint mapM {A B : Type} (f : A -> result B) (l : list A) : result (list B) :=
  match l with
  | [] => Ok []
  | a :: r => b <- f a ;; bs <- mapM f r ;; ret (b :: bs)
  end.

(** * Python sequences *)

Module Py.

(** [l[i]] for a Python integer [i]: negative indices count from the end,
    anything outside [-len, len) raises. *)
Definition getitem {A : Type} (l : list A) (i : Z) : result A :=
  let n := Z.of_nat (length l) in
  let j := if i <? 0 then i + n else i in
  if (j <? 0) || (n <=? j) then Raise (IndexError "index out of bounds")
  else match nth_error l (Z.to_nat j) with
       | Some a => Ok a
       | None => Raise (IndexError "index out of bounds")
       end.

(** The bound of a slice, as [PySlice_AdjustIndices] computes it for step 1:
    a negative bound counts from the end, and the result is clamped to
    [0, len]. *)
Definition adjust (n : Z) (i : Z) : Z :=
  let j := if i <? 0 then i + n else i in
  Z.max 0 (Z.min n j).

(** [l[start:stop]]; a missing bound is [None]. *)
Definition slice {A : Type} (l : list A) (start stop : option Z) : list A :=
  let n := Z.of_nat (length l) in
  let lo := match start with Some i => adjust n i | None => 0 end in
  let hi := match stop with Some i => adjust n i | None => n end in
  firstn (Z.to_nat (hi - lo)) (skipn (Z.to_nat lo) l).

(** [l[::-1]] *)
Definition reversed {A : Type} (l : list A) : list A := rev l.

End Py.

(** * A small numpy: arrays of rank at most two

    [A0 v] is a scalar (a 0-d array), [A1 l] a 1-d array, [A2 ll] a 2-d array
    given by its slices along the last axis. Leading axes beyond the first
    are flattened in row-major order, which is how a routine that works along
    the last axis sees them. A 2-d array with no slice at all is taken to
    have a non-empty last axis. *)

Inductive ndarray (A : Type) : Type :=
| A0 (v : A)
| A1 (l : list A)
| A2 (ll : list (list A)).

Arguments A0 {A} v.
Arguments A1 {A} l.
Arguments A2 {A} ll.

Module np.

Definition nan : float := PrimFloat.nan.

(** The largest finite binary64 number, [np.finfo(np.float64).max]. *)
Definition float_max : float := 0x1.fffffffffffffp+1023%float.

Definition broadcast_error {A : Type} : result A :=
  Raise (ValueError "operands could not be broadcast together").

(** Elementwise application of a unary function ([np.abs], [-a], [a - c]). *)
Definition map {A B : Type} (f : A -> B) (a : ndarray A) : ndarray B :=
  match a with
  | A0 v => A0 (f v)
  | A1 l => A1 (List.map f l)
  | A2 ll => A2 (List.map (List.map f) ll)
  end.

(** Pairing of two axes under numpy's broadcasting rule: equal lengths pair
    up, a length-one axis is stretched, anything else is an error. *)
Definition pairs {A B : Type} (l1 : list A) (l2 : list B) : result (list (A * B)) :=
  if Nat.eqb (length l1) (length l2) then Ok (combine l1 l2)
  else match l1, l2 with
       | [a], _ => Ok (List.map (pair a) l2)
       | _, [b] => Ok (List.map (fun a => (a, b)) l1)
       | _, _ => broadcast_error
       end.

Definition zip1 {A B C : Type} (f : A -> B -> C) (l1 : list A) (l2 : list B)
  : result (list C) :=
  ps <- pairs l1 l2 ;; ret (List.map (fun p => f (fst p) (snd p)) ps).

Definition zip2 {A B C : Type} (f : A -> B -> C) (ll1 : list (list A))
  (ll2 : list (list B)) : result (list (list C)) :=
  ps <- pairs ll1 ll2 ;; mapM (fun p => zip1 f (fst p) (snd p)) ps.

(** A binary elementwise operation with broadcasting. *)
Definition zip {A B C : Type} (f : A -> B -> C) (a : ndarray A) (b : ndarray B)
  : result (ndarray C) :=
  match a, b with
  | A0 u, _ => Ok (map (f u) b)
  | _, A0 v => Ok (map (fun u => f u v) a)
  | A1 l1, A1 l2 => r <- zip1 f l1 l2 ;; ret (A1 r)
  | A1 l1, A2 ll2 => r <- zip2 f [l1] ll2 ;; ret (A2 r)
  | A2 ll1, A1 l2 => r <- zip2 f ll1 [l2] ;; ret (A2 r)
  | A2 ll1, A2 ll2 => r <- zip2 f ll1 ll2 ;; ret (A2 r)
  end.

(** [np.where(cond, a, fill)] with a scalar [fill]. *)
Definition where_ (cond : ndarray bool) (a : ndarray float) (fill : float)
  : result (ndarray float) :=
  zip (fun (c : bool) v => if c then v else fill) cond a.

(** [a[..., ::-1]] *)
Definition flip_last {A : Type} (a : ndarray A) : result (ndarray A) :=
  match a with
  | A0 _ => Raise (IndexError "too many indices for array")
  | A1 l => Ok (A1 (Py.reversed l))
  | A2 ll => Ok (A2 (List.map Py.reversed ll))
  end.

(** [a[..., np.newaxis]]; the result must still have rank at most two. *)
Definition newaxis_last {A : Type} (a : ndarray A) : result (ndarray A) :=
  match a with
  | A0 v => Ok (A1 [v])
  | A1 l => Ok (A2 (List.map (fun v => [v]) l))
  | A2 _ => Raise (ValueError "rank above two")
  end.

(** A reduction along the last axis ([axis=-1]). *)
Definition reduce_last {A B : Type} (f : list A -> result B) (a : ndarray A)
  : result (ndarray B) :=
  match a with
  | A0 _ => Raise (AxisError "axis -1 is out of bounds for array of dimension 0")
  | A1 l => v <- f l ;; ret (A0 v)
  | A2 ll => r <- mapM f ll ;; ret (A1 r)
  end.

(** The reduction loops of [np.fmin] and [np.fmax]: a NaN operand is
    ignored when the other one is a number. *)
Definition fmin (io1 in2 : float) : float :=
  if PrimFloat.leb io1 in2 || PrimFloat.is_nan in2 then io1 else in2.

Definition fmax (io1 in2 : float) : float :=
  if PrimFloat.leb in2 io1 || PrimFloat.is_nan in2 then io1 else in2.

Definition reduce (op : float -> float -> float) (name : string) (l : list float)
  : result float :=
  match l with
  | [] => Raise (ValueError ("zero-size array to reduction operation "
                              ++ name ++ " which has no identity")%string)
  | v :: r => Ok (fold_left op r v)
  end.

(** [np.nanmin(a, axis=-1)] and [np.nanmax(a, axis=-1)] on a float array:
    [np.fmin.reduce] and [np.fmax.reduce] (an all-NaN slice gives NaN and a
    warning). *)
Definition nanmin (a : ndarray float) : result (ndarray float) :=
  reduce_last (reduce fmin "fmin") a.

Definition nanmax (a : ndarray float) : result (ndarray float) :=
  reduce_last (reduce fmax "fmax") a.

(** [np.argmax] of a boolean sequence: the first [True], or 0 when there is
    none. *)
Fixpoint first_true (l : list bool) : option nat :=
  match l with
  | [] => None
  | true :: _ => Some O
  | false :: r => option_map S (first_true r)
  end.

Definition argmax_bool (l : list bool) : result Z :=
  match l with
  | [] => Raise (ValueError "attempt to get argmax of an empty sequence")
  | _ => Ok (match first_true l with Some i => Z.of_nat i | None => 0 end)
  end.

(** [np.argmax] and [np.argmin] of a float sequence: the first extremum,
    a NaN counting as extremal. *)
Fixpoint arg_scan (better : float -> float -> bool) (l : list float)
  (i : nat) (mp : float) (ind : nat) : nat :=
  match l with
  | [] => ind
  | v :: r =>
      if better v mp
      then (if PrimFloat.is_nan v then i else arg_scan better r (S i) v i)
      else arg_scan better r (S i) mp ind
  end.

Definition arg_ext (better : float -> float -> bool) (name : string)
  (l : list float) : result Z :=
  match l with
  | [] => Raise (ValueError ("attempt to get " ++ name ++ " of an empty sequence")%string)
  | v :: r =>
      Ok (Z.of_nat (if PrimFloat.is_nan v then O else arg_scan better r 1%nat v O))
  end.

Definition argmax (l : list float) : result Z :=
  arg_ext (fun v mp => negb (PrimFloat.leb v mp)) "argmax" l.

Definition argmin (l : list float) : result Z :=
  arg_ext (fun v mp => negb (PrimFloat.leb mp v)) "argmin" l.

(** [np.take_along_axis(a, indices, axis=-1)]: both arrays have the same
    rank, and the leading axis broadcasts. *)
Definition take_along_last {A : Type} (a : ndarray A) (indices : ndarray Z)
  : result (ndarray A) :=
  match a, indices with
  | A1 l, A1 idx => r <- mapM (Py.getitem l) idx ;; ret (A1 r)
  | A2 ll, A2 idxs =>
      ps <- pairs ll idxs ;;
      r <- mapM (fun p => mapM (Py.getitem (fst p)) (snd p)) ps ;;
      ret (A2 r)
  | _, _ =>
      Raise (ValueError
               "`indices` and `arr` must have the same number of dimensions")
  end.

Definition unsingle {A : Type} (l : list A) : result A :=
  match l with
  | [v] => Ok v
  | _ =>
      Raise (ValueError
               "cannot select an axis to squeeze out which has size not equal to one")
  end.

(** [a.squeeze(axis=-1)] *)
Definition squeeze_last {A : Type} (a : ndarray A) : result (ndarray A) :=
  match a with
  | A0 _ => Raise (AxisError "axis -1 is out of bounds for array of dimension 0")
  | A1 l => v <- unsingle l ;; ret (A0 v)
  | A2 ll => r <- mapM unsingle ll ;; ret (A1 r)
  end.

(** [np.squeeze(a)]: every axis of length one is removed. A 2-d array with
    no slice is squeezed as a column is. *)
Definition squeeze {A : Type} (a : ndarray A) : ndarray A :=
  match a with
  | A0 v => A0 v
  | A1 [v] => A0 v
  | A1 l => A1 l
  | A2 [[v]] => A0 v
  | A2 [l] => A1 l
  | A2 ll =>
      match mapM unsingle ll with
      | Ok r => A1 r
      | Raise _ => A2 ll
      end
  end.

(** [np.nan_to_num] with its default replacements. *)
Definition nan_to_num1 (v : float) : float :=
  if PrimFloat.is_nan v then 0%float
  else if PrimFloat.eqb v PrimFloat.infinity then float_max
  else if PrimFloat.eqb v PrimFloat.neg_infinity then PrimFloat.opp float_max
  else v.

Definition nan_to_num (a : ndarray float) : ndarray float := map nan_to_num1 a.

(** [np.array((a, b))] for two arrays of the same shape. *)
Definition stack2 {A : Type} (a b : ndarray A) : result (ndarray A) :=
  match a, b with
  | A0 u, A0 v => Ok (A1 [u; v])
  | A1 l1, A1 l2 =>
      if Nat.eqb (length l1) (length l2) then Ok (A2 [l1; l2])
      else Raise (ValueError "setting an array element with a sequence")
  | _, _ => Raise (ValueError "rank above two")
  end.

End np.

(** * shabanipy/dvdi.py *)

Module dvdi.

(** ** find_rising_edge *)

(** The threshold inferred when none is given: half the rise from the
    minimum to the maximum of [y] along the last axis, with the reduced axis
    put back. *)
Definition infer_threshold (y : ndarray float) : result (ndarray float) :=
  lo <- np.nanmin y ;;
  hi <- np.nanmax y ;;
  s <- np.zip PrimFloat.add lo hi ;;
  np.newaxis_last (np.map (fun v => v / 2)%float s).

Definition find_rising_edge (x y : ndarray float) (threshold : option float)
  (interp : bool) : result (ndarray float) :=
  threshold <- match threshold with
               | None => infer_threshold y
               | Some t => Ok (A0 t)
               end ;;
  above <- np.zip (fun v t => PrimFloat.ltb t v) y threshold ;;
  index <- np.reduce_last np.argmax_bool above ;;
  index_ <- np.newaxis_last index ;;
  x1 <- (t <- np.take_along_last x index_ ;; np.squeeze_last t) ;;
  if interp then
    x0 <- (t <- np.take_along_last x (np.map (fun i => i - 1) index_) ;;
           np.squeeze_last t) ;;
    y0 <- (t <- np.take_along_last y (np.map (fun i => i - 1) index_) ;;
           np.squeeze_last t) ;;
    y1 <- (t <- np.take_along_last y index_ ;; np.squeeze_last t) ;;
    dy <- np.zip PrimFloat.sub y1 y0 ;;
    dx <- np.zip PrimFloat.sub x1 x0 ;;
    dydx <- np.zip PrimFloat.div dy dx ;;
    num <- np.zip PrimFloat.sub (np.squeeze threshold) y0 ;;
    q <- np.zip PrimFloat.div num dydx ;;
    np.zip PrimFloat.add x0 q
  else
    ret x1.

(** ** extract_switching_current

    The caller's two arrays live in a store: [dvdi -= offset] updates the
    caller's array in place, every other array of the function is a fresh
    one. *)

Record store : Type := { st_bias : ndarray float; st_dvdi : ndarray float }.

Definition M (A : Type) : Type := store -> result A * store.

#[global] Instance M_Monad : Monad M := {
  ret := fun A a s => (Ok a, s);
  bind := fun A B c k s =>
            match c s with
            | (Ok a, s') => k a s'
            | (Raise e, s') => (Raise e, s')
            end
}.

Definition raise {A : Type} (e : exn) : M A := fun s => (Raise e, s).
Definition lift {A : Type} (r : result A) : M A := fun s => (r, s).
Definition get_bias : M (ndarray float) := fun s => (Ok (st_bias s), s).
Definition get_dvdi : M (ndarray float) := fun s => (Ok (st_dvdi s), s).

(** [dvdi -= offset] *)
Definition isub_dvdi (offset : float) : M unit :=
  fun s => (Ok tt, {| st_bias := st_bias s;
                      st_dvdi := np.map (fun v => v - offset)%float (st_dvdi s) |}).

Definition side_error : exn :=
  ValueError "`side` should be one of: 'positive', 'negative', 'both'".

Definition side_ok (side : string) : bool :=
  String.eqb side "positive" || String.eqb side "negative" || String.eqb side "both".

(** The signal searched on the positive branch:
    [np.where(bias >= 0, dvdi, np.nan)]. *)
Definition positive_signal (bias dvdi : ndarray float) : result (ndarray float) :=
  np.where_ (np.map (fun b => PrimFloat.leb 0 b) bias) dvdi np.nan.

(** The signal searched on the negative branch:
    [np.where(bias <= 0, np.abs(dvdi), np.nan)[..., ::-1]]. *)
Definition negative_signal (bias dvdi : ndarray float) : result (ndarray float) :=
  w <- np.where_ (np.map (fun b => PrimFloat.leb b 0) bias)
                 (np.map PrimFloat.abs dvdi) np.nan ;;
  np.flip_last w.

(** A local name that is bound on some paths only. *)
Definition local {A : Type} (name : string) (v : option A) : M A :=
  match v with
  | Some a => ret a
  | None => raise (UnboundLocalError name)
  end.

Definition extract_switching_current (side : string) (threshold : option float)
  (interp : bool) (offset : float) : M (ndarray float) :=
  if negb (side_ok side) then raise side_error
  else
    isub_dvdi offset ;;;
    ic_p <- (if negb (String.eqb side "negative") then
               bias <- get_bias ;;
               dvdi <- get_dvdi ;;
               ic_p <- lift (y <- positive_signal bias dvdi ;;
                             find_rising_edge bias y threshold interp) ;;
               ret (Some (np.nan_to_num ic_p))
             else ret None) ;;
    ic_n <- (if negb (String.eqb side "positive") then
               bias <- get_bias ;;
               dvdi <- get_dvdi ;;
               ic_n <- lift (x <- np.flip_last bias ;;
                             y <- negative_signal bias dvdi ;;
                             find_rising_edge x y threshold interp) ;;
               ret (Some (np.nan_to_num ic_n))
             else ret None) ;;
    if String.eqb side "positive" then local "ic_p" ic_p
    else if String.eqb side "negative" then local "ic_n" ic_n
    else
      ic_n <- local "ic_n" ic_n ;;
      ic_p <- local "ic_p" ic_p ;;
      lift (np.stack2 ic_n ic_p).

End dvdi.

(** * shabanipy/jj/fraunhofer/utils.py *)

Module fraunhofer.

(** [round(v)] of a float, as an integer: the nearest integer, ties going to
    the even one. *)
Definition round_half_even (n d : Z) : Z :=
  let q := n / d in
  let r := n mod d in
  if 2 * r <? d then q
  else if d <? 2 * r then q + 1
  else if Z.even q then q else q + 1.

Definition py_round (v : float) : result Z :=
  match Prim2SF v with
  | S754_nan => Raise (ValueError "cannot convert float NaN to integer")
  | S754_infinity _ => Raise (OverflowError "cannot convert float infinity to integer")
  | S754_zero _ => Ok 0
  | S754_finite s m e =>
      let mag := if 0 <=? e then Z.pos m * 2 ^ e
                 else round_half_even (Z.pos m) (2 ^ (- e)) in
      Ok (if s then - mag else mag)
  end.

Definition len {A : Type} (l : list A) : Z := Z.of_nat (length l).

(** The constant [0.65] of the peak window, as the binary64 number the
    literal denotes. *)
Definition window_scale : float := 0x1.4cccccccccccdp-1%float.

(** ** find_fraunhofer_center

    The peak-width routine of scipy and the Gaussian model of lmfit are
    outside the repository: they are the parameters of this section. The
    plots of [debug=True] are left out. *)

Section Center.

Variable ModelResult : Type.

(** [peak_widths(x, peaks, rel_height)[0]] *)
Variable peak_widths : list float -> list Z -> float -> result (list float).

(** [model.fit(data, model.guess(data, x), x=x)] for a [GaussianModel] *)
Variable gaussian_fit : list float -> list float -> result ModelResult.

(** [out.best_values["center"]] *)
Variable best_center : ModelResult -> float.

(** [out.xdata = x] *)
Variable set_xdata : ModelResult -> list float -> ModelResult.

Definition find_max_loc (field ic : list float)
  (field_lim : option (float * float)) : result Z :=
  match field_lim with
  | Some (lo, hi) =>
      w <- np.zip1 (fun (c : bool) v => if c then v else PrimFloat.neg_infinity)
             (List.map (fun f => PrimFloat.ltb lo f && PrimFloat.ltb f hi) field)
             ic ;;
      np.argmax w
  | None => np.argmax ic
  end.

Definition find_fraunhofer_center (field ic : list float)
  (field_lim : option (float * float)) (return_fit : bool)
  : result (ModelResult + float) :=
  max_loc <- find_max_loc field ic field_lim ;;
  width <- peak_widths ic [max_loc] 0.5%float ;;
  w0 <- Py.getitem width 0 ;;
  width_index <- py_round (w0 * window_scale)%float ;;
  let start_index := Z.max 0 (max_loc - width_index) in
  let subset_field :=
    Py.slice field (Some start_index) (Some (max_loc + width_index + 1)) in
  let subset_ic :=
    Py.slice ic (Some start_index) (Some (max_loc + width_index + 1)) in
  out <- gaussian_fit subset_ic subset_field ;;
  let out := set_xdata out subset_field in
  ret (if return_fit then inl out else inr (best_center out)).

End Center.

(** ** symmetrize_fraunhofer *)

Inductive side : Type := positive | negative.

Definition neg (l : list float) : list float := List.map PrimFloat.opp l.

(** The first half of the function: the field is put in increasing order and
    the side with more points is cut out. *)
Definition keep_side (field ic : list float)
  : result (side * list float * list float) :=
  f0 <- Py.getitem field 0 ;;
  f1 <- Py.getitem field 1 ;;
  let field' := if PrimFloat.ltb f1 f0 then Py.reversed field else field in
  let ic' := if PrimFloat.ltb f1 f0 then Py.reversed ic else ic in
  index <- np.argmin (List.map PrimFloat.abs field') ;;
  if index =? 0 then ret (positive, field', ic')
  else if index =? len field' - 1 then ret (negative, field', ic')
  else if len (Py.slice field' (Some (index + 1)) None)
          <? len (Py.slice field' None (Some index))
  then ret (negative, Py.slice field' None (Some (index + 1)),
                      Py.slice ic' None (Some (index + 1)))
  else ret (positive, Py.slice field' (Some index) None,
                      Py.slice ic' (Some index) None).

(** The second half: the kept side is mirrored. *)
Definition mirror (s : side) (f i : list float) : list float * list float :=
  match s with
  | positive =>
      (neg (Py.reversed (Py.slice f (Some 1) None)) ++ f,
       Py.reversed (Py.slice i (Some 1) None) ++ i)
  | negative =>
      (f ++ neg (Py.reversed (Py.slice f None (Some (-1)))),
       i ++ Py.reversed (Py.slice i None (Some (-1))))
  end.

Definition symmetrize_fraunhofer (field ic : list float)
  : result (list float * list float) :=
  k <- keep_side field ic ;;
  let '(s, f, i) := k in
  ret (mirror s f i).

End fraunhofer.

(** * The routines seen one slice at a time

    What the vectorised code computes for a single slice along the swept
    axis, in closed form. These definitions are derived, not assumed: the
    lemmas [find_rising_edge_1d], [find_rising_edge_2d], [extract_1d] and
    [extract_2d] below prove that the embedding of the source computes
    them. *)

Module slice.

(** A reduction of a slice, NaN for a slice with nothing in it. *)
Definition reduce1 (op : float -> float -> float) (y : list float) : float :=
  match y with [] => np.nan | v :: r => fold_left op r v end.

Definition nanmin (y : list float) : float := reduce1 np.fmin y.

Definition nanmax (y : list float) : float := reduce1 np.fmax y.

(** Samples [(b, v)] with those failing [keep b] masked by NaN, and the
    samples that are kept; [g] is applied to the values. *)
Definition masked (keep : float -> bool) (g : float -> float)
  (l : list (float * float)) : list float :=
  List.map (fun p => if keep (fst p) then g (snd p) else np.nan) l.

Definition kept (keep : float -> bool) (g : float -> float)
  (l : list (float * float)) : list float :=
  List.map (fun p => g (snd p)) (filter (fun p => keep (fst p)) l).

(** Half the rise from the minimum to the maximum. *)
Definition midpoint (y : list float) : float := ((nanmin y + nanmax y) / 2)%float.

Definition threshold_of (y : list float) (threshold : option float) : float :=
  match threshold with Some t => t | None => midpoint y end.

(** The index [np.argmax(y > t)] selects. *)
Definition crossing (y : list float) (t : float) : nat :=
  match np.first_true (List.map (fun v => PrimFloat.ltb t v) y) with
  | Some i => i
  | None => O
  end.

(** The index before [i], in Python's reading of [i - 1]. *)
Definition before (n i : nat) : nat :=
  match i with O => (n - 1)%nat | S j => j end.

Definition at_ (l : list float) (i : nat) : float := nth i l np.nan.

Definition interpolate (x0 y0 x1 y1 t : float) : float :=
  (x0 + (t - y0) / ((y1 - y0) / (x1 - x0)))%float.

Definition edge (x y : list float) (t : float) (interp : bool) : float :=
  let i := crossing y t in
  if interp then
    let j := before (length y) i in
    interpolate (at_ x j) (at_ y j) (at_ x i) (at_ y i) t
  else at_ x i.

Inductive branch : Type := pos | neg.

Definition mask (keep : float -> bool) (bias vals : list float) : list float :=
  List.map (fun p => if keep (fst p) then snd p else np.nan) (combine bias vals).

(** The bias of a slice in the order the branch scans it. *)
Definition scan (br : branch) (bias : list float) : list float :=
  match br with pos => bias | neg => rev bias end.

(** The signal of a slice (an offset already subtracted) on a branch. *)
Definition signal (br : branch) (bias dvdi : list float) : list float :=
  match br with
  | pos => mask (fun b => PrimFloat.leb 0 b) bias dvdi
  | neg => rev (mask (fun b => PrimFloat.leb b 0) bias (List.map PrimFloat.abs dvdi))
  end.

Definition shifted (offset : float) (dvdi : list float) : list float :=
  List.map (fun v => v - offset)%float dvdi.

(** The switching current of one slice on one branch. *)
Definition switching (br : branch) (threshold : option float) (interp : bool)
  (bias dvdi : list float) : float :=
  let y := signal br bias dvdi in
  np.nan_to_num1 (edge (scan br bias) y (threshold_of y threshold) interp).

(** The slice never rises above the threshold in use. *)
Definition never_exceeds (y : list float) (threshold : option float) : bool :=
  forallb (fun v => negb (PrimFloat.ltb (threshold_of y threshold) v)) y.

(** The first bias sample a branch scans: [bias[0]] going up, [bias[-1]]
    going down. *)
Definition first_scanned (br : branch) (bias : list float) : float :=
  match br with pos => hd np.nan bias | neg => last bias np.nan end.

Definition side_of (br : branch) : string :=
  match br with pos => "positive" | neg => "negative" end.

(** The values a branch searches in the valid region of a slice, in scan
    order: [dvdi] where [bias >= 0], [abs(dvdi)] where [bias <= 0]. *)
Definition valid (br : branch) (bias dvdi : list float) : list float :=
  match br with
  | pos => List.map snd (filter (fun p => PrimFloat.leb 0 (fst p)) (combine bias dvdi))
  | neg => rev (List.map (fun p => PrimFloat.abs (snd p))
                  (filter (fun p => PrimFloat.leb (fst p) 0) (combine bias dvdi)))
  end.

(** The [dvdi] values themselves in the valid region of a slice. *)
Definition valid_dvdi (br : branch) (bias dvdi : list float) : list float :=
  match br with
  | pos => List.map snd (filter (fun p => PrimFloat.leb 0 (fst p)) (combine bias dvdi))
  | neg => rev (List.map snd
                  (filter (fun p => PrimFloat.leb (fst p) 0) (combine bias dvdi)))
  end.

(** The caller's arrays: a 1-d input, and a 2-d input given by the list of
    its (bias slice, dvdi slice) pairs. *)
Definition store_1d (b d : list float) : dvdi.store :=
  {| dvdi.st_bias := A1 b; dvdi.st_dvdi := A1 d |}.

Definition store_2d (rows : list (list float * list float)) : dvdi.store :=
  {| dvdi.st_bias := A2 (List.map fst rows); dvdi.st_dvdi := A2 (List.map snd rows) |}.

Definition shift_rows (offset : float) (rows : list (list float * list float))
  : list (list float * list float) :=
  List.map (fun p => (fst p, shifted offset (snd p))) rows.

Definition well_shaped (p : list float * list float) : Prop :=
  fst p <> [] /\ length (fst p) = length (snd p).

(** The switching currents of the slices of a 2-d input. *)
Definition currents (br : branch) (threshold : option float) (interp : bool)
  (offset : float) (rows : list (list float * list float)) : list float :=
  List.map (fun p => switching br threshold interp (fst p) (shifted offset (snd p)))
    rows.

Definition answer_1d (side : string) (threshold : option float) (interp : bool)
  (offset : float) (bias dvdi : list float) : ndarray float :=
  let ic_p := switching pos threshold interp bias (shifted offset dvdi) in
  let ic_n := switching neg threshold interp bias (shifted offset dvdi) in
  if String.eqb side "positive" then A0 ic_p
  else if String.eqb side "negative" then A0 ic_n
  else A1 [ic_n; ic_p].

Definition answer_2d (side : string) (threshold : option float) (interp : bool)
  (offset : float) (rows : list (list float * list float)) : ndarray float :=
  let ic_p := currents pos threshold interp offset rows in
  let ic_n := currents neg threshold interp offset rows in
  if String.eqb side "positive" then A1 ic_p
  else if String.eqb side "negative" then A1 ic_n
  else A2 [ic_n; ic_p].

End slice.

(** * A run of extract_switching_current, branch by branch *)

Module run.

(** The store once [dvdi -= offset] is done. *)
Definition after_offset (offset : float) (s : dvdi.store) : dvdi.store :=
  {| dvdi.st_bias := dvdi.st_bias s;
     dvdi.st_dvdi := np.map (fun v => v - offset)%float (dvdi.st_dvdi s) |}.

(** What the two [if] blocks bind to [ic_p] and to [ic_n]. *)
Definition positive_branch (threshold : option float) (interp : bool)
  (s : dvdi.store) : result (ndarray float) :=
  ic_p <- (y <- dvdi.positive_signal (dvdi.st_bias s) (dvdi.st_dvdi s) ;;
           dvdi.find_rising_edge (dvdi.st_bias s) y threshold interp) ;;
  ret (np.nan_to_num ic_p).

Definition negative_branch (threshold : option float) (interp : bool)
  (s : dvdi.store) : result (ndarray float) :=
  ic_n <- (x <- np.flip_last (dvdi.st_bias s) ;;
           y <- dvdi.negative_signal (dvdi.st_bias s) (dvdi.st_dvdi s) ;;
           dvdi.find_rising_edge x y threshold interp) ;;
  ret (np.nan_to_num ic_n).

(** The array a branch hands to [find_rising_edge] as [y]. *)
Definition branch_signal (br : slice.branch) (s : dvdi.store)
  : result (ndarray float) :=
  match br with
  | slice.pos => dvdi.positive_signal (dvdi.st_bias s) (dvdi.st_dvdi s)
  | slice.neg => dvdi.negative_signal (dvdi.st_bias s) (dvdi.st_dvdi s)
  end.


(** [a[i]] along the first axis. *)
Definition row {A : Type} (a : ndarray A) (i : Z) : result (ndarray A) :=
  match a with
  | A0 _ => Raise (IndexError "too many indices for array")
  | A1 l => v <- Py.getitem l i ;; ret (A0 v)
  | A2 ll => l <- Py.getitem ll i ;; ret (A1 l)
  end.

End run.

(** * A mirrored pattern *)

Module pattern.

(** A kept side [l] with its reflection, every reflected sample passed
    through [h] (the negation for the field, nothing for the current). *)
Definition mirrored (h : float -> float) (s : fraunhofer.side) (l : list float)
  : list float :=
  match s with
  | fraunhofer.positive => List.map h (rev (tl l)) ++ l
  | fraunhofer.negative => l ++ List.map h (rev (removelast l))
  end.

End pattern.

(** * The inputs of the worked examples *)

Module example.

Definition bias : list float :=
  [(-2)%float; (-1)%float; 0%float; 1%float; 2%float; 3%float].

Definition dvdi : list float :=
  [5%float; 5%float; 0%float; 0%float; 5%float; 5%float].


(** A sweep on which the resistance never rises. *)
Definition flat : list float :=
  [0%float; 0%float; 0%float; 0%float; 0%float; 0%float].

(** A sweep whose offset matters: two identical calls differ. *)
Definition ramp_bias : list float := [0%float; 1%float; 2%float; 3%float].
Definition ramp_dvdi : list float := [0%float; 0%float; 3%float; 3%float].

(** A V(I) curve on the negative branch. *)
Definition vi_bias : list float := [(-2)%float; (-1)%float; 0%float].
Definition vi : list float := [(-4)%float; (-2)%float; 0%float].

(** A field sweep with more points below zero, and a pattern on it. *)
Definition field : list float :=
  [(-3)%float; (-2)%float; (-1)%float; 0%float; 1%float; 2%float].
Definition ic : list float :=
  [1%float; 2%float; 3%float; 4%float; 3%float; 2%float].

(** A field sweep that misses zero. *)
Definition off_field : list float := [0.5%float; 1.5%float].
Definition off_ic : list float := [1%float; 2%float].

(** A sweep that is already above the threshold at its first sample. *)
Definition high_bias : list float := [0%float; 1%float; 2%float].
Definition high : list float := [5%float; 6%float; 7%float].

End example.

(** * shabanipy/jj/fraunhofer/utils.py: the peak search

    What [np.argmax] compares by, and the samples it is given when
    [find_fraunhofer_center] is called with field limits. *)

Module peak.

(** [v] takes the place of the running maximum [mp]. *)
Definition better (v mp : float) : bool := negb (PrimFloat.leb v mp).

(** The samples [np.where] hands to [argmax]. *)
Definition searched (lo hi : float) (field ic : list float) : list float :=
  List.map (fun p : bool * float => if fst p then snd p else PrimFloat.neg_infinity)
    (combine (List.map (fun f => PrimFloat.ltb lo f && PrimFloat.ltb f hi) field) ic).

End peak.

(** * shabanipy/jj/fraunhofer/utils.py: recenter_fraunhofer

    The field is an array of rank one or two; the plots of [debug=True] are
    left out, and scipy's and lmfit's routines are parameters as they are for
    [find_fraunhofer_center]. *)

Module recenter.

Section Recenter.

Variable ModelResult : Type.
Variable peak_widths : list float -> list Z -> float -> result (list float).
Variable gaussian_fit : list float -> list float -> result ModelResult.
Variable best_center : ModelResult -> float.
Variable set_xdata : ModelResult -> list float -> ModelResult.

(** [find_fraunhofer_center(field, ic)] as it is called here: no field
    limits and [return_fit=False], so that the value is the float of its
    last line. *)
Definition center (field ic : list float) : result float :=
  r <- fraunhofer.find_fraunhofer_center ModelResult peak_widths gaussian_fit
         best_center set_xdata field ic None false ;;
  ret (match r with inr c => c | inl out => best_center out end).

(** [res[index] -= center] on one slice *)
Definition shift (c : float) (row : list float) : list float :=
  List.map (fun v => v - c)%float row.

(** What scipy's [peak_widths] raises for an [ic] slice that is not 1-d. *)
Definition not_1d {A : Type} : result A :=
  Raise (ValueError "`x` must be a 1-D array").

(** [ic[index]] for the index [(k,)] of a slice of a 2-d field. A scalar
    slice gets as far as [peak_widths]. *)
Definition ic_slice (ic : ndarray float) (k : Z) : result (list float) :=
  match ic with
  | A0 _ => Raise (IndexError "too many indices for array")
  | A1 l => _ <- Py.getitem l k ;; not_1d
  | A2 ll => Py.getitem ll k
  end.

(** [ic[index]] for the empty index of a 1-d field: [ic] itself. An [ic]
    that is not 1-d gets through [np.argmax], which flattens it, as far as
    [peak_widths]. *)
Definition ic_whole (ic : ndarray float) : result (list float) :=
  match ic with
  | A0 _ => not_1d
  | A1 l => Ok l
  | A2 ll => _ <- np.argmax (concat ll) ;; not_1d
  end.

(** The loop over the slices of a 2-d field, from index [k] on. *)
Fixpoint loop (rows : list (list float)) (ic : ndarray float) (k : Z)
  : result (list (list float)) :=
  match rows with
  | [] => Ok []
  | f :: rest =>
      i <- ic_slice ic k ;;
      c <- center f i ;;
      rs <- loop rest ic (k + 1) ;;
      ret (shift c f :: rs)
  end.

(** A 2-d field with no slice stands for an array of shape [(0, n)] with
    [n] positive. *)
Definition recenter_fraunhofer (field ic : ndarray float) : result (ndarray float) :=
  match field with
  | A0 _ => Raise (IndexError "too many indices for array")
  | A1 f =>
      _ <- Py.getitem f 0 ;;
      i <- ic_whole ic ;;
      c <- center f i ;;
      ret (A1 (shift c f))
  | A2 fs =>
      _ <- mapM (fun f => Py.getitem f 0) fs ;;
      match fs with
      | [] => Raise (ValueError "Iteration of zero-sized operands is not enabled")
      | _ => rs <- loop fs ic 0 ;; ret (A2 rs)
      end
  end.

(** One slice recentered on its own. *)
Definition recenter_slice (p : list float * list float) : result (list float) :=
  c <- center (fst p) (snd p) ;; ret (shift c (fst p)).

End Recenter.

End recenter.

(** * shabanipy/utils/plotting/jy_pink.py

    A colour is a string or a sequence of numbers; the numbers are embedded
    as binary64 numbers, which holds every integer the module uses exactly.
    The registry of matplotlib is a list of named segment data. *)

Module jy_pink.

Inductive error : Type :=
| NameError (name : string)
| ZeroDivisionError (msg : string)
| TupleIndexError (msg : string)
| KeyError (key : string).

Inductive outcome (A : Type) : Type :=
| Done (a : A)
| Fail (e : error).

Arguments Done {A} a.
Arguments Fail {A} e.

#[global] Instance outcome_Monad : Monad outcome := {
  ret := @Done;
  bind := fun A B c k => match c with Done a => k a | Fail e => Fail e end
}.

Inductive color : Type :=
| Name (s : string)
| Rgb (c : list float).

(** One point of a channel: [(x, y0, y1)]. *)
Definition entry : Type := float * float * float.

(** The dict of the three channels, in the order its keys were inserted. *)
Definition color_dict : Type := list (string * list entry).

Definition normalize_color (color : list float) : list float :=
  List.map (fun i => i / 255)%float color.

(** A Python integer that is not negative, as a float. *)
Definition of_int (z : Z) : float := PrimFloat.of_uint63 (Uint63.of_Z z).

(** [i / N] on two integers *)
Definition true_div (i N : Z) : outcome float :=
  if N =? 0 then Fail (ZeroDivisionError "division by zero")
  else Done (of_int i / of_int N)%float.

(** [color[j]] *)
Definition component (color : list float) (j : nat) : outcome float :=
  match nth_error color j with
  | Some v => Done v
  | None => Fail (TupleIndexError "index out of range")
  end.

(** [color_dict[c]] *)
Fixpoint lookup (d : color_dict) (c : string) : outcome (list entry) :=
  match d with
  | [] => Fail (KeyError c)
  | (k, l) :: rest => if String.eqb k c then Done l else lookup rest c
  end.

(** [color_dict[c].append(e)], the key being there *)
Fixpoint append (d : color_dict) (c : string) (e : entry) : color_dict :=
  match d with
  | [] => []
  | (k, l) :: rest =>
      if String.eqb k c then (k, l ++ [e]) :: rest else (k, l) :: append rest c e
  end.

(** The inner loop, [for j, c in enumerate(["red", "green", "blue"])], from
    channel [j] on. *)
Fixpoint add_entries (N i : Z) (color : list float) (j : nat) (cs : list string)
  (d : color_dict) : outcome color_dict :=
  match cs with
  | [] => Done d
  | c :: rest =>
      _ <- lookup d c ;;
      x <- true_div i N ;;
      y0 <- component color j ;;
      y1 <- component color j ;;
      add_entries N i color (S j) rest (append d c (x, y0, y1))
  end.

(** The colour as the loop uses it: normalised when a component is above 1. *)
Definition prepared (color : list float) : list float :=
  if existsb (fun i => PrimFloat.ltb 1 i) color then normalize_color color
  else color.

(** The outer loop, [for i, color in enumerate(colors)], from index [i] on.
    [hex_color_to_rgb] is bound nowhere in the module. *)
Fixpoint fill (N i : Z) (colors : list color) (d : color_dict)
  : outcome color_dict :=
  match colors with
  | [] => Done d
  | color :: rest =>
      color <- match color with
               | Name _ => Fail (NameError "hex_color_to_rgb")
               | Rgb c => Done c
               end ;;
      d' <- add_entries N i (prepared color) 0 ["red"; "green"; "blue"]%string d ;;
      fill N (i + 1) rest d'
  end.

Definition make_color_dict (colors : list color) : outcome color_dict :=
  let color_dict := [("red", []); ("blue", []); ("green", [])]%string in
  let N := Z.of_nat (length colors) - 1 in
  fill N 0 colors color_dict.

(** The registry of colormaps: name and segment data, in registration
    order. *)
Definition registry : Type := list (string * color_dict).

Definition registered (cmap_name : string) (r : registry) : bool :=
  existsb (String.eqb cmap_name) (List.map fst r).

Definition register_color_map (cmap_name : string) (colors : list color)
  (r : registry) : outcome unit * registry :=
  if registered cmap_name r then (Done tt, r)
  else
    match make_color_dict colors with
    | Done cdict => (Done tt, r ++ [(cmap_name, cdict)])
    | Fail e => (Fail e, r)
    end.

Definition color_pts : list color :=
  [Rgb [45%float; 96%float; 114%float];
   Rgb [243%float; 210%float; 181%float];
   Rgb [242%float; 184%float; 164%float];
   Rgb [242%float; 140%float; 143%float];
   Rgb [208%float; 127%float; 127%float]].

Definition register (r : registry) : outcome unit * registry :=
  match register_color_map "jy_pink" color_pts r with
  | (Done _, r') => register_color_map "jy_pink_r" (rev color_pts) r'
  | (Fail e, r') => (Fail e, r')
  end.

(** The points of channel [j] for the colours from index [i] on, in closed
    form. *)
Fixpoint channel (N : Z) (j : nat) (i : Z) (colors : list (list float))
  : list entry :=
  match colors with
  | [] => []
  | c :: rest =>
      ((of_int i / of_int N)%float, nth j (prepared c) np.nan,
       nth j (prepared c) np.nan) :: channel N j (i + 1) rest
  end.

(** The dict with the given channels. *)
Definition channels (red blue green : list entry) : color_dict :=
  [("red"%string, red); ("blue"%string, blue); ("green"%string, green)].

Definition position (e : entry) : float := fst (fst e).
Definition value (e : entry) : float := snd e.

End jy_pink.

(** * scripts/tcbc/tc.py: the stale temperature readings

    The loop of the script that drops the repeated temperature readings, on
    a 1-d array of temperatures, and the voltages picked at the indices it
    keeps. *)

From Stdlib Require Import Sorted.

Module tc.

(** [enumerate(temp)], counting from [i] *)
Fixpoint enumerate_from (i : Z) (temp : list float) : list (Z * float) :=
  match temp with
  | [] => []
  | t :: rest => (i, t) :: enumerate_from (i + 1) rest
  end.

(** One turn of the loop on [(temp_fresh, indexs)]. *)
Definition step (st : list float * list Z) (it : Z * float) : list float * list Z :=
  if PrimFloat.eqb (snd it) (last (fst st) np.nan) then st
  else (fst st ++ [snd it], snd st ++ [fst it]).

(** [temp_fresh] and [indexs] once the loop is over *)
Definition fresh_points (temp : list float) : result (list float * list Z) :=
  t0 <- Py.getitem temp 0 ;;
  ret (fold_left step (enumerate_from 0 temp) ([t0], [0])).

(** [volt[indexs]] *)
Definition take (volt : list float) (indexs : list Z) : result (list float) :=
  mapM (Py.getitem volt) indexs.

(** [temp_fresh, volt_fresh] *)
Definition discard_stale (temp volt : list float) : result (list float * list float) :=
  p <- fresh_points temp ;;
  volt_fresh <- take volt (snd p) ;;
  ret (fst p, volt_fresh).

(** A reading kept at an index of [temp]. *)
Definition reading (temp : list float) (t : float) (j : Z) : Prop :=
  0 <= j < Z.of_nat (length temp) /\ nth (Z.to_nat j) temp np.nan = t.

(** No kept reading [==] the one kept before it. *)
Definition changing (l : list float) : Prop :=
  forall k, (S k < length l)%nat ->
    PrimFloat.eqb (nth (S k) l np.nan) (nth k l np.nan) = false.

(** What holds of [(temp_fresh, indexs)] before the turn of index [i], the
    kept indices being in the order [R]. *)
Definition invariant (temp : list float) (R : Z -> Z -> Prop) (i : nat)
  (st : list float * list Z) : Prop :=
  Forall2 (reading temp) (fst st) (snd st)
  /\ fst st <> []
  /\ changing (fst st)
  /\ StronglySorted R (snd st)
  /\ Forall (fun j => R j (Z.of_nat i)) (snd st).

End tc.

(** * Facts about binary64 numbers *)

Module FloatFacts.

Lemma opp_involutive (x : float) : (- - x)%float = x.
Proof.
  apply Prim2SF_inj. rewrite !opp_spec.
  destruct (Prim2SF x) as [[]|[]| |[] m e]; reflexivity.
Qed.

Lemma sub_zero (x : float) : (x - 0)%float = x.
Proof.
  apply Prim2SF_inj. rewrite sub_spec.
  change (Prim2SF 0) with (S754_zero false).
  destruct (Prim2SF x) as [[]|[]| |[] m e]; reflexivity.
Qed.

Lemma SFcompare_refl (f : spec_float) :
  f <> S754_nan -> SFcompare f f = Some Eq.
Proof.
  destruct f as [s|s| |s m e]; intros H; try congruence.
  - reflexivity.
  - destruct s; reflexivity.
  - simpl. rewrite Z.compare_refl.
    change (Pos.compare_cont Eq m m) with (Pos.compare m m).
    rewrite Pos.compare_refl. destruct s; reflexivity.
Qed.

Lemma is_nan_true (x : float) : PrimFloat.is_nan x = true -> x = PrimFloat.nan.
Proof.
  unfold PrimFloat.is_nan. rewrite eqb_spec. intros H.
  apply Prim2SF_inj. change (Prim2SF PrimFloat.nan) with S754_nan.
  destruct (Prim2SF x) as [s|s| |s m e] eqn:E; try reflexivity; exfalso.
  all: unfold SFeqb in H; rewrite SFcompare_refl in H by congruence; discriminate.
Qed.

Lemma leb_nan_l (x : float) : PrimFloat.leb PrimFloat.nan x = false.
Proof.
  rewrite leb_spec. change (Prim2SF PrimFloat.nan) with S754_nan. reflexivity.
Qed.

Lemma leb_nan_r (x : float) : PrimFloat.leb x PrimFloat.nan = false.
Proof.
  rewrite leb_spec. change (Prim2SF PrimFloat.nan) with S754_nan.
  destruct (Prim2SF x); reflexivity.
Qed.

Lemma eqb_refl (x : float) :
  PrimFloat.is_nan x = false -> PrimFloat.eqb x x = true.
Proof. unfold PrimFloat.is_nan. now destruct (PrimFloat.eqb x x). Qed.

Lemma eqb_opp_self (x : float) :
  PrimFloat.eqb x (- x)%float = PrimFloat.eqb x 0%float.
Proof.
  rewrite !eqb_spec, opp_spec. change (Prim2SF 0) with (S754_zero false).
  destruct (Prim2SF x) as [[]|[]| |[] m e]; reflexivity.
Qed.

Lemma fmin_nan_r (a : float) : np.fmin a np.nan = a.
Proof. unfold np.fmin, np.nan. rewrite orb_true_r. reflexivity. Qed.

Lemma fmax_nan_r (a : float) : np.fmax a np.nan = a.
Proof. unfold np.fmax, np.nan. rewrite orb_true_r. reflexivity. Qed.

Lemma fmin_nan_l (b : float) : np.fmin np.nan b = b.
Proof.
  unfold np.fmin, np.nan. rewrite leb_nan_l. simpl.
  destruct (PrimFloat.is_nan b) eqn:E; [|reflexivity].
  symmetry. now apply is_nan_true.
Qed.

Lemma fmax_nan_l (b : float) : np.fmax np.nan b = b.
Proof.
  unfold np.fmax, np.nan. rewrite leb_nan_r. simpl.
  destruct (PrimFloat.is_nan b) eqn:E; [|reflexivity].
  symmetry. now apply is_nan_true.
Qed.

End FloatFacts.

(** * Facts about the array primitives *)

Module NpFacts.

Lemma mapM_map_ok {P A B : Type} (f : A -> result B) (g : P -> A) (h : P -> B)
  (ps : list P) :
  Forall (fun p => f (g p) = Ok (h p)) ps ->
  mapM f (List.map g ps) = Ok (List.map h ps).
Proof.
  induction 1 as [|p ps Hp _ IH]; simpl; [reflexivity|].
  rewrite Hp. simpl. rewrite IH. reflexivity.
Qed.

Lemma combine_map {P A B : Type} (g1 : P -> A) (g2 : P -> B) (ps : list P) :
  combine (List.map g1 ps) (List.map g2 ps) = List.map (fun p => (g1 p, g2 p)) ps.
Proof. induction ps as [|p ps IH]; simpl; [reflexivity|now rewrite IH]. Qed.

Lemma pairs_same {A B : Type} (l1 : list A) (l2 : list B) :
  length l1 = length l2 -> np.pairs l1 l2 = Ok (combine l1 l2).
Proof. intros H. unfold np.pairs. rewrite H, Nat.eqb_refl. reflexivity. Qed.

Lemma pairs_map {P A B : Type} (g1 : P -> A) (g2 : P -> B) (ps : list P) :
  np.pairs (List.map g1 ps) (List.map g2 ps)
  = Ok (List.map (fun p => (g1 p, g2 p)) ps).
Proof.
  rewrite pairs_same by now rewrite !length_map.
  now rewrite combine_map.
Qed.

Lemma pairs_single_r {A B : Type} (l : list A) (b : B) :
  np.pairs l [b] = Ok (List.map (fun a => (a, b)) l).
Proof.
  unfold np.pairs. destruct l as [|a [|a' l]]; reflexivity.
Qed.

Lemma zip1_same {A B C : Type} (f : A -> B -> C) (l1 : list A) (l2 : list B) :
  length l1 = length l2 ->
  np.zip1 f l1 l2 = Ok (List.map (fun p => f (fst p) (snd p)) (combine l1 l2)).
Proof. intros H. unfold np.zip1. rewrite pairs_same by assumption. reflexivity. Qed.

Lemma zip1_map {P A B C : Type} (f : A -> B -> C) (g1 : P -> A) (g2 : P -> B)
  (ps : list P) :
  np.zip1 f (List.map g1 ps) (List.map g2 ps)
  = Ok (List.map (fun p => f (g1 p) (g2 p)) ps).
Proof.
  unfold np.zip1. rewrite pairs_map. simpl. now rewrite map_map.
Qed.

Lemma zip1_single_r {A B C : Type} (f : A -> B -> C) (l : list A) (b : B) :
  np.zip1 f l [b] = Ok (List.map (fun a => f a b) l).
Proof.
  unfold np.zip1. rewrite pairs_single_r. simpl. now rewrite map_map.
Qed.

Lemma zip2_map {P A B C : Type} (f : A -> B -> C) (g1 : P -> list A)
  (g2 : P -> list B) (h : P -> list C) (ps : list P) :
  Forall (fun p => np.zip1 f (g1 p) (g2 p) = Ok (h p)) ps ->
  np.zip2 f (List.map g1 ps) (List.map g2 ps) = Ok (List.map h ps).
Proof.
  intros H. unfold np.zip2. rewrite pairs_map. simpl.
  apply (mapM_map_ok (fun p => np.zip1 f (fst p) (snd p))
           (fun p => (g1 p, g2 p)) h). exact H.
Qed.

End NpFacts.

(** Arrays whose slices are all read off one list [ps] of "rows". *)

Module Rows.

Import NpFacts.

Section Family.

Context {P : Type} (ps : list P).

Lemma reduce_last_2d {A B : Type} (f : list A -> result B) (g : P -> list A)
  (h : P -> B) :
  Forall (fun p => f (g p) = Ok (h p)) ps ->
  np.reduce_last f (A2 (List.map g ps)) = Ok (A1 (List.map h ps)).
Proof.
  intros H. simpl. rewrite (mapM_map_ok f g h ps H). reflexivity.
Qed.

Lemma newaxis_last_1d {A : Type} (h : P -> A) :
  np.newaxis_last (A1 (List.map h ps)) = Ok (A2 (List.map (fun p => [h p]) ps)).
Proof. simpl. now rewrite map_map. Qed.

Lemma map_column {A B : Type} (f : A -> B) (h : P -> A) :
  np.map f (A2 (List.map (fun p => [h p]) ps))
  = A2 (List.map (fun p => [f (h p)]) ps).
Proof. simpl. now rewrite map_map. Qed.

Lemma map_1d {A B : Type} (f : A -> B) (h : P -> A) :
  np.map f (A1 (List.map h ps)) = A1 (List.map (fun p => f (h p)) ps).
Proof. simpl. now rewrite map_map. Qed.

Lemma map_2d {A B : Type} (f : A -> B) (g : P -> list A) :
  np.map f (A2 (List.map g ps)) = A2 (List.map (fun p => List.map f (g p)) ps).
Proof. simpl. now rewrite map_map. Qed.

Lemma zip_1d {A B C : Type} (f : A -> B -> C) (g1 : P -> A) (g2 : P -> B) :
  np.zip f (A1 (List.map g1 ps)) (A1 (List.map g2 ps))
  = Ok (A1 (List.map (fun p => f (g1 p) (g2 p)) ps)).
Proof. simpl. now rewrite zip1_map. Qed.

Lemma zip_2d {A B C : Type} (f : A -> B -> C) (g1 : P -> list A)
  (g2 : P -> list B) (h : P -> list C) :
  Forall (fun p => np.zip1 f (g1 p) (g2 p) = Ok (h p)) ps ->
  np.zip f (A2 (List.map g1 ps)) (A2 (List.map g2 ps))
  = Ok (A2 (List.map h ps)).
Proof. intros H. simpl. now rewrite (zip2_map f g1 g2 h ps H). Qed.

Lemma zip_column {A B C : Type} (f : A -> B -> C) (g : P -> list A) (t : P -> B) :
  np.zip f (A2 (List.map g ps)) (A2 (List.map (fun p => [t p]) ps))
  = Ok (A2 (List.map (fun p => List.map (fun v => f v (t p)) (g p)) ps)).
Proof.
  apply zip_2d. apply Forall_forall. intros p _. apply zip1_single_r.
Qed.

Lemma take_along_last_2d {A : Type} (g : P -> list A) (i : P -> Z) (v : P -> A) :
  Forall (fun p => Py.getitem (g p) (i p) = Ok (v p)) ps ->
  np.take_along_last (A2 (List.map g ps)) (A2 (List.map (fun p => [i p]) ps))
  = Ok (A2 (List.map (fun p => [v p]) ps)).
Proof.
  intros H. unfold np.take_along_last. rewrite pairs_map. simpl.
  rewrite (mapM_map_ok (fun p => mapM (Py.getitem (fst p)) (snd p))
             (fun p => (g p, [i p])) (fun p => [v p])); [reflexivity|].
  eapply Forall_impl; [|exact H]. simpl. intros p Hp. now rewrite Hp.
Qed.

Lemma squeeze_last_column {A : Type} (v : P -> A) :
  np.squeeze_last (A2 (List.map (fun p => [v p]) ps)) = Ok (A1 (List.map v ps)).
Proof.
  simpl. rewrite (mapM_map_ok np.unsingle (fun p => [v p]) v); [reflexivity|].
  apply Forall_forall. reflexivity.
Qed.

End Family.

Lemma zip_squeeze_column {P A B C : Type} (f : A -> B -> C) (t : P -> A)
(g : P -> B) (ps : list P) :
np.zip f (np.squeeze (A2 (List.map (fun p => [t p]) ps))) (A1 (List.map g ps))
= Ok (A1 (List.map (fun p => f (t p) (g p)) ps)).
Proof.
destruct ps as [|p [|q r]]; try reflexivity.
replace (np.squeeze (A2 (List.map (fun p => [t p]) (p :: q :: r))))
  with (A1 (List.map t (p :: q :: r))).
- apply zip_1d.
- cbn [List.map np.squeeze].
  change (mapM np.unsingle ([t p] :: [t q] :: List.map (fun p => [t p]) r))
    with (mapM np.unsingle (List.map (fun p => [t p]) (p :: q :: r))).
  rewrite (mapM_map_ok np.unsingle (fun p => [t p]) t (p :: q :: r))
    by (apply Forall_forall; reflexivity).
  reflexivity.
Qed.

End Rows.

(** * find_rising_edge, one slice at a time *)

Module EdgeFacts.

Import NpFacts Rows.

Lemma first_true_lt (l : list bool) (i : nat) :
np.first_true l = Some i -> (i < length l)%nat.
Proof.
revert i. induction l as [|b l IH]; intros i H; simpl in *; [discriminate|].
destruct b.
- injection H as <-. lia.
- destruct (np.first_true l) as [j|]; simpl in H; [|discriminate].
  injection H as <-. specialize (IH j eq_refl). lia.
Qed.

Lemma crossing_lt (y : list float) (t : float) :
y <> [] -> (slice.crossing y t < length y)%nat.
Proof.
intros Hy. unfold slice.crossing.
destruct (np.first_true _) as [i|] eqn:E.
- apply first_true_lt in E. now rewrite length_map in E.
- destruct y; [congruence|simpl; lia].
Qed.

Lemma argmax_bool_crossing (y : list float) (t : float) :
y <> [] ->
np.argmax_bool (List.map (fun v => PrimFloat.ltb t v) y)
= Ok (Z.of_nat (slice.crossing y t)).
Proof.
intros Hy. unfold np.argmax_bool, slice.crossing.
destruct y as [|v y]; [congruence|]. cbn [List.map].
destruct (np.first_true _); reflexivity.
Qed.

Lemma getitem_nat {A : Type} (l : list A) (i : nat) (d : A) :
(i < length l)%nat -> Py.getitem l (Z.of_nat i) = Ok (nth i l d).
Proof.
intros H. unfold Py.getitem.
destruct (Z.ltb_spec (Z.of_nat i) 0) as [H0|H0]; [lia|].
destruct (Z.ltb_spec (Z.of_nat i) 0); [lia|].
destruct (Z.leb_spec (Z.of_nat (length l)) (Z.of_nat i)); [lia|].
cbn [orb]. rewrite Nat2Z.id.
rewrite (nth_error_nth' l d H). reflexivity.
Qed.

Lemma getitem_before {A : Type} (l : list A) (i : nat) (d : A) :
(i < length l)%nat ->
Py.getitem l (Z.of_nat i - 1) = Ok (nth (slice.before (length l) i) l d).
Proof.
intros H. destruct i as [|j].
- unfold Py.getitem. change (Z.of_nat 0 - 1) with (-1).
  change (-1 <? 0) with true. cbv iota.
  destruct (Z.ltb_spec (-1 + Z.of_nat (length l)) 0); [lia|].
  destruct (Z.leb_spec (Z.of_nat (length l)) (-1 + Z.of_nat (length l))); [lia|].
  cbn [orb slice.before].
  replace (Z.to_nat (-1 + Z.of_nat (length l))) with (length l - 1)%nat by lia.
  rewrite (nth_error_nth' l d) by lia. reflexivity.
- replace (Z.of_nat (S j) - 1) with (Z.of_nat j) by lia.
  cbn [slice.before]. apply getitem_nat. lia.
Qed.

Lemma reduce_nanmin (y : list float) :
y <> [] -> np.reduce np.fmin "fmin" y = Ok (slice.nanmin y).
Proof. destruct y; [congruence|reflexivity]. Qed.

Lemma reduce_nanmax (y : list float) :
y <> [] -> np.reduce np.fmax "fmax" y = Ok (slice.nanmax y).
Proof. destruct y; [congruence|reflexivity]. Qed.

Lemma infer_threshold_1d (y : list float) :
y <> [] -> dvdi.infer_threshold (A1 y) = Ok (A1 [slice.midpoint y]).
Proof.
intros Hy. unfold dvdi.infer_threshold, np.nanmin, np.nanmax. simpl.
rewrite reduce_nanmin, reduce_nanmax by assumption. reflexivity.
Qed.

Lemma infer_threshold_2d {P : Type} (g : P -> list float) (ps : list P) :
Forall (fun p => g p <> []) ps ->
dvdi.infer_threshold (A2 (List.map g ps))
= Ok (A2 (List.map (fun p => [slice.midpoint (g p)]) ps)).
Proof.
intros H. unfold dvdi.infer_threshold, np.nanmin, np.nanmax.
rewrite (reduce_last_2d ps _ g (fun p => slice.nanmin (g p)))
  by (eapply Forall_impl; [|exact H]; intros p; apply reduce_nanmin).
rewrite (reduce_last_2d ps _ g (fun p => slice.nanmax (g p)))
  by (eapply Forall_impl; [|exact H]; intros p; apply reduce_nanmax).
cbn [bind result_Monad]. rewrite zip_1d. cbn [bind result_Monad].
rewrite map_1d. apply newaxis_last_1d.
Qed.

Theorem find_rising_edge_1d (x y : list float) (threshold : option float)
(interp : bool) :
y <> [] -> length x = length y ->
dvdi.find_rising_edge (A1 x) (A1 y) threshold interp
= Ok (A0 (slice.edge x y (slice.threshold_of y threshold) interp)).
Proof.
intros Hy Hlen. unfold dvdi.find_rising_edge.
pose proof (crossing_lt y (slice.threshold_of y threshold) Hy) as Hi.
assert (Hth : match threshold with
              | None => dvdi.infer_threshold (A1 y)
              | Some t => Ok (A0 t)
              end = Ok (match threshold with
                        | None => A1 [slice.threshold_of y threshold]
                        | Some t => A0 (slice.threshold_of y threshold)
                        end)).
{ destruct threshold; [reflexivity|]. now apply infer_threshold_1d. }
rewrite Hth. clear Hth. cbn [bind result_Monad].
set (t := slice.threshold_of y threshold) in *.
assert (Hab : np.zip (fun v t0 => PrimFloat.ltb t0 v) (A1 y)
                (match threshold with None => A1 [t] | Some _ => A0 t end)
              = Ok (A1 (List.map (fun v => PrimFloat.ltb t v) y))).
{ destruct threshold; [reflexivity|]. simpl. now rewrite zip1_single_r. }
rewrite Hab. clear Hab. cbn [bind result_Monad np.reduce_last].
rewrite argmax_bool_crossing by assumption.
cbn [bind result_Monad ret np.newaxis_last np.take_along_last mapM np.map List.map].
rewrite (getitem_nat x _ np.nan) by lia.
cbn [bind result_Monad ret np.squeeze_last np.unsingle].
destruct interp; [|reflexivity].
rewrite (getitem_before x _ np.nan) by lia.
rewrite (getitem_before y _ np.nan) by lia.
rewrite (getitem_nat y _ np.nan) by lia.
cbn [bind result_Monad ret np.squeeze_last np.unsingle np.zip np.map].
rewrite Hlen.
destruct threshold; reflexivity.
Qed.

Theorem find_rising_edge_2d {P : Type} (gx gy : P -> list float) (ps : list P)
(threshold : option float) (interp : bool) :
Forall (fun p => gy p <> [] /\ length (gx p) = length (gy p)) ps ->
dvdi.find_rising_edge (A2 (List.map gx ps)) (A2 (List.map gy ps)) threshold interp
= Ok (A1 (List.map (fun p => slice.edge (gx p) (gy p)
                               (slice.threshold_of (gy p) threshold) interp) ps)).
Proof.
intros Hps. unfold dvdi.find_rising_edge.
set (T := fun p : P => slice.threshold_of (gy p) threshold).
set (I := fun p : P => slice.crossing (gy p) (T p)).
assert (Hi : Forall (fun p => (I p < length (gy p))%nat
                              /\ length (gx p) = length (gy p)) ps).
{ eapply Forall_impl; [|exact Hps]. intros p [Hy Hl]. split; [|exact Hl].
  now apply crossing_lt. }
assert (Hth : match threshold with
              | None => dvdi.infer_threshold (A2 (List.map gy ps))
              | Some t => Ok (A0 t)
              end = Ok (match threshold with
                        | None => A2 (List.map (fun p => [T p]) ps)
                        | Some t => A0 t
                        end)).
{ destruct threshold; [reflexivity|]. apply infer_threshold_2d.
  eapply Forall_impl; [|exact Hps]. now intros p [Hy _]. }
rewrite Hth. clear Hth. cbn [bind result_Monad].
assert (Hab : np.zip (fun v t0 => PrimFloat.ltb t0 v) (A2 (List.map gy ps))
                (match threshold with
                 | None => A2 (List.map (fun p => [T p]) ps)
                 | Some t => A0 t
                 end)
              = Ok (A2 (List.map (fun p => List.map (fun v => PrimFloat.ltb (T p) v)
                                             (gy p)) ps))).
{ destruct threshold as [t|].
  - unfold np.zip. now rewrite map_2d.
  - apply zip_column. }
rewrite Hab. clear Hab. cbn [bind result_Monad].
rewrite (reduce_last_2d ps np.argmax_bool _ (fun p => Z.of_nat (I p)))
  by (eapply Forall_impl; [|exact Hps]; intros p [Hy _];
      now apply argmax_bool_crossing).
cbn [bind result_Monad]. rewrite newaxis_last_1d. cbn [bind result_Monad].
rewrite (take_along_last_2d ps gx _ (fun p => slice.at_ (gx p) (I p)))
  by (eapply Forall_impl; [|exact Hi]; intros p [H1 H2];
      apply getitem_nat; lia).
cbn [bind result_Monad]. rewrite squeeze_last_column. cbn [bind result_Monad].
destruct interp.
2:{ cbn [ret result_Monad]. do 2 f_equal. }
rewrite map_column.
rewrite (take_along_last_2d ps gx _
           (fun p => slice.at_ (gx p) (slice.before (length (gy p)) (I p))))
  by (eapply Forall_impl; [|exact Hi]; intros p [H1 H2];
      rewrite <- H2; apply getitem_before; lia).
cbn [bind result_Monad]. rewrite squeeze_last_column. cbn [bind result_Monad].
rewrite (take_along_last_2d ps gy _
           (fun p => slice.at_ (gy p) (slice.before (length (gy p)) (I p))))
  by (eapply Forall_impl; [|exact Hi]; intros p [H1 H2];
      apply getitem_before; lia).
cbn [bind result_Monad]. rewrite squeeze_last_column. cbn [bind result_Monad].
rewrite (take_along_last_2d ps gy _ (fun p => slice.at_ (gy p) (I p)))
  by (eapply Forall_impl; [|exact Hi]; intros p [H1 H2];
      apply getitem_nat; lia).
cbn [bind result_Monad]. rewrite squeeze_last_column. cbn [bind result_Monad].
rewrite !zip_1d. cbn [bind result_Monad].
assert (Hsq : forall (g : P -> float),
           np.zip PrimFloat.sub
             (np.squeeze (match threshold with
                          | None => A2 (List.map (fun p => [T p]) ps)
                          | Some t => A0 t
                          end)) (A1 (List.map g ps))
           = Ok (A1 (List.map (fun p => PrimFloat.sub (T p) (g p)) ps))).
{ intros g. destruct threshold as [t|].
  - unfold np.squeeze, np.zip. now rewrite map_1d.
  - apply zip_squeeze_column. }
rewrite Hsq. clear Hsq. cbn [bind result_Monad].
rewrite !zip_1d. reflexivity.
Qed.

End EdgeFacts.

(** * extract_switching_current, one slice at a time *)

Module ExtractFacts.

Import NpFacts Rows EdgeFacts.

Lemma side_ok_cases (side : string) :
dvdi.side_ok side = true ->
side = "positive"%string \/ side = "negative"%string \/ side = "both"%string.
Proof.
unfold dvdi.side_ok. intros H.
apply orb_true_iff in H as [H|H]; [apply orb_true_iff in H as [H|H]|];
  apply String.eqb_eq in H; auto.
Qed.

Lemma where_row (keep : float -> bool) (b v : list float) :
length b = length v ->
np.zip1 (fun (c : bool) x => if c then x else np.nan) (List.map keep b) v
= Ok (slice.mask keep b v).
Proof.
intros H. rewrite zip1_same by now rewrite length_map.
unfold slice.mask. f_equal. revert v H.
induction b as [|b0 b IH]; intros [|v0 v] H; simpl in *; try reflexivity; try lia.
f_equal. apply IH. lia.
Qed.

Lemma mask_length (keep : float -> bool) (b v : list float) :
length b = length v -> length (slice.mask keep b v) = length b.
Proof.
intros H. unfold slice.mask. rewrite length_map, length_combine. lia.
Qed.

Lemma signal_length (br : slice.branch) (b d : list float) :
length b = length d -> length (slice.signal br b d) = length b.
Proof.
intros H. destruct br; simpl.
- now apply mask_length.
- rewrite length_rev. apply mask_length. now rewrite length_map.
Qed.

Lemma scan_length (br : slice.branch) (b : list float) :
length (slice.scan br b) = length b.
Proof. destruct br; simpl; [reflexivity|apply length_rev]. Qed.

Lemma signal_shape (br : slice.branch) (b d : list float) :
b <> [] -> length b = length d ->
slice.signal br b d <> []
/\ length (slice.scan br b) = length (slice.signal br b d).
Proof.
intros Hb H. rewrite scan_length, signal_length by assumption. split; [|reflexivity].
intros E. apply (f_equal (@length float)) in E.
rewrite signal_length in E by assumption. destruct b; [congruence|discriminate].
Qed.

Lemma positive_signal_1d (b d : list float) :
length b = length d ->
dvdi.positive_signal (A1 b) (A1 d) = Ok (A1 (slice.signal slice.pos b d)).
Proof.
intros H. unfold dvdi.positive_signal, np.where_.
cbn [np.map np.zip bind result_Monad].
rewrite where_row by assumption. reflexivity.
Qed.

Lemma negative_signal_1d (b d : list float) :
length b = length d ->
dvdi.negative_signal (A1 b) (A1 d) = Ok (A1 (slice.signal slice.neg b d)).
Proof.
intros H. unfold dvdi.negative_signal, np.where_.
cbn [np.map np.zip bind result_Monad].
rewrite where_row by now rewrite length_map. reflexivity.
Qed.

Section Rows2.

Context {P : Type} (gb gd : P -> list float) (ps : list P).
Hypothesis same_length : Forall (fun p => length (gb p) = length (gd p)) ps.

Lemma positive_signal_2d :
  dvdi.positive_signal (A2 (List.map gb ps)) (A2 (List.map gd ps))
  = Ok (A2 (List.map (fun p => slice.signal slice.pos (gb p) (gd p)) ps)).
Proof.
  unfold dvdi.positive_signal, np.where_. rewrite map_2d.
  apply zip_2d. eapply Forall_impl; [|exact same_length].
  intros p Hp. now apply where_row.
Qed.

Lemma negative_signal_2d :
  dvdi.negative_signal (A2 (List.map gb ps)) (A2 (List.map gd ps))
  = Ok (A2 (List.map (fun p => slice.signal slice.neg (gb p) (gd p)) ps)).
Proof.
  unfold dvdi.negative_signal, np.where_. rewrite !map_2d.
  rewrite (zip_2d ps _ _ (fun p => List.map PrimFloat.abs (gd p))
             (fun p => slice.mask (fun b => PrimFloat.leb b 0) (gb p)
                         (List.map PrimFloat.abs (gd p))))
    by (eapply Forall_impl; [|exact same_length]; intros p Hp; apply where_row;
        now rewrite length_map).
  cbn [bind result_Monad ret np.flip_last]. rewrite !map_map. reflexivity.
Qed.

End Rows2.

(** One step of a run of the function on a store. *)
Ltac run_store :=
cbn [String.eqb Ascii.eqb Bool.eqb negb bind ret dvdi.M_Monad result_Monad
     dvdi.isub_dvdi dvdi.get_bias dvdi.get_dvdi dvdi.lift dvdi.local dvdi.raise
     dvdi.st_bias dvdi.st_dvdi np.map np.flip_last np.nan_to_num np.stack2].

Lemma branch_edge_1d (br : slice.branch) (b d : list float)
(threshold : option float) (interp : bool) :
b <> [] -> length b = length d ->
dvdi.find_rising_edge (A1 (slice.scan br b)) (A1 (slice.signal br b d))
  threshold interp
= Ok (A0 (slice.edge (slice.scan br b) (slice.signal br b d)
            (slice.threshold_of (slice.signal br b d) threshold) interp)).
Proof.
intros Hb H. destruct (signal_shape br b d Hb H) as [H1 H2].
now apply find_rising_edge_1d.
Qed.

Theorem extract_1d (side : string) (threshold : option float) (interp : bool)
(offset : float) (b d : list float) :
dvdi.side_ok side = true -> b <> [] -> length b = length d ->
dvdi.extract_switching_current side threshold interp offset (slice.store_1d b d)
= (Ok (slice.answer_1d side threshold interp offset b d),
   slice.store_1d b (slice.shifted offset d)).
Proof.
intros Hside Hb H.
assert (H' : length b = length (slice.shifted offset d))
  by (unfold slice.shifted; now rewrite length_map).
pose proof (branch_edge_1d slice.pos b _ threshold interp Hb H') as Hp.
pose proof (branch_edge_1d slice.neg b _ threshold interp Hb H') as Hn.
cbn [slice.scan] in Hp, Hn.
unfold dvdi.extract_switching_current. rewrite Hside. cbn [negb].
unfold slice.store_1d, slice.answer_1d, slice.switching.
destruct (side_ok_cases side Hside) as [-> | [-> | ->]];
  repeat (progress (run_store; unfold Py.reversed;
                    fold (slice.shifted offset d);
                    rewrite ?positive_signal_1d, ?negative_signal_1d, ?Hp, ?Hn
                      by assumption));
  reflexivity.
Qed.

Lemma shift_rows_fst (offset : float) (rows : list (list float * list float)) :
List.map fst (slice.shift_rows offset rows) = List.map fst rows.
Proof. unfold slice.shift_rows. rewrite map_map. reflexivity. Qed.

Lemma shift_rows_snd (offset : float) (rows : list (list float * list float)) :
List.map snd (slice.shift_rows offset rows)
= List.map (fun p => slice.shifted offset (snd p)) rows.
Proof. unfold slice.shift_rows. rewrite map_map. reflexivity. Qed.

Theorem extract_2d (side : string) (threshold : option float) (interp : bool)
(offset : float) (rows : list (list float * list float)) :
dvdi.side_ok side = true -> Forall slice.well_shaped rows ->
dvdi.extract_switching_current side threshold interp offset (slice.store_2d rows)
= (Ok (slice.answer_2d side threshold interp offset rows),
   slice.store_2d (slice.shift_rows offset rows)).
Proof.
intros Hside Hrows.
set (gd := fun p : list float * list float => slice.shifted offset (snd p)).
assert (Hlen : Forall (fun p => length (fst p) = length (gd p)) rows).
{ eapply Forall_impl; [|exact Hrows]. intros p [_ Hp]. subst gd.
  unfold slice.shifted. cbn beta. now rewrite length_map. }
assert (Hedge : forall br,
           dvdi.find_rising_edge
             (A2 (List.map (fun p => slice.scan br (fst p)) rows))
             (A2 (List.map (fun p => slice.signal br (fst p) (gd p)) rows))
             threshold interp
           = Ok (A1 (List.map
                       (fun p => slice.edge (slice.scan br (fst p))
                                   (slice.signal br (fst p) (gd p))
                                   (slice.threshold_of
                                      (slice.signal br (fst p) (gd p)) threshold)
                                   interp) rows))).
{ intros br. apply find_rising_edge_2d.
  eapply Forall_impl; [|exact Hrows]. intros p [Hb Hp].
  apply signal_shape; [assumption|]. subst gd. unfold slice.shifted. cbn beta.
  now rewrite length_map. }
pose proof (Hedge slice.pos) as Hp. pose proof (Hedge slice.neg) as Hn.
cbn [slice.scan] in Hp, Hn. clear Hedge.
change (fun p : list float * list float => fst p)
  with (@fst (list float) (list float)) in Hp.
unfold dvdi.extract_switching_current. rewrite Hside. cbn [negb].
unfold slice.store_2d, slice.answer_2d, slice.currents, slice.switching.
rewrite shift_rows_fst, shift_rows_snd. fold gd.
assert (Hsub : np.map (fun v => (v - offset)%float) (A2 (List.map snd rows))
               = A2 (List.map gd rows)) by apply map_2d.
assert (Hflip : np.flip_last (A2 (List.map fst rows))
                = Ok (A2 (List.map (fun p => rev (fst p)) rows)))
  by (cbn [np.flip_last]; now rewrite map_map).
assert (Hnum : forall h : list float * list float -> float,
           np.nan_to_num (A1 (List.map h rows))
           = A1 (List.map (fun p => np.nan_to_num1 (h p)) rows))
  by (intros h; apply map_1d).
destruct (side_ok_cases side Hside) as [-> | [-> | ->]];
  repeat (progress
            (cbn [String.eqb Ascii.eqb Bool.eqb negb bind ret dvdi.M_Monad
                  result_Monad dvdi.isub_dvdi dvdi.get_bias dvdi.get_dvdi
                  dvdi.lift dvdi.local dvdi.st_bias dvdi.st_dvdi np.stack2];
             rewrite ?Hsub, ?Hflip, ?(positive_signal_2d fst gd rows Hlen),
               ?(negative_signal_2d fst gd rows Hlen), ?Hp, ?Hn, ?Hnum,
               ?length_map, ?Nat.eqb_refl));
  reflexivity.
Qed.

End ExtractFacts.

(** * Where an exception can come from

  The numeric library raises errors of its own (on an empty axis, on shapes
  that do not broadcast); none of them is the error of the [side] guard. *)

Module Provenance.

Import run.























End Provenance.

(** * The shape of a run *)

Module RunFacts.

Import ExtractFacts.

Lemma extract_invalid_side (side : string) (threshold : option float)
(interp : bool) (offset : float) (s : dvdi.store) :
dvdi.side_ok side = false ->
dvdi.extract_switching_current side threshold interp offset s
= (Raise dvdi.side_error, s).
Proof.
intros H. unfold dvdi.extract_switching_current. rewrite H. reflexivity.
Qed.

Lemma extract_positive (threshold : option float) (interp : bool)
(offset : float) (s : dvdi.store) :
dvdi.extract_switching_current "positive" threshold interp offset s
= (run.positive_branch threshold interp (run.after_offset offset s),
   run.after_offset offset s).
Proof.
unfold dvdi.extract_switching_current, run.positive_branch.
cbn [dvdi.side_ok String.eqb Ascii.eqb Bool.eqb negb orb bind ret dvdi.M_Monad
     dvdi.isub_dvdi dvdi.get_bias dvdi.get_dvdi dvdi.lift dvdi.local].
fold (run.after_offset offset s).
destruct (dvdi.positive_signal _ _) as [y|e]; cbn [bind result_Monad];
  [|reflexivity].
destruct (dvdi.find_rising_edge _ _ _ _); reflexivity.
Qed.

Lemma extract_negative (threshold : option float) (interp : bool)
(offset : float) (s : dvdi.store) :
dvdi.extract_switching_current "negative" threshold interp offset s
= (run.negative_branch threshold interp (run.after_offset offset s),
   run.after_offset offset s).
Proof.
unfold dvdi.extract_switching_current, run.negative_branch.
cbn [dvdi.side_ok String.eqb Ascii.eqb Bool.eqb negb orb bind ret dvdi.M_Monad
     dvdi.isub_dvdi dvdi.get_bias dvdi.get_dvdi dvdi.lift dvdi.local].
fold (run.after_offset offset s).
destruct (np.flip_last _) as [x|e]; cbn [bind result_Monad]; [|reflexivity].
destruct (dvdi.negative_signal _ _) as [y|e]; cbn [bind result_Monad];
  [|reflexivity].
destruct (dvdi.find_rising_edge _ _ _ _); reflexivity.
Qed.

Lemma extract_both (threshold : option float) (interp : bool)
(offset : float) (s : dvdi.store) :
dvdi.extract_switching_current "both" threshold interp offset s
= (ic_p <- run.positive_branch threshold interp (run.after_offset offset s) ;;
   ic_n <- run.negative_branch threshold interp (run.after_offset offset s) ;;
   np.stack2 ic_n ic_p,
   run.after_offset offset s).
Proof.
unfold dvdi.extract_switching_current, run.positive_branch, run.negative_branch.
cbn [dvdi.side_ok String.eqb Ascii.eqb Bool.eqb negb orb bind ret dvdi.M_Monad
     dvdi.isub_dvdi dvdi.get_bias dvdi.get_dvdi dvdi.lift dvdi.local].
fold (run.after_offset offset s).
destruct (dvdi.positive_signal _ _) as [y|e]; cbn [bind result_Monad];
  [|reflexivity].
destruct (dvdi.find_rising_edge _ y _ _); cbn [bind result_Monad];
  [|reflexivity].
destruct (np.flip_last _) as [x|e]; cbn [bind result_Monad]; [|reflexivity].
destruct (dvdi.negative_signal _ _) as [y'|e]; cbn [bind result_Monad];
  [|reflexivity].
destruct (dvdi.find_rising_edge x _ _ _); reflexivity.
Qed.

End RunFacts.

(** * Thresholds and missing edges *)

Module BranchFacts.

Section Masked.

(** A reduction that ignores NaN on either side. *)
Variable op : float -> float -> float.
Hypothesis op_nan_r : forall a, op a np.nan = a.
Hypothesis op_nan_l : forall b, op np.nan b = b.

Variable keep : float -> bool.
Variable g : float -> float.

Lemma fold_masked (l : list (float * float)) (acc : float) :
  fold_left op (slice.masked keep g l) acc = fold_left op (slice.kept keep g l) acc.
Proof.
  revert acc. induction l as [|p l IH]; intros acc; [reflexivity|].
  unfold slice.masked, slice.kept in *. cbn [List.map filter fold_left].
  destruct (keep (fst p)); cbn [List.map fold_left].
  - apply IH.
  - rewrite op_nan_r. apply IH.
Qed.

Lemma reduce_masked (l : list (float * float)) :
  slice.reduce1 op (slice.masked keep g l) = slice.reduce1 op (slice.kept keep g l).
Proof.
  induction l as [|p l IH]; [reflexivity|].
  change (slice.masked keep g (p :: l))
    with ((if keep (fst p) then g (snd p) else np.nan) :: slice.masked keep g l).
  unfold slice.kept. cbn [filter].
  destruct (keep (fst p)); cbn [List.map slice.reduce1].
  - apply fold_masked.
  - rewrite fold_masked. fold (slice.kept keep g l).
    destruct (slice.kept keep g l) as [|v r]; [reflexivity|].
    cbn [fold_left]. now rewrite op_nan_l.
Qed.

Lemma reduce_masked_rev (l : list (float * float)) :
  slice.reduce1 op (rev (slice.masked keep g l))
  = slice.reduce1 op (rev (slice.kept keep g l)).
Proof.
  unfold slice.masked, slice.kept. rewrite <- !map_rev, <- filter_rev.
  apply reduce_masked.
Qed.

End Masked.

Lemma combine_map_r {A B C : Type} (f : B -> C) (l1 : list A) (l2 : list B) :
combine l1 (List.map f l2) = List.map (fun p => (fst p, f (snd p))) (combine l1 l2).
Proof.
revert l2. induction l1 as [|a l1 IH]; intros [|b l2]; simpl; try reflexivity.
now rewrite IH.
Qed.

Lemma signal_as_masked (br : slice.branch) (b d : list float) :
slice.signal br b d
= match br with
  | slice.pos =>
      List.map (fun p => if PrimFloat.leb 0 (fst p) then snd p else np.nan)
        (combine b d)
  | slice.neg =>
      rev (List.map (fun p => if PrimFloat.leb (fst p) 0
                              then PrimFloat.abs (snd p) else np.nan)
             (combine b d))
  end.
Proof.
destruct br; unfold slice.signal, slice.mask; [reflexivity|].
rewrite combine_map_r, map_map. reflexivity.
Qed.

Lemma nanmin_signal (br : slice.branch) (b d : list float) :
slice.nanmin (slice.signal br b d) = slice.nanmin (slice.valid br b d).
Proof.
rewrite signal_as_masked. destruct br; unfold slice.valid.
- apply (reduce_masked np.fmin FloatFacts.fmin_nan_r FloatFacts.fmin_nan_l
           (fun b => PrimFloat.leb 0 b) (fun v => v)).
- apply (reduce_masked_rev np.fmin FloatFacts.fmin_nan_r FloatFacts.fmin_nan_l
           (fun b => PrimFloat.leb b 0) PrimFloat.abs).
Qed.

Lemma nanmax_signal (br : slice.branch) (b d : list float) :
slice.nanmax (slice.signal br b d) = slice.nanmax (slice.valid br b d).
Proof.
rewrite signal_as_masked. destruct br; unfold slice.valid.
- apply (reduce_masked np.fmax FloatFacts.fmax_nan_r FloatFacts.fmax_nan_l
           (fun b => PrimFloat.leb 0 b) (fun v => v)).
- apply (reduce_masked_rev np.fmax FloatFacts.fmax_nan_r FloatFacts.fmax_nan_l
           (fun b => PrimFloat.leb b 0) PrimFloat.abs).
Qed.

Lemma midpoint_signal (br : slice.branch) (b d : list float) :
slice.midpoint (slice.signal br b d) = slice.midpoint (slice.valid br b d).
Proof. unfold slice.midpoint. now rewrite nanmin_signal, nanmax_signal. Qed.

Lemma first_true_none {A : Type} (f : A -> bool) (l : list A) :
forallb (fun v => negb (f v)) l = true -> np.first_true (List.map f l) = None.
Proof.
induction l as [|c l IH]; [reflexivity|]. simpl.
destruct (f c); [discriminate|]. simpl. intros H. now rewrite IH.
Qed.

Lemma crossing_never (y : list float) (threshold : option float) :
slice.never_exceeds y threshold = true ->
slice.crossing y (slice.threshold_of y threshold) = O.
Proof.
unfold slice.never_exceeds, slice.crossing. intros H.
now rewrite first_true_none.
Qed.

Lemma scan_first (br : slice.branch) (b : list float) :
slice.at_ (slice.scan br b) 0 = slice.first_scanned br b.
Proof.
unfold slice.at_. destruct br; simpl.
- destruct b; reflexivity.
- destruct b as [|a b] using rev_ind; [reflexivity|].
  rewrite rev_app_distr, last_last. reflexivity.
Qed.

Lemma switching_never (br : slice.branch) (threshold : option float)
(b d : list float) :
slice.never_exceeds (slice.signal br b d) threshold = true ->
slice.switching br threshold false b d
= np.nan_to_num1 (slice.first_scanned br b).
Proof.
intros H. unfold slice.switching, slice.edge.
now rewrite crossing_never, scan_first.
Qed.

End BranchFacts.

(** * Slices and mirrors *)

Module MirrorFacts.

Lemma slice_tail {A : Type} (l : list A) : Py.slice l (Some 1) None = tl l.
Proof.
unfold Py.slice, Py.adjust. destruct l as [|a t]; [reflexivity|].
change (1 <? 0) with false. cbv iota.
assert (Hn : Z.of_nat (length (a :: t)) = Z.of_nat (length t) + 1)
  by (cbn [length]; lia).
rewrite Hn. clear Hn.
replace (Z.max 0 (Z.min (Z.of_nat (length t) + 1) 1)) with 1 by lia.
replace (Z.to_nat (Z.of_nat (length t) + 1 - 1)) with (length t) by lia.
change (Z.to_nat 1) with 1%nat. cbn [skipn tl]. apply firstn_all.
Qed.

Lemma slice_init {A : Type} (l : list A) :
Py.slice l None (Some (-1)) = removelast l.
Proof.
unfold Py.slice, Py.adjust. change (-1 <? 0) with true. cbv iota.
change (Z.to_nat 0) with O. cbn [skipn].
rewrite removelast_firstn_len. f_equal. lia.
Qed.

Lemma slice_length {A : Type} (l : list A) (start stop : option Z) :
length (Py.slice l start stop)
= length (Py.slice (repeat tt (length l)) start stop).
Proof.
unfold Py.slice. rewrite !length_firstn, !length_skipn, repeat_length.
reflexivity.
Qed.

Lemma slice_length_eq {A B : Type} (l1 : list A) (l2 : list B)
(start stop : option Z) :
length l1 = length l2 ->
length (Py.slice l1 start stop) = length (Py.slice l2 start stop).
Proof. intros H. rewrite (slice_length l1), (slice_length l2), H. reflexivity. Qed.

Section Mirror.

Variable h : float -> float.
Hypothesis h_involutive : forall x, h (h x) = x.

Lemma map_h_h (l : list float) : List.map h (List.map h l) = l.
Proof.
  rewrite map_map. rewrite <- (map_id l) at 2. apply map_ext. exact h_involutive.
Qed.

Lemma mirrored_form (s : fraunhofer.side) (l : list float) :
  l <> [] ->
  exists l1 a l2,
    pattern.mirrored h s l = l1 ++ a :: l2
    /\ List.map h (rev (pattern.mirrored h s l)) = l1 ++ h a :: l2
    /\ length l1 = (length l - 1)%nat
    /\ length l2 = (length l - 1)%nat
    /\ a = match s with
           | fraunhofer.positive => hd np.nan l
           | fraunhofer.negative => last l np.nan
           end.
Proof.
  intros Hl. destruct s.
  - destruct l as [|a t]; [congruence|].
    exists (List.map h (rev t)), a, t. cbn [pattern.mirrored tl hd length].
    repeat split.
    + rewrite rev_app_distr. cbn [rev]. rewrite <- map_rev, rev_involutive.
      rewrite !map_app. cbn [List.map]. rewrite map_h_h, <- app_assoc.
      reflexivity.
    + rewrite length_map, length_rev. lia.
    + lia.
  - destruct l as [|a t] using rev_ind; [congruence|]. clear IHt.
    exists t, a, (List.map h (rev t)). cbn [pattern.mirrored].
    rewrite removelast_last, last_last, length_app. cbn [length].
    repeat split.
    + now rewrite <- app_assoc.
    + rewrite <- app_assoc. cbn [app]. rewrite rev_app_distr. cbn [rev].
      rewrite <- map_rev, rev_involutive.
      rewrite <- app_assoc. cbn [app]. rewrite !map_app. cbn [List.map].
      now rewrite map_h_h.
    + lia.
    + rewrite length_map, length_rev. lia.
Qed.

Lemma nth_of_form (l1 l2 : list float) (a b d : float) (k : nat) :
  k <> length l1 -> nth k (l1 ++ a :: l2) d = nth k (l1 ++ b :: l2) d.
Proof.
  intros Hk. destruct (Nat.lt_ge_cases k (length l1)) as [H|H].
  - now rewrite !app_nth1.
  - rewrite !app_nth2 by lia.
    destruct (k - length l1)%nat eqn:E; [lia|reflexivity].
Qed.

Lemma nth_mirror (out : list float) (k : nat) (d : float) :
  (k < length out)%nat ->
  h (nth (length out - 1 - k) out d) = nth k (List.map h (rev out)) d.
Proof.
  intros Hk. rewrite (nth_indep (List.map h (rev out)) d (h d))
    by now rewrite length_map, length_rev.
  rewrite map_nth. f_equal. rewrite rev_nth by assumption. f_equal. lia.
Qed.

Lemma mirrored_symmetric (s : fraunhofer.side) (l : list float) (k : nat) :
  (k < length (pattern.mirrored h s l))%nat ->
  (2 * k + 1 <> length (pattern.mirrored h s l))%nat ->
  nth k (pattern.mirrored h s l) np.nan
  = h (nth (length (pattern.mirrored h s l) - 1 - k) (pattern.mirrored h s l) np.nan).
Proof.
  intros Hk Hmid. destruct l as [|a0 t0] eqn:El.
  - destruct s; simpl in Hk; lia.
  - rewrite <- El in *. assert (Hl : l <> []) by (rewrite El; discriminate).
    destruct (mirrored_form s l Hl) as (l1 & a & l2 & Hout & Hrev & H1 & H2 & _).
    rewrite nth_mirror by assumption. rewrite Hrev, Hout.
    apply nth_of_form. rewrite Hout, length_app in Hmid. cbn [length] in Hmid.
    lia.
Qed.

Lemma mirrored_length (s : fraunhofer.side) (l : list float) :
  l <> [] -> length (pattern.mirrored h s l) = (2 * (length l - 1) + 1)%nat.
Proof.
  intros Hl.
  destruct (mirrored_form s l Hl) as (l1 & a & l2 & Hout & _ & H1 & H2 & _).
  rewrite Hout, length_app. cbn [length]. lia.
Qed.

Lemma mirrored_middle (s : fraunhofer.side) (l : list float) :
  l <> [] ->
  nth (length l - 1) (pattern.mirrored h s l) np.nan
  = match s with
    | fraunhofer.positive => hd np.nan l
    | fraunhofer.negative => last l np.nan
    end.
Proof.
  intros Hl.
  destruct (mirrored_form s l Hl) as (l1 & a & l2 & Hout & _ & H1 & _ & Ha).
  rewrite Hout, <- H1, nth_middle. exact Ha.
Qed.

End Mirror.

Lemma mirror_mirrored (s : fraunhofer.side) (f i : list float) :
fraunhofer.mirror s f i
= (pattern.mirrored PrimFloat.opp s f, pattern.mirrored (fun v => v) s i).
Proof.
unfold fraunhofer.mirror, fraunhofer.neg, Py.reversed, pattern.mirrored.
rewrite !slice_tail, !slice_init, !map_id. destruct s; reflexivity.
Qed.

Lemma arg_scan_lt (better : float -> float -> bool) (l : list float)
(i : nat) (mp : float) (ind : nat) :
(ind < i)%nat -> (np.arg_scan better l i mp ind < i + length l)%nat.
Proof.
revert i mp ind. induction l as [|v r IH]; intros i mp ind H; cbn [np.arg_scan length].
- lia.
- destruct (better v mp).
  + destruct (PrimFloat.is_nan v); [lia|].
    specialize (IH (S i) v i). lia.
  + specialize (IH (S i) mp ind). lia.
Qed.

Lemma arg_ext_bound (better : float -> float -> bool) (name : string)
(l : list float) (i : Z) :
np.arg_ext better name l = Ok i -> 0 <= i < Z.of_nat (length l).
Proof.
unfold np.arg_ext. destruct l as [|v r]; [discriminate|].
intros H. injection H as <-. cbn [length].
destruct (PrimFloat.is_nan v); [lia|].
pose proof (arg_scan_lt better r 1 v 0). lia.
Qed.

Lemma slice_length_formula {A : Type} (l : list A) (start stop : option Z) :
let n := Z.of_nat (length l) in
let lo := match start with Some i => Py.adjust n i | None => 0 end in
let hi := match stop with Some i => Py.adjust n i | None => n end in
Z.of_nat (length (Py.slice l start stop)) = Z.max 0 (Z.min (hi - lo) (n - lo)).
Proof.
cbv zeta. unfold Py.slice. rewrite length_firstn, length_skipn.
assert (H : forall i, 0 <= Py.adjust (Z.of_nat (length l)) i) by
  (intros i; unfold Py.adjust; lia).
destruct start as [a|]; [specialize (H a)|]; lia.
Qed.

Lemma slice_prefix_nonempty {A : Type} (l : list A) (i : Z) :
l <> [] -> 0 <= i -> Py.slice l None (Some (i + 1)) <> [].
Proof.
intros Hl Hi E. apply (f_equal (@length A)) in E.
pose proof (slice_length_formula l None (Some (i + 1))) as H. cbv zeta in H.
rewrite E in H. cbn [length] in H. unfold Py.adjust in H.
destruct l; [congruence|]. cbn [length] in H.
destruct (Z.ltb_spec (i + 1) 0); lia.
Qed.

Lemma slice_suffix_nonempty {A : Type} (l : list A) (i : Z) :
0 <= i < Z.of_nat (length l) -> Py.slice l (Some i) None <> [].
Proof.
intros Hi E. apply (f_equal (@length A)) in E.
pose proof (slice_length_formula l (Some i) None) as H. cbv zeta in H.
rewrite E in H. cbn [length] in H. unfold Py.adjust in H.
destruct (Z.ltb_spec i 0); lia.
Qed.

Lemma getitem_nonempty {A : Type} (l : list A) (i : Z) (a : A) :
Py.getitem l i = Ok a -> l <> [].
Proof.
intros H ->. unfold Py.getitem in H. cbn [length] in H.
destruct (i <? 0) eqn:E; cbv zeta in H.
- apply Z.ltb_lt in E. destruct (Z.ltb_spec (i + Z.of_nat 0) 0); [discriminate|lia].
- apply Z.ltb_ge in E. destruct (Z.ltb_spec i 0); [lia|].
  destruct (Z.leb_spec (Z.of_nat 0) i); [discriminate|lia].
Qed.

Lemma keep_side_shape (field ic : list float) (s : fraunhofer.side)
(f i : list float) :
fraunhofer.keep_side field ic = Ok (s, f, i) ->
f <> [] /\ (length ic = length field -> length i = length f).
Proof.
unfold fraunhofer.keep_side.
destruct (Py.getitem field 0) as [f0|e] eqn:E0; [|discriminate].
destruct (Py.getitem field 1) as [f1|e] eqn:E1; [|discriminate].
cbn [bind result_Monad].
apply getitem_nonempty in E0.
set (field' := if PrimFloat.ltb f1 f0 then Py.reversed field else field).
set (ic' := if PrimFloat.ltb f1 f0 then Py.reversed ic else ic).
assert (Hf : field' <> []).
{ subst field'. destruct (PrimFloat.ltb f1 f0); [|assumption].
  unfold Py.reversed. intros E. apply E0.
  apply (f_equal (@rev float)) in E. now rewrite rev_involutive in E. }
assert (Hlen : length ic = length field -> length ic' = length field').
{ subst field' ic'. unfold Py.reversed.
  destruct (PrimFloat.ltb f1 f0); rewrite ?length_rev; auto. }
clearbody field' ic'.
destruct (np.argmin _) as [index|e] eqn:Ei; [|discriminate].
apply arg_ext_bound in Ei. rewrite length_map in Ei.
cbn [bind result_Monad ret].
destruct (index =? 0); [intros H; injection H as <- <- <-; auto|].
destruct (index =? fraunhofer.len field' - 1);
  [intros H; injection H as <- <- <-; auto|].
destruct (_ <? _); intros H; injection H as <- <- <-.
- split; [apply slice_prefix_nonempty; [assumption|lia]|].
  intros Hl. apply slice_length_eq. auto.
- split; [now apply slice_suffix_nonempty|].
  intros Hl. apply slice_length_eq. auto.
Qed.

End MirrorFacts.

(** * The claims of the specification *)


Lemma extract_final_store (side : string) (threshold : option float)
(interp : bool) (offset : float) (s : dvdi.store) :
snd (dvdi.extract_switching_current side threshold interp offset s)
= if dvdi.side_ok side then run.after_offset offset s else s.
Proof.
destruct (dvdi.side_ok side) eqn:E.
- destruct (ExtractFacts.side_ok_cases side E) as [-> | [-> | ->]].
  + now rewrite RunFacts.extract_positive.
  + now rewrite RunFacts.extract_negative.
  + now rewrite RunFacts.extract_both.
- now rewrite RunFacts.extract_invalid_side.
Qed.

Lemma zero_offset_keeps_store (s : dvdi.store) : run.after_offset 0%float s = s.
Proof.
destruct s as [b d]. unfold run.after_offset. cbn [dvdi.st_bias dvdi.st_dvdi].
f_equal. destruct d as [v|l|ll]; cbn [np.map].
- now rewrite FloatFacts.sub_zero.
- f_equal. rewrite <- (map_id l) at 2. apply map_ext, FloatFacts.sub_zero.
- f_equal. rewrite <- (map_id ll) at 2. apply map_ext. intros l.
  rewrite <- (map_id l) at 2. apply map_ext, FloatFacts.sub_zero.
Qed.


(** * The claims *)

(** C2. On bias = [-2,-1,0,1,2,3], dvdi = [5,5,0,0,5,5], threshold 2.5,
  no interpolation and offset 0, [extract_switching_current] returns 2 for
  side "positive" and -1 for side "negative". *)
Theorem extract_example_positive_negative :
fst (dvdi.extract_switching_current "positive" (Some 2.5%float) false 0%float
       (slice.store_1d example.bias example.dvdi)) = Ok (A0 2%float)
/\ fst (dvdi.extract_switching_current "negative" (Some 2.5%float) false 0%float
          (slice.store_1d example.bias example.dvdi)) = Ok (A0 (-1)%float).
Proof. split; vm_compute; reflexivity. Qed.




Lemma stack2_rows {A : Type} (n p r : ndarray A) :
np.stack2 n p = Ok r -> run.row r 0 = Ok n /\ run.row r 1 = Ok p.
Proof.
destruct n as [u|l1|ll1], p as [v|l2|ll2]; simpl; try discriminate.
- intros H. injection H as <-. split; reflexivity.
- destruct (Nat.eqb _ _); [|discriminate].
  intros H. injection H as <-. split; reflexivity.
Qed.

(** C4. With side "both" the function returns the two-row array whose row 0
  is what side "negative" returns and whose row 1 is what side "positive"
  returns, on the same inputs; it returns whenever the arrays have one
  shape and a non-empty swept axis. *)
Theorem both_stacks_negative_then_positive (threshold : option float)
(interp : bool) (offset : float) (s : dvdi.store) :
let call := fun side =>
  fst (dvdi.extract_switching_current side threshold interp offset s) in
call "both"%string
= (ic_p <- call "positive"%string ;; ic_n <- call "negative"%string ;;
   np.stack2 ic_n ic_p)
/\ (forall r, call "both"%string = Ok r ->
      run.row r 0 = call "negative"%string
      /\ run.row r 1 = call "positive"%string)
/\ (forall b d, b <> [] -> length b = length d ->
      fst (dvdi.extract_switching_current "both" threshold interp offset
             (slice.store_1d b d))
      = Ok (A1 [slice.switching slice.neg threshold interp b
                  (slice.shifted offset d);
                slice.switching slice.pos threshold interp b
                  (slice.shifted offset d)]))
/\ (forall rows, Forall slice.well_shaped rows ->
      fst (dvdi.extract_switching_current "both" threshold interp offset
             (slice.store_2d rows))
      = Ok (A2 [slice.currents slice.neg threshold interp offset rows;
                slice.currents slice.pos threshold interp offset rows])).
Proof.
intros call. subst call. cbv beta.
rewrite RunFacts.extract_both, RunFacts.extract_positive,
  RunFacts.extract_negative. cbn [fst].
split; [reflexivity|split; [|split]].
- intros r H.
  destruct (run.positive_branch _ _ _) as [p|e]; [|discriminate].
  destruct (run.negative_branch _ _ _) as [n|e]; [|discriminate].
  cbn [bind result_Monad] in H. apply stack2_rows in H. tauto.
- intros b d Hb Hl.
  now rewrite (ExtractFacts.extract_1d "both" threshold interp offset b d eq_refl Hb Hl).
- intros rows Hrows.
  now rewrite (ExtractFacts.extract_2d "both" threshold interp offset rows eq_refl Hrows).
Qed.

Lemma both_stacks_witness :
exists n p,
  fst (dvdi.extract_switching_current "both" (Some 2.5%float) false 0%float
         (slice.store_1d example.bias example.dvdi)) = Ok (A1 [n; p])
  /\ fst (dvdi.extract_switching_current "negative" (Some 2.5%float) false 0%float
            (slice.store_1d example.bias example.dvdi)) = Ok (A0 n)
  /\ fst (dvdi.extract_switching_current "positive" (Some 2.5%float) false 0%float
            (slice.store_1d example.bias example.dvdi)) = Ok (A0 p).
Proof.
exists (-1)%float, 2%float.
destruct (both_stacks_negative_then_positive (Some 2.5%float) false 0%float
            (slice.store_1d example.bias example.dvdi)) as (_ & Hrows & _ & _).
destruct (Hrows (A1 [(-1)%float; 2%float])) as [Hn Hp].
- vm_compute. reflexivity.
- split; [vm_compute; reflexivity|]. split.
  + rewrite <- Hn. reflexivity.
  + rewrite <- Hp. reflexivity.
Defined.

(** C3 (the code departs from it). [dvdi -= offset] works in place: on
  bias = [0,1,2,3], dvdi = [0,0,3,3], threshold 1.5 and offset 1 the call
  leaves [-1,-1,2,2] in the caller's dvdi, and the same call made again
  returns 0 where the first one returned 2. *)
Theorem offset_is_subtracted_in_place :
let call := dvdi.extract_switching_current "positive" (Some 1.5%float) false 1%float in
let s := slice.store_1d example.ramp_bias example.ramp_dvdi in
call s = (Ok (A0 2%float),
          slice.store_1d example.ramp_bias
            [(-1)%float; (-1)%float; 2%float; 2%float])
/\ snd (call s) <> s
/\ call (snd (call s))
   = (Ok (A0 0%float),
      slice.store_1d example.ramp_bias [(-2)%float; (-2)%float; 1%float; 1%float]).
Proof.
cbv zeta. split; [vm_compute; reflexivity|split; [|vm_compute; reflexivity]].
intros H. apply (f_equal dvdi.st_dvdi) in H. vm_compute in H. discriminate H.
Qed.

Lemma side_of_ok (br : slice.branch) : dvdi.side_ok (slice.side_of br) = true.
Proof. destruct br; reflexivity. Qed.

Lemma answer_1d_branch (br : slice.branch) (threshold : option float)
(interp : bool) (offset : float) (b d : list float) :
slice.answer_1d (slice.side_of br) threshold interp offset b d
= A0 (slice.switching br threshold interp b (slice.shifted offset d)).
Proof. destruct br; reflexivity. Qed.

Lemma answer_2d_branch (br : slice.branch) (threshold : option float)
(interp : bool) (offset : float) (rows : list (list float * list float)) :
slice.answer_2d (slice.side_of br) threshold interp offset rows
= A1 (slice.currents br threshold interp offset rows).
Proof. destruct br; reflexivity. Qed.

Lemma extract_branch_1d (br : slice.branch) (threshold : option float)
(interp : bool) (offset : float) (b d : list float) :
b <> [] -> length b = length d ->
fst (dvdi.extract_switching_current (slice.side_of br) threshold interp offset
       (slice.store_1d b d))
= Ok (A0 (slice.switching br threshold interp b (slice.shifted offset d))).
Proof.
intros Hb Hl.
rewrite (ExtractFacts.extract_1d _ threshold interp offset b d (side_of_ok br) Hb Hl).
cbn [fst]. now rewrite answer_1d_branch.
Qed.

Lemma extract_branch_2d (br : slice.branch) (threshold : option float)
(interp : bool) (offset : float) (rows : list (list float * list float)) :
Forall slice.well_shaped rows ->
fst (dvdi.extract_switching_current (slice.side_of br) threshold interp offset
       (slice.store_2d rows))
= Ok (A1 (slice.currents br threshold interp offset rows)).
Proof.
intros Hrows.
rewrite (ExtractFacts.extract_2d _ threshold interp offset rows (side_of_ok br) Hrows).
cbn [fst]. now rewrite answer_2d_branch.
Qed.

(** What the code does when no edge is found. When the signal of a branch
  never rises above the threshold and interpolation is off, the switching
  current returned for that slice is [nan_to_num] of the first bias sample
  the branch scans: [bias[0]] on the positive branch, [bias[-1]] on the
  negative one. *)
Theorem no_edge_returns_first_scanned_bias (br : slice.branch)
(threshold : option float) (offset : float) :
(forall b d, b <> [] -> length b = length d ->
   slice.never_exceeds (slice.signal br b (slice.shifted offset d)) threshold = true ->
   fst (dvdi.extract_switching_current (slice.side_of br) threshold false offset
          (slice.store_1d b d))
   = Ok (A0 (np.nan_to_num1 (slice.first_scanned br b))))
/\ (forall rows, Forall slice.well_shaped rows ->
      exists l,
        fst (dvdi.extract_switching_current (slice.side_of br) threshold false
               offset (slice.store_2d rows)) = Ok (A1 l)
        /\ forall k p, nth_error rows k = Some p ->
             slice.never_exceeds
               (slice.signal br (fst p) (slice.shifted offset (snd p))) threshold
             = true ->
             nth_error l k = Some (np.nan_to_num1 (slice.first_scanned br (fst p)))).
Proof.
split.
- intros b d Hb Hl Hnever. rewrite extract_branch_1d by assumption.
  now rewrite BranchFacts.switching_never.
- intros rows Hrows. eexists. split; [now apply extract_branch_2d|].
  intros k p Hk Hnever. unfold slice.currents.
  rewrite nth_error_map, Hk. cbn [option_map].
  now rewrite BranchFacts.switching_never.
Qed.

Lemma no_edge_witness :
fst (dvdi.extract_switching_current "negative" (Some 2.5%float) false 0%float
       (slice.store_1d example.bias example.flat)) = Ok (A0 3%float)
/\ exists l,
     fst (dvdi.extract_switching_current "positive" (Some 2.5%float) false 0%float
            (slice.store_2d [(example.bias, example.flat)])) = Ok (A1 l)
     /\ nth_error l 0 = Some (-2)%float.
Proof.
split.
- apply (no_edge_returns_first_scanned_bias slice.neg (Some 2.5%float) 0%float).
  + discriminate.
  + reflexivity.
  + vm_compute. reflexivity.
- destruct (no_edge_returns_first_scanned_bias slice.pos (Some 2.5%float) 0%float)
    as [_ H2].
  destruct (H2 [(example.bias, example.flat)]) as (l & Hl & Hk).
  + repeat constructor. discriminate.
  + exists l. split; [exact Hl|].
    apply (Hk O (example.bias, example.flat)); [reflexivity|].
    vm_compute. reflexivity.
Defined.

(** C1 (the code departs from it). On bias = [-2,-1,0,1,2,3] with dvdi = 0
  everywhere and threshold 2.5 the resistance never rises on either branch.
  Without interpolation the call returns -2 on the positive branch and 3 on
  the negative one: [argmax] of a comparison that holds nowhere is 0, and
  the bias read there is a sample the branch has masked out. With
  interpolation the same input gives a NaN that [nan_to_num] turns into the
  0 the claim states. *)
Theorem no_edge_returns_masked_bias :
let call := fun side interp =>
  fst (dvdi.extract_switching_current side (Some 2.5%float) interp 0%float
         (slice.store_1d example.bias example.flat)) in
slice.never_exceeds
  (slice.signal slice.pos example.bias (slice.shifted 0%float example.flat))
  (Some 2.5%float) = true
/\ slice.never_exceeds
     (slice.signal slice.neg example.bias (slice.shifted 0%float example.flat))
     (Some 2.5%float) = true
/\ call "positive"%string false = Ok (A0 (-2)%float)
/\ call "negative"%string false = Ok (A0 3%float)
/\ call "both"%string false = Ok (A1 [3%float; (-2)%float])
/\ PrimFloat.leb 0%float (-2)%float = false
/\ PrimFloat.leb 3%float 0%float = false
/\ call "positive"%string true = Ok (A0 0%float)
/\ call "negative"%string true = Ok (A0 0%float)
/\ call "both"%string true = Ok (A1 [0%float; 0%float]).
Proof. cbv zeta. repeat split; vm_compute; reflexivity. Qed.

Lemma branch_signal_1d (br : slice.branch) (offset : float) (b d : list float) :
length b = length d ->
run.branch_signal br (run.after_offset offset (slice.store_1d b d))
= Ok (A1 (slice.signal br b (slice.shifted offset d))).
Proof.
intros Hl.
assert (Hl' : length b = length (slice.shifted offset d))
  by (unfold slice.shifted; now rewrite length_map).
destruct br; cbn [run.branch_signal run.after_offset slice.store_1d
                  dvdi.st_bias dvdi.st_dvdi np.map];
  fold (slice.shifted offset d).
- now apply ExtractFacts.positive_signal_1d.
- now apply ExtractFacts.negative_signal_1d.
Qed.

Lemma branch_signal_2d (br : slice.branch) (offset : float)
(rows : list (list float * list float)) :
Forall slice.well_shaped rows ->
run.branch_signal br (run.after_offset offset (slice.store_2d rows))
= Ok (A2 (List.map (fun p => slice.signal br (fst p)
                               (slice.shifted offset (snd p))) rows)).
Proof.
intros Hrows.
set (gd := fun p : list float * list float => slice.shifted offset (snd p)).
assert (Hlen : Forall (fun p => length (fst p) = length (gd p)) rows).
{ eapply Forall_impl; [|exact Hrows]. intros p [_ Hp]. subst gd.
  unfold slice.shifted. cbn beta. now rewrite length_map. }
assert (Hsub : np.map (fun v => (v - offset)%float) (A2 (List.map snd rows))
               = A2 (List.map gd rows)) by apply Rows.map_2d.
destruct br; cbn [run.branch_signal run.after_offset slice.store_2d
                  dvdi.st_bias dvdi.st_dvdi]; rewrite Hsub.
- exact (ExtractFacts.positive_signal_2d fst gd rows Hlen).
- exact (ExtractFacts.negative_signal_2d fst gd rows Hlen).
Qed.

Lemma switching_midpoint (br : slice.branch) (interp : bool) (b d : list float) :
slice.switching br None interp b d
= slice.switching br (Some (slice.midpoint (slice.valid br b d))) interp b d.
Proof.
unfold slice.switching, slice.threshold_of.
now rewrite BranchFacts.midpoint_signal.
Qed.

(** C5, as the code has it. With no threshold given, the threshold in use
  for a slice is half of (min + max) of the values the branch searches in
  the valid region of that slice, each slice on its own: [dvdi - offset]
  where [bias >= 0] on the positive branch, [abs(dvdi - offset)] where
  [bias <= 0] on the negative branch, masked entries and NaN left out. The
  result of a slice is the one an explicit threshold of that value gives
  on the slice alone. *)
Theorem threshold_is_midpoint_of_searched_values (br : slice.branch)
(interp : bool) (offset : float) :
(forall b d, b <> [] -> length b = length d ->
   (y <- run.branch_signal br (run.after_offset offset (slice.store_1d b d)) ;;
    dvdi.infer_threshold y)
   = Ok (A1 [slice.midpoint (slice.valid br b (slice.shifted offset d))])
   /\ fst (dvdi.extract_switching_current (slice.side_of br) None interp offset
             (slice.store_1d b d))
      = fst (dvdi.extract_switching_current (slice.side_of br)
               (Some (slice.midpoint (slice.valid br b (slice.shifted offset d))))
               interp offset (slice.store_1d b d)))
/\ (forall rows, Forall slice.well_shaped rows ->
      (y <- run.branch_signal br (run.after_offset offset (slice.store_2d rows)) ;;
       dvdi.infer_threshold y)
      = Ok (A2 (List.map
                  (fun p => [slice.midpoint
                               (slice.valid br (fst p)
                                  (slice.shifted offset (snd p)))]) rows))
      /\ exists l,
           fst (dvdi.extract_switching_current (slice.side_of br) None interp
                  offset (slice.store_2d rows)) = Ok (A1 l)
           /\ forall k p, nth_error rows k = Some p ->
                exists v,
                  nth_error l k = Some v
                  /\ fst (dvdi.extract_switching_current (slice.side_of br)
                            (Some (slice.midpoint
                                     (slice.valid br (fst p)
                                        (slice.shifted offset (snd p)))))
                            interp offset (slice.store_1d (fst p) (snd p)))
                     = Ok (A0 v)).
Proof.
split.
- intros b d Hb Hl. split.
  + rewrite branch_signal_1d by assumption. cbn [bind result_Monad].
    rewrite EdgeFacts.infer_threshold_1d.
    * now rewrite BranchFacts.midpoint_signal.
    * apply ExtractFacts.signal_shape; [assumption|].
      unfold slice.shifted. now rewrite length_map.
  + rewrite !extract_branch_1d by assumption.
    now rewrite switching_midpoint.
- intros rows Hrows. split.
  + rewrite branch_signal_2d by assumption. cbn [bind result_Monad].
    rewrite EdgeFacts.infer_threshold_2d.
    * do 2 f_equal. apply map_ext. intros p.
      now rewrite BranchFacts.midpoint_signal.
    * eapply Forall_impl; [|exact Hrows]. intros p [Hb Hl].
      apply ExtractFacts.signal_shape; [assumption|].
      unfold slice.shifted. now rewrite length_map.
  + eexists. split; [now apply extract_branch_2d|].
    intros k p Hk. eexists. split.
    * unfold slice.currents. rewrite nth_error_map, Hk. reflexivity.
    * pose proof (proj1 (Forall_forall _ _) Hrows p (nth_error_In _ _ Hk))
        as [Hb Hl].
      rewrite extract_branch_1d by assumption.
      now rewrite switching_midpoint.
Qed.

Lemma threshold_witness :
(y <- run.branch_signal slice.neg
        (run.after_offset 0%float (slice.store_1d example.vi_bias example.vi)) ;;
 dvdi.infer_threshold y) = Ok (A1 [2%float])
/\ (y <- run.branch_signal slice.pos
           (run.after_offset 0%float
              (slice.store_2d [(example.bias, example.dvdi)])) ;;
    dvdi.infer_threshold y) = Ok (A2 [[2.5%float]]).
Proof.
split.
- destruct (threshold_is_midpoint_of_searched_values slice.neg false 0%float)
    as [H1 _].
  destruct (H1 example.vi_bias example.vi) as [Ht _];
    [discriminate|reflexivity|].
  rewrite Ht. vm_compute. reflexivity.
- destruct (threshold_is_midpoint_of_searched_values slice.pos false 0%float)
    as [_ H2].
  destruct (H2 [(example.bias, example.dvdi)]) as [Ht _].
  + repeat constructor. discriminate.
  + rewrite Ht. vm_compute. reflexivity.
Defined.

(** C5 as stated fails on the negative branch: for bias = [-2,-1,0] and the
  V(I) values [-4,-2,0] the threshold in use is 2, half of (min + max) of
  the absolute values, while the [dvdi] values of the valid region give -2;
  with a threshold of -2 the function returns 0 where it returns -2. *)
Lemma threshold_is_not_of_raw_dvdi :
(y <- run.branch_signal slice.neg
        (run.after_offset 0%float (slice.store_1d example.vi_bias example.vi)) ;;
 dvdi.infer_threshold y) = Ok (A1 [2%float])
/\ slice.midpoint
     (slice.valid_dvdi slice.neg example.vi_bias
        (slice.shifted 0%float example.vi)) = (-2)%float
/\ fst (dvdi.extract_switching_current "negative" None false 0%float
          (slice.store_1d example.vi_bias example.vi)) = Ok (A0 (-2)%float)
/\ fst (dvdi.extract_switching_current "negative" (Some (-2)%float) false 0%float
          (slice.store_1d example.vi_bias example.vi)) = Ok (A0 0%float)
/\ PrimFloat.eqb 2%float (-2)%float = false.
Proof. repeat split; vm_compute; reflexivity. Qed.

Lemma nth_last {A : Type} (l : list A) (d : A) :
nth (length l - 1) l d = last l d.
Proof.
destruct l as [|a l] using rev_ind; [reflexivity|].
rewrite length_app, last_last. cbn [length].
replace (length l + 1 - 1)%nat with (length l) by lia.
now rewrite nth_middle.
Qed.

Lemma crossing_at_start (y : list float) (t : float) :
PrimFloat.ltb t (hd np.nan y) = true -> slice.crossing y t = O.
Proof.
unfold slice.crossing. destruct y as [|v y]; [reflexivity|].
cbn [hd List.map np.first_true]. now intros ->.
Qed.

Lemma edge_at_start (x y : list float) (t : float) :
length x = length y ->
PrimFloat.ltb t (hd np.nan y) = true ->
slice.edge x y t true
= slice.interpolate (last x np.nan) (last y np.nan) (hd np.nan x) (hd np.nan y) t.
Proof.
intros Hl H. unfold slice.edge. rewrite crossing_at_start by assumption.
cbn [slice.before]. unfold slice.at_.
rewrite <- Hl at 1. rewrite !nth_last.
destruct x, y; reflexivity.
Qed.

Lemma getitem_minus_one {A : Type} (l : list A) (d : A) :
l <> [] -> Py.getitem l (0 - 1) = Ok (last l d).
Proof.
intros Hl. change (0 - 1) with (Z.of_nat 0 - 1).
rewrite (EdgeFacts.getitem_before l 0 d).
- cbn [slice.before]. now rewrite nth_last.
- destruct l; [congruence|simpl; lia].
Qed.

(** C10, as the code has it. In [find_rising_edge] with [interp=True], when
  the crossing is at index 0 of the swept axis the sample before it is read
  at index -1, which is the last sample of the slice: nothing is raised, and
  the value returned is the interpolation between the last and the first
  sample, wherever that falls. *)
Theorem interpolation_wraps_around_at_index_zero (threshold : option float) :
(forall x y, y <> [] -> length x = length y ->
   PrimFloat.ltb (slice.threshold_of y threshold) (hd np.nan y) = true ->
   np.argmax_bool (List.map (fun v => PrimFloat.ltb (slice.threshold_of y threshold) v) y)
   = Ok 0
   /\ Py.getitem x (0 - 1) = Ok (last x np.nan)
   /\ Py.getitem y (0 - 1) = Ok (last y np.nan)
   /\ dvdi.find_rising_edge (A1 x) (A1 y) threshold true
      = Ok (A0 (slice.interpolate (last x np.nan) (last y np.nan)
                  (hd np.nan x) (hd np.nan y) (slice.threshold_of y threshold))))
/\ (forall rows : list (list float * list float),
      Forall (fun p => snd p <> [] /\ length (fst p) = length (snd p)) rows ->
      exists l,
        dvdi.find_rising_edge (A2 (List.map fst rows)) (A2 (List.map snd rows))
          threshold true = Ok (A1 l)
        /\ forall k p, nth_error rows k = Some p ->
             PrimFloat.ltb (slice.threshold_of (snd p) threshold)
               (hd np.nan (snd p)) = true ->
             nth_error l k
             = Some (slice.interpolate (last (fst p) np.nan) (last (snd p) np.nan)
                       (hd np.nan (fst p)) (hd np.nan (snd p))
                       (slice.threshold_of (snd p) threshold))).
Proof.
split.
- intros x y Hy Hl H. repeat split.
  + rewrite EdgeFacts.argmax_bool_crossing by assumption.
    now rewrite crossing_at_start.
  + apply getitem_minus_one. intros ->. destruct y; [congruence|discriminate].
  + now apply getitem_minus_one.
  + rewrite EdgeFacts.find_rising_edge_1d by assumption.
    now rewrite edge_at_start.
- intros rows Hrows. eexists. split.
  + now apply (EdgeFacts.find_rising_edge_2d fst snd rows threshold true).
  + intros k p Hk H. rewrite nth_error_map, Hk. cbn [option_map].
    pose proof (proj1 (Forall_forall _ _) Hrows p (nth_error_In _ _ Hk))
      as [Hy Hl].
    now rewrite edge_at_start.
Qed.

Lemma interpolation_wraps_witness :
Py.getitem example.high_bias (0 - 1) = Ok 2%float
/\ dvdi.find_rising_edge (A1 example.high_bias) (A1 example.high)
     (Some 2.5%float) true = Ok (A0 (-2.5)%float)
/\ exists l,
     dvdi.find_rising_edge (A2 [example.high_bias]) (A2 [example.high])
       (Some 2.5%float) true = Ok (A1 l)
     /\ nth_error l 0 = Some (-2.5)%float.
Proof.
destruct (interpolation_wraps_around_at_index_zero (Some 2.5%float)) as [H1 H2].
destruct (H1 example.high_bias example.high) as (_ & Hx & _ & Hr);
  [discriminate|reflexivity|reflexivity|].
split; [exact Hx|]. split; [rewrite Hr; vm_compute; reflexivity|].
destruct (H2 [(example.high_bias, example.high)]) as (l & Hl & Hk).
- repeat constructor. discriminate.
- exists l. split; [exact Hl|].
  rewrite (Hk O (example.high_bias, example.high)); [|reflexivity|reflexivity].
  vm_compute. reflexivity.
Defined.

(** C10 as stated fails in its last clause. On x = [0,1,2], y = [5,6,1] and
  threshold 2.5 the crossing is at index 0, the sample before it is the last
  one, and the value returned, 1.25, lies between the adjacent samples
  x[1] = 1 and x[2] = 2. *)
Lemma wrapped_value_falls_between_adjacent_samples :
let x := [0%float; 1%float; 2%float] in
let y := [5%float; 6%float; 1%float] in
np.argmax_bool (List.map (fun v => PrimFloat.ltb 2.5%float v) y) = Ok 0
/\ Py.getitem x (0 - 1) = Ok 2%float
/\ Py.getitem y (0 - 1) = Ok 1%float
/\ dvdi.find_rising_edge (A1 x) (A1 y) (Some 2.5%float) true = Ok (A0 1.25%float)
/\ PrimFloat.ltb (nth 1 x np.nan) 1.25%float = true
/\ PrimFloat.ltb 1.25%float (nth 2 x np.nan) = true.
Proof. cbv zeta. repeat split; vm_compute; reflexivity. Qed.

Lemma mirrored_palindrome (s : fraunhofer.side) (l : list float) (k : nat) :
(k < length (pattern.mirrored (fun v => v) s l))%nat ->
nth k (pattern.mirrored (fun v => v) s l) np.nan
= nth (length (pattern.mirrored (fun v => v) s l) - 1 - k)
    (pattern.mirrored (fun v => v) s l) np.nan.
Proof.
intros Hk.
destruct (Nat.eq_dec (2 * k + 1) (length (pattern.mirrored (fun v => v) s l)))
  as [E|E].
- f_equal. lia.
- now apply (MirrorFacts.mirrored_symmetric (fun v => v)).
Qed.

(** C7, as the code has it. In the output (field', ic') of
  [symmetrize_fraunhofer], whose length is odd, ic'[i] and ic'[len-1-i] are
  the same sample for every i, and field'[i] is the negation of
  field'[len-1-i] for every i but the middle one, so that [==] holds there
  unless the sample is NaN. At the middle index field'[i] == -field'[i]
  holds exactly when that sample, the kept field value closest to zero, is
  zero. *)
Theorem symmetrized_pattern_is_mirrored (field ic f' i' : list float) :
fraunhofer.symmetrize_fraunhofer field ic = Ok (f', i') ->
(exists m, length f' = (2 * m + 1)%nat)
/\ (length ic = length field -> length i' = length f')
/\ (forall k, (k < length i')%nat ->
      let a := nth k i' np.nan in
      let b := nth (length i' - 1 - k) i' np.nan in
      a = b /\ (PrimFloat.is_nan a = false -> PrimFloat.eqb a b = true))
/\ (forall k, (k < length f')%nat -> (2 * k + 1 <> length f')%nat ->
      let a := nth k f' np.nan in
      let b := nth (length f' - 1 - k) f' np.nan in
      a = (- b)%float
      /\ (PrimFloat.is_nan a = false -> PrimFloat.eqb a (- b)%float = true))
/\ (forall k, (2 * k + 1 = length f')%nat ->
      let a := nth k f' np.nan in
      let b := nth (length f' - 1 - k) f' np.nan in
      b = a /\ PrimFloat.eqb a (- b)%float = PrimFloat.eqb a 0%float).
Proof.
unfold fraunhofer.symmetrize_fraunhofer.
destruct (fraunhofer.keep_side field ic) as [[[s f] i]|e] eqn:Ek; [|discriminate].
cbn [bind result_Monad ret]. rewrite MirrorFacts.mirror_mirrored.
intros H. injection H as <- <-.
destruct (MirrorFacts.keep_side_shape field ic s f i Ek) as [Hf Hlen].
pose proof (MirrorFacts.mirrored_length PrimFloat.opp
              FloatFacts.opp_involutive s f Hf) as Lf.
split; [now exists (length f - 1)%nat|].
split.
{ intros Hl. specialize (Hlen Hl). rewrite Lf.
  destruct i as [|i0 i]; [destruct f; [congruence|discriminate]|].
  rewrite (MirrorFacts.mirrored_length (fun v => v)) by (try discriminate; auto).
  now rewrite Hlen. }
split; [|split].
- intros k Hk. cbv zeta.
  pose proof (mirrored_palindrome s i k Hk) as E.
  split; [exact E|]. intros Hn. rewrite <- E. now apply FloatFacts.eqb_refl.
- intros k Hk Hmid. cbv zeta.
  pose proof (MirrorFacts.mirrored_symmetric PrimFloat.opp
                FloatFacts.opp_involutive s f k Hk Hmid) as E.
  split; [exact E|]. intros Hn. rewrite <- E. now apply FloatFacts.eqb_refl.
- intros k Hmid. cbv zeta.
  replace (length (pattern.mirrored PrimFloat.opp s f) - 1 - k)%nat with k by lia.
  split; [reflexivity|]. apply FloatFacts.eqb_opp_self.
Qed.

Lemma symmetrized_pattern_witness :
(exists m, 7%nat = (2 * m + 1)%nat)
/\ nth 1 [(-3)%float; (-2)%float; (-1)%float; 0%float; 1%float; 2%float; 3%float]
     np.nan
   = (- nth 5 [(-3)%float; (-2)%float; (-1)%float; 0%float; 1%float; 2%float;
               3%float] np.nan)%float.
Proof.
destruct (symmetrized_pattern_is_mirrored example.field example.ic
            [(-3)%float; (-2)%float; (-1)%float; 0%float; 1%float; 2%float; 3%float]
            [1%float; 2%float; 3%float; 4%float; 3%float; 2%float; 1%float])
  as (Hodd & _ & _ & Hf & _).
- vm_compute. reflexivity.
- split; [exact Hodd|].
  apply (Hf 1%nat); cbn [length]; lia.
Defined.

(** C7 as stated fails when the field sweep misses zero: field = [0.5, 1.5]
  gives field' = [-1.5, 0.5, 1.5], whose middle sample 0.5 is not its own
  negation. *)
Lemma symmetrized_field_off_zero :
fraunhofer.symmetrize_fraunhofer example.off_field example.off_ic
= Ok ([(-1.5)%float; 0.5%float; 1.5%float], [2%float; 1%float; 2%float])
/\ PrimFloat.eqb (nth 1 [(-1.5)%float; 0.5%float; 1.5%float] np.nan)
     (- nth (3 - 1 - 1) [(-1.5)%float; 0.5%float; 1.5%float] np.nan)%float
   = false.
Proof. split; vm_compute; reflexivity. Qed.

(** C8, as the code has it. On field = [-3,-2,-1,0,1,2] the negative side is
  kept: it is [-3,-2,-1,0], four samples with the zero, and the arrays
  returned have length 2 * 4 - 1 = 7. *)
Theorem example_keeps_negative_side (ic : list float) :
length ic = 6%nat ->
fraunhofer.keep_side example.field ic
= Ok (fraunhofer.negative, [(-3)%float; (-2)%float; (-1)%float; 0%float],
      firstn 4 ic)
/\ exists f' i',
     fraunhofer.symmetrize_fraunhofer example.field ic = Ok (f', i')
     /\ f' = [(-3)%float; (-2)%float; (-1)%float; 0%float; 1%float; 2%float;
              3%float]
     /\ length f' = (2 * 4 - 1)%nat /\ length i' = (2 * 4 - 1)%nat.
Proof.
intros H.
destruct ic as [|c0 [|c1 [|c2 [|c3 [|c4 [|c5 [|c6 ic]]]]]]]; try discriminate H.
split; [vm_compute; reflexivity|].
eexists. eexists. split; [vm_compute; reflexivity|].
repeat split.
Qed.

Lemma example_keeps_negative_side_witness :
fraunhofer.keep_side example.field example.ic
= Ok (fraunhofer.negative, [(-3)%float; (-2)%float; (-1)%float; 0%float],
      [1%float; 2%float; 3%float; 4%float]).
Proof.
apply (example_keeps_negative_side example.ic). reflexivity.
Defined.

(** C8 as stated fails: the arrays returned for this field have length 7,
  not 9. *)
Lemma example_length_is_not_nine :
fraunhofer.symmetrize_fraunhofer example.field example.ic
= Ok ([(-3)%float; (-2)%float; (-1)%float; 0%float; 1%float; 2%float; 3%float],
      [1%float; 2%float; 3%float; 4%float; 3%float; 2%float; 1%float])
/\ length [(-3)%float; (-2)%float; (-1)%float; 0%float; 1%float; 2%float;
           3%float] <> (2 * 5 - 1)%nat.
Proof. split; [vm_compute; reflexivity|discriminate]. Qed.

Lemma slice_from_start {A : Type} (l : list A) (stop : Z) :
0 <= stop -> Py.slice l (Some 0) (Some stop) = firstn (Z.to_nat stop) l.
Proof.
intros H. unfold Py.slice, Py.adjust. change (0 <? 0) with false. cbv iota.
destruct (Z.ltb_spec stop 0); [lia|].
replace (Z.max 0 (Z.min (Z.of_nat (length l)) 0)) with 0 by lia.
change (Z.to_nat 0) with O. cbn [skipn]. rewrite Z.sub_0_r.
destruct (Z.le_ge_cases stop (Z.of_nat (length l))).
- f_equal. lia.
- rewrite !firstn_all2 by lia. reflexivity.
Qed.

Section CenterWindow.

Variable ModelResult : Type.
Variable peak_widths : list float -> list Z -> float -> result (list float).
Variable gaussian_fit : list float -> list float -> result ModelResult.
Variable best_center : ModelResult -> float.
Variable set_xdata : ModelResult -> list float -> ModelResult.

Lemma find_max_loc_bound (field ic : list float)
  (field_lim : option (float * float)) (max_loc : Z) :
  fraunhofer.find_max_loc field ic field_lim = Ok max_loc -> 0 <= max_loc.
Proof.
  unfold fraunhofer.find_max_loc. destruct field_lim as [[lo hi]|].
  - destruct (np.zip1 _ _ _) as [w|e]; [|discriminate].
    cbn [bind result_Monad]. intros H.
    now apply MirrorFacts.arg_ext_bound in H.
  - intros H. now apply MirrorFacts.arg_ext_bound in H.
Qed.

(** C9. In [find_fraunhofer_center], when the window around the peak would
    start before the array ([max_loc - width_index < 0]) its start is
    clamped to index 0; cutting the window raises nothing, and the subset
    handed to the fit is [field[0 : max_loc + width_index + 1]]. *)
Theorem peak_window_is_clamped_at_start (field ic : list float)
  (field_lim : option (float * float)) (return_fit : bool)
  (max_loc width_index : Z) (width : list float) (w0 : float) :
  fraunhofer.find_max_loc field ic field_lim = Ok max_loc ->
  peak_widths ic [max_loc] 0.5%float = Ok width ->
  Py.getitem width 0 = Ok w0 ->
  fraunhofer.py_round (w0 * fraunhofer.window_scale)%float = Ok width_index ->
  max_loc - width_index < 0 ->
  let stop := max_loc + width_index + 1 in
  let subset_field := Py.slice field (Some 0) (Some stop) in
  let subset_ic := Py.slice ic (Some 0) (Some stop) in
  Z.max 0 (max_loc - width_index) = 0
  /\ subset_field = firstn (Z.to_nat stop) field
  /\ subset_ic = firstn (Z.to_nat stop) ic
  /\ fraunhofer.find_fraunhofer_center ModelResult peak_widths gaussian_fit
       best_center set_xdata field ic field_lim return_fit
     = (out <- gaussian_fit subset_ic subset_field ;;
        ret (if return_fit then inl (set_xdata out subset_field)
             else inr (best_center (set_xdata out subset_field))))
  /\ (forall out, gaussian_fit subset_ic subset_field = Ok out ->
        exists r,
          fraunhofer.find_fraunhofer_center ModelResult peak_widths gaussian_fit
            best_center set_xdata field ic field_lim return_fit = Ok r).
Proof.
  intros Hmax Hw Hw0 Hround Hneg stop subset_field subset_ic.
  pose proof (find_max_loc_bound field ic field_lim max_loc Hmax) as Hpos.
  assert (Hclamp : Z.max 0 (max_loc - width_index) = 0) by lia.
  assert (Hcall : fraunhofer.find_fraunhofer_center ModelResult peak_widths
                    gaussian_fit best_center set_xdata field ic field_lim return_fit
                  = (out <- gaussian_fit subset_ic subset_field ;;
                     ret (if return_fit then inl (set_xdata out subset_field)
                          else inr (best_center (set_xdata out subset_field))))).
  { unfold fraunhofer.find_fraunhofer_center.
    rewrite Hmax. cbn [bind result_Monad]. rewrite Hw. cbn [bind result_Monad].
    rewrite Hw0. cbn [bind result_Monad]. rewrite Hround. cbn [bind result_Monad].
    rewrite Hclamp. reflexivity. }
  split; [exact Hclamp|].
  split; [apply slice_from_start; subst stop; lia|].
  split; [apply slice_from_start; subst stop; lia|].
  split; [exact Hcall|].
  intros out Hout. rewrite Hcall, Hout. cbn [bind result_Monad ret]. eauto.
Qed.

End CenterWindow.

Lemma peak_window_witness :
fraunhofer.find_fraunhofer_center float
  (fun _ _ _ => Ok [6%float]) (fun _ x => Ok (hd 0%float x)) (fun out => out)
  (fun out _ => out) example.field example.ic None false
= Ok (inr (-3)%float)
/\ Py.slice example.field (Some 0) (Some (3 + 4 + 1))
   = firstn (Z.to_nat (3 + 4 + 1)) example.field.
Proof.
destruct (peak_window_is_clamped_at_start float
            (fun _ _ _ => Ok [6%float]) (fun _ x => Ok (hd 0%float x))
            (fun out => out) (fun out _ => out)
            example.field example.ic None false 3 4 [6%float] 6%float)
  as (_ & Hf & _ & Hcall & _).
- vm_compute. reflexivity.
- reflexivity.
- reflexivity.
- vm_compute. reflexivity.
- lia.
- split; [rewrite Hcall; vm_compute; reflexivity|exact Hf].
Defined.

(** * Further properties of the code *)

(** ** shabanipy/dvdi.py *)

Module MoreEdgeFacts.

Lemma ltb_nan_r (x : float) : PrimFloat.ltb x np.nan = false.
Proof.
  unfold np.nan. rewrite ltb_spec. change (Prim2SF PrimFloat.nan) with S754_nan.
  destruct (Prim2SF x); reflexivity.
Qed.

Lemma sub_nan_r (x : float) : (x - np.nan)%float = np.nan.
Proof.
  unfold np.nan. apply Prim2SF_inj. rewrite sub_spec.
  change (Prim2SF PrimFloat.nan) with S754_nan.
  destruct (Prim2SF x); reflexivity.
Qed.

Lemma div_nan_l (x : float) : (np.nan / x)%float = np.nan.
Proof.
  unfold np.nan. apply Prim2SF_inj. rewrite div_spec.
  change (Prim2SF PrimFloat.nan) with S754_nan. reflexivity.
Qed.

Lemma add_nan_r (x : float) : (x + np.nan)%float = np.nan.
Proof.
  unfold np.nan. apply Prim2SF_inj. rewrite add_spec.
  change (Prim2SF PrimFloat.nan) with S754_nan.
  destruct (Prim2SF x); reflexivity.
Qed.

Lemma first_true_at (l : list bool) (k : nat) :
  nth k l false = true ->
  (forall j, (j < k)%nat -> nth j l false = false) ->
  np.first_true l = Some k.
Proof.
  revert k. induction l as [|c l IH]; intros k Hk Hbefore.
  - destruct k; discriminate Hk.
  - destruct k as [|k].
    + cbn in Hk. subst c. reflexivity.
    + assert (Hc : c = false) by (apply (Hbefore O); lia).
      subst c. cbn [np.first_true]. rewrite (IH k).
      * reflexivity.
      * exact Hk.
      * intros j Hj. apply (Hbefore (S j)). lia.
Qed.

Lemma crossing_first (y : list float) (t : float) (k : nat) :
  (k < length y)%nat ->
  PrimFloat.ltb t (nth k y np.nan) = true ->
  (forall j, (j < k)%nat -> PrimFloat.ltb t (nth j y np.nan) = false) ->
  slice.crossing y t = k.
Proof.
  intros Hk Hat Hbefore. unfold slice.crossing.
  assert (Hnth : forall j, nth j (List.map (fun v => PrimFloat.ltb t v) y) false
                           = PrimFloat.ltb t (nth j y np.nan)).
  { intros j. rewrite <- (ltb_nan_r t). apply map_nth. }
  rewrite (first_true_at _ k); [reflexivity| |].
  - now rewrite Hnth.
  - intros j Hj. rewrite Hnth. now apply Hbefore.
Qed.

Lemma mask_nth (keep : float -> bool) (b v : list float) (j : nat) :
  (j < length b)%nat -> length b = length v ->
  nth j (slice.mask keep b v) np.nan
  = if keep (nth j b np.nan) then nth j v np.nan else np.nan.
Proof.
  revert v j. induction b as [|b0 b IH]; intros [|v0 v] j Hj Hl;
    cbn [length] in *; try lia.
  destruct j as [|j]; [reflexivity|].
  cbn [slice.mask combine List.map nth]. apply IH; lia.
Qed.

Lemma shifted_nth (offset : float) (d : list float) (j : nat) :
  (j < length d)%nat ->
  nth j (slice.shifted offset d) np.nan = (nth j d np.nan - offset)%float.
Proof.
  intros Hj. unfold slice.shifted.
  rewrite (nth_indep _ np.nan (np.nan - offset)%float) by now rewrite length_map.
  apply (map_nth (fun v => (v - offset)%float)).
Qed.

Lemma abs_nth (d : list float) (j : nat) :
  (j < length d)%nat ->
  nth j (List.map PrimFloat.abs d) np.nan = PrimFloat.abs (nth j d np.nan).
Proof.
  intros Hj.
  rewrite (nth_indep _ np.nan (PrimFloat.abs np.nan)) by now rewrite length_map.
  apply map_nth.
Qed.

End MoreEdgeFacts.

(** X1. [find_rising_edge] on a 1-d pair returns the [x] of the first sample
    whose [y] is above the threshold; with [interp=True] and that sample not
    the first one, it returns the linear interpolation between the sample
    before it and that sample. *)
Theorem rising_edge_is_first_crossing (x y : list float)
  (threshold : option float) (k : nat) :
  length x = length y -> (k < length y)%nat ->
  PrimFloat.ltb (slice.threshold_of y threshold) (nth k y np.nan) = true ->
  (forall j, (j < k)%nat ->
     PrimFloat.ltb (slice.threshold_of y threshold) (nth j y np.nan) = false) ->
  dvdi.find_rising_edge (A1 x) (A1 y) threshold false = Ok (A0 (nth k x np.nan))
  /\ (k <> O ->
      dvdi.find_rising_edge (A1 x) (A1 y) threshold true
      = Ok (A0 (slice.interpolate (nth (k - 1) x np.nan) (nth (k - 1) y np.nan)
                  (nth k x np.nan) (nth k y np.nan)
                  (slice.threshold_of y threshold)))).
Proof.
  intros Hl Hk Hat Hbefore.
  assert (Hy : y <> []) by (intros ->; cbn in Hk; lia).
  pose proof (MoreEdgeFacts.crossing_first y _ k Hk Hat Hbefore) as Hc.
  split.
  - rewrite EdgeFacts.find_rising_edge_1d by assumption.
    unfold slice.edge. now rewrite Hc.
  - intros Hk0. rewrite EdgeFacts.find_rising_edge_1d by assumption.
    unfold slice.edge. rewrite Hc. destruct k as [|k]; [congruence|].
    cbn [slice.before]. now replace (S k - 1)%nat with k by lia.
Qed.

Lemma rising_edge_witness :
  dvdi.find_rising_edge (A1 example.ramp_bias) (A1 example.ramp_dvdi)
    (Some 1.5%float) false = Ok (A0 2%float)
  /\ dvdi.find_rising_edge (A1 example.ramp_bias) (A1 example.ramp_dvdi)
       (Some 1.5%float) true = Ok (A0 1.5%float).
Proof.
  destruct (rising_edge_is_first_crossing example.ramp_bias example.ramp_dvdi
              (Some 1.5%float) 2) as [H1 H2].
  - reflexivity.
  - cbn. lia.
  - reflexivity.
  - intros [|[|j]] Hj; try reflexivity; lia.
  - split; [exact H1|]. rewrite H2 by discriminate. vm_compute. reflexivity.
Defined.

(** X2. With an explicit threshold and no interpolation, the positive branch
    returns [nan_to_num] of the bias of the first sample with [bias >= 0] and
    [dvdi - offset] above the threshold; the negative branch returns that of
    the last sample with [bias <= 0] and [abs(dvdi - offset)] above the
    threshold. *)
Theorem switching_current_is_bias_at_edge (b d : list float) (t offset : float)
  (k : nat) :
  length b = length d -> (k < length b)%nat ->
  (PrimFloat.leb 0 (nth k b np.nan) = true ->
   PrimFloat.ltb t (nth k d np.nan - offset)%float = true ->
   (forall j, (j < k)%nat ->
      PrimFloat.leb 0 (nth j b np.nan) = false
      \/ PrimFloat.ltb t (nth j d np.nan - offset)%float = false) ->
   fst (dvdi.extract_switching_current "positive" (Some t) false offset
          (slice.store_1d b d))
   = Ok (A0 (np.nan_to_num1 (nth k b np.nan))))
  /\ (PrimFloat.leb (nth k b np.nan) 0 = true ->
      PrimFloat.ltb t (PrimFloat.abs (nth k d np.nan - offset)%float) = true ->
      (forall j, (k < j < length b)%nat ->
         PrimFloat.leb (nth j b np.nan) 0 = false
         \/ PrimFloat.ltb t (PrimFloat.abs (nth j d np.nan - offset)%float) = false) ->
      fst (dvdi.extract_switching_current "negative" (Some t) false offset
             (slice.store_1d b d))
      = Ok (A0 (np.nan_to_num1 (nth k b np.nan)))).
Proof.
  intros Hl Hk.
  assert (Hb : b <> []) by (intros ->; cbn in Hk; lia).
  assert (Hl' : length b = length (slice.shifted offset d))
    by (unfold slice.shifted; now rewrite length_map).
  split.
  - intros Hkeep Hat Hbefore.
    rewrite (extract_branch_1d slice.pos) by assumption.
    unfold slice.switching, slice.edge, slice.threshold_of. cbn [slice.scan].
    rewrite (MoreEdgeFacts.crossing_first _ t k); [reflexivity| | |].
    + rewrite ExtractFacts.signal_length by assumption. exact Hk.
    + cbn [slice.signal]. rewrite MoreEdgeFacts.mask_nth by assumption.
      rewrite Hkeep, MoreEdgeFacts.shifted_nth by lia. exact Hat.
    + intros j Hj. cbn [slice.signal].
      rewrite MoreEdgeFacts.mask_nth by (try lia; assumption).
      rewrite MoreEdgeFacts.shifted_nth by lia.
      destruct (PrimFloat.leb 0 (nth j b np.nan)) eqn:E;
        [|apply MoreEdgeFacts.ltb_nan_r].
      destruct (Hbefore j Hj) as [H|H]; [congruence|exact H].
  - intros Hkeep Hat Hafter.
    rewrite (extract_branch_1d slice.neg) by assumption.
    unfold slice.switching, slice.edge, slice.threshold_of. cbn [slice.scan].
    set (M := slice.mask (fun v => PrimFloat.leb v 0) b
                (List.map PrimFloat.abs (slice.shifted offset d))).
    assert (HM : length M = length b)
      by (apply ExtractFacts.mask_length; now rewrite length_map).
    assert (Hnth : forall j, (j < length b)%nat ->
               nth j M np.nan
               = if PrimFloat.leb (nth j b np.nan) 0
                 then PrimFloat.abs (nth j d np.nan - offset)%float else np.nan).
    { intros j Hj. subst M.
      rewrite MoreEdgeFacts.mask_nth by (try rewrite length_map; assumption).
      rewrite MoreEdgeFacts.abs_nth by lia.
      now rewrite MoreEdgeFacts.shifted_nth by lia. }
    change (slice.signal slice.neg b (slice.shifted offset d)) with (rev M).
    rewrite (MoreEdgeFacts.crossing_first _ t (length b - 1 - k)).
    + unfold slice.at_. rewrite rev_nth by lia.
      now replace (length b - S (length b - 1 - k))%nat with k by lia.
    + rewrite length_rev. lia.
    + rewrite rev_nth by lia.
      replace (length M - S (length b - 1 - k))%nat with k by lia.
      rewrite Hnth by assumption. now rewrite Hkeep.
    + intros j Hj. rewrite rev_nth by lia.
      rewrite Hnth by lia.
      destruct (PrimFloat.leb (nth (length M - S j) b np.nan) 0) eqn:E;
        [|apply MoreEdgeFacts.ltb_nan_r].
      destruct (Hafter (length M - S j)%nat) as [H|H]; [lia|congruence|exact H].
Qed.

Lemma switching_current_witness :
  fst (dvdi.extract_switching_current "positive" (Some 2.5%float) false 0%float
         (slice.store_1d example.bias example.dvdi)) = Ok (A0 2%float)
  /\ fst (dvdi.extract_switching_current "negative" (Some 2.5%float) false 0%float
            (slice.store_1d example.bias example.dvdi)) = Ok (A0 (-1)%float).
Proof.
  split.
  - destruct (switching_current_is_bias_at_edge example.bias example.dvdi
                2.5%float 0%float 4) as [H _]; [reflexivity|cbn; lia|].
    rewrite H; try reflexivity.
    intros [|[|[|[|j]]]] Hj; try lia; vm_compute; auto.
  - destruct (switching_current_is_bias_at_edge example.bias example.dvdi
                2.5%float 0%float 1) as [_ H]; [reflexivity|cbn; lia|].
    rewrite H; try reflexivity.
    intros [|[|[|[|[|[|j]]]]]] Hj; cbn in Hj; try lia; vm_compute; auto.
Defined.

Lemma np_map_map {A B C : Type} (f : A -> B) (g : B -> C) (a : ndarray A) :
  np.map g (np.map f a) = np.map (fun v => g (f v)) a.
Proof.
  destruct a as [v|l|ll]; cbn [np.map]; f_equal.
  - apply map_map.
  - rewrite map_map. apply map_ext. intros l. apply map_map.
Qed.

(** X3. A call never changes the caller's [bias]. With a valid [side] it
    leaves [dvdi - offset] in the caller's [dvdi], once, whatever the side
    and even when the numeric library raises afterwards; with an invalid
    [side] or with offset 0 the store is as it was. A second call subtracts
    its offset from the values the first one left. *)
Theorem extract_leaves_offset_in_dvdi (side : string) (threshold : option float)
  (interp : bool) (offset : float) (s : dvdi.store) :
  let s' := snd (dvdi.extract_switching_current side threshold interp offset s) in
  dvdi.st_bias s' = dvdi.st_bias s
  /\ dvdi.st_dvdi s'
     = (if dvdi.side_ok side
        then np.map (fun v => v - offset)%float (dvdi.st_dvdi s)
        else dvdi.st_dvdi s)
  /\ snd (dvdi.extract_switching_current side threshold interp 0%float s) = s
  /\ forall side2 threshold2 interp2 offset2,
       dvdi.side_ok side = true -> dvdi.side_ok side2 = true ->
       dvdi.st_dvdi
         (snd (dvdi.extract_switching_current side2 threshold2 interp2 offset2 s'))
       = np.map (fun v => v - offset - offset2)%float (dvdi.st_dvdi s).
Proof.
  cbv zeta. rewrite !extract_final_store.
  split; [|split; [|split]].
  - destruct (dvdi.side_ok side); reflexivity.
  - destruct (dvdi.side_ok side); reflexivity.
  - destruct (dvdi.side_ok side); [apply zero_offset_keeps_store|reflexivity].
  - intros side2 threshold2 interp2 offset2 H1 H2.
    rewrite extract_final_store, H1, H2. cbn [run.after_offset dvdi.st_dvdi].
    apply np_map_map.
Qed.

Lemma extract_leaves_offset_witness :
  dvdi.st_dvdi
    (snd (dvdi.extract_switching_current "both" None true 1%float
            (snd (dvdi.extract_switching_current "positive" None false 1%float
                    (slice.store_1d example.ramp_bias example.ramp_dvdi)))))
  = A1 [(-2)%float; (-2)%float; 1%float; 1%float].
Proof.
  destruct (extract_leaves_offset_in_dvdi "positive" None false 1%float
              (slice.store_1d example.ramp_bias example.ramp_dvdi))
    as (_ & _ & _ & H).
  cbv zeta in H. rewrite (H "both"%string None true 1%float); reflexivity.
Defined.

(** X4. On 1-d arrays with an empty swept axis a call with a valid [side]
    raises the ValueError of the numeric library: that of the reduction when
    the threshold is to be inferred, that of [argmax] when it is given. The
    empty arrays are left as they are. *)
Theorem extract_on_empty_sweep_raises (side : string) (threshold : option float)
  (interp : bool) (offset : float) :
  dvdi.side_ok side = true ->
  dvdi.extract_switching_current side threshold interp offset (slice.store_1d [] [])
  = (Raise (ValueError
              match threshold with
              | None =>
                  "zero-size array to reduction operation fmin which has no identity"
              | Some _ => "attempt to get argmax of an empty sequence"
              end),
     slice.store_1d [] []).
Proof.
  intros H.
  destruct (ExtractFacts.side_ok_cases side H) as [-> | [-> | ->]];
    destruct threshold; reflexivity.
Qed.

Lemma extract_on_empty_sweep_witness :
  fst (dvdi.extract_switching_current "both" None false 0%float
         (slice.store_1d [] []))
  = Raise (ValueError
             "zero-size array to reduction operation fmin which has no identity").
Proof.
  rewrite (extract_on_empty_sweep_raises "both" None false 0%float); reflexivity.
Defined.

Lemma interpolate_nan (x0 x1 y1 t : float) :
  slice.interpolate x0 np.nan x1 y1 t = np.nan.
Proof.
  unfold slice.interpolate.
  now rewrite !MoreEdgeFacts.sub_nan_r, MoreEdgeFacts.div_nan_l,
    MoreEdgeFacts.add_nan_r.
Qed.

(** X5. On the positive branch with [interp=True], when the sample just
    before the first sample above the threshold has a bias that is not
    [>= 0], that sample is masked by NaN, the interpolation is NaN and the
    switching current returned is exactly 0. *)
Theorem interpolation_from_masked_sample_is_zero (b d : list float)
  (t offset : float) (k : nat) :
  length b = length d -> (k < length b)%nat -> k <> O ->
  PrimFloat.leb 0 (nth k b np.nan) = true ->
  PrimFloat.ltb t (nth k d np.nan - offset)%float = true ->
  (forall j, (j < k)%nat ->
     PrimFloat.leb 0 (nth j b np.nan) = false
     \/ PrimFloat.ltb t (nth j d np.nan - offset)%float = false) ->
  PrimFloat.leb 0 (nth (k - 1) b np.nan) = false ->
  fst (dvdi.extract_switching_current "positive" (Some t) true offset
         (slice.store_1d b d))
  = Ok (A0 0%float).
Proof.
  intros Hl Hk Hk0 Hkeep Hat Hbefore Hmasked.
  assert (Hb : b <> []) by (intros ->; cbn in Hk; lia).
  assert (Hl' : length b = length (slice.shifted offset d))
    by (unfold slice.shifted; now rewrite length_map).
  rewrite (extract_branch_1d slice.pos) by assumption.
  unfold slice.switching, slice.edge, slice.threshold_of. cbn [slice.scan].
  rewrite (MoreEdgeFacts.crossing_first _ t k).
  - destruct k as [|k]; [congruence|]. cbn [slice.before].
    replace (S k - 1)%nat with k in Hmasked by lia.
    unfold slice.at_ at 2. cbn [slice.signal].
    rewrite (MoreEdgeFacts.mask_nth _ b _ k) by (try lia; assumption).
    rewrite Hmasked, interpolate_nan. reflexivity.
  - rewrite ExtractFacts.signal_length by assumption. exact Hk.
  - cbn [slice.signal]. rewrite MoreEdgeFacts.mask_nth by assumption.
    rewrite Hkeep, MoreEdgeFacts.shifted_nth by lia. exact Hat.
  - intros j Hj. cbn [slice.signal].
    rewrite MoreEdgeFacts.mask_nth by (try lia; assumption).
    rewrite MoreEdgeFacts.shifted_nth by lia.
    destruct (PrimFloat.leb 0 (nth j b np.nan)) eqn:E;
      [|apply MoreEdgeFacts.ltb_nan_r].
    destruct (Hbefore j Hj) as [H|H]; [congruence|exact H].
Qed.

Lemma interpolation_from_masked_sample_witness :
  fst (dvdi.extract_switching_current "positive" (Some 2.5%float) true 0%float
         (slice.store_1d [(-1)%float; 0%float; 1%float]
            [0%float; 5%float; 5%float]))
  = Ok (A0 0%float).
Proof.
  apply (interpolation_from_masked_sample_is_zero _ _ _ _ 1).
  - reflexivity.
  - cbn. lia.
  - discriminate.
  - reflexivity.
  - reflexivity.
  - intros [|j] Hj; [left; reflexivity|lia].
  - reflexivity.
Defined.

(** X6. A 2-d input is handled slice by slice: on the positive or negative
    branch the k-th current returned is the one the same call returns on
    slice k alone, and with side "both" the two rows returned are those of
    the negative and of the positive branch slice by slice. *)
Theorem slices_are_extracted_independently (threshold : option float)
  (interp : bool) (offset : float) (rows : list (list float * list float)) :
  Forall slice.well_shaped rows ->
  (forall br, exists l,
       fst (dvdi.extract_switching_current (slice.side_of br) threshold interp
              offset (slice.store_2d rows)) = Ok (A1 l)
       /\ length l = length rows
       /\ forall k p, nth_error rows k = Some p ->
            exists v,
              nth_error l k = Some v
              /\ fst (dvdi.extract_switching_current (slice.side_of br) threshold
                        interp offset (slice.store_1d (fst p) (snd p)))
                 = Ok (A0 v))
  /\ exists ic_n ic_p,
       fst (dvdi.extract_switching_current "both" threshold interp offset
              (slice.store_2d rows)) = Ok (A2 [ic_n; ic_p])
       /\ forall k p, nth_error rows k = Some p ->
            exists n v,
              nth_error ic_n k = Some n /\ nth_error ic_p k = Some v
              /\ fst (dvdi.extract_switching_current "both" threshold interp
                        offset (slice.store_1d (fst p) (snd p)))
                 = Ok (A1 [n; v]).
Proof.
  intros Hrows. split.
  - intros br. eexists. split; [now apply extract_branch_2d|].
    split; [unfold slice.currents; apply length_map|].
    intros k p Hk. eexists. split.
    + unfold slice.currents. rewrite nth_error_map, Hk. reflexivity.
    + pose proof (proj1 (Forall_forall _ _) Hrows p (nth_error_In _ _ Hk))
        as [Hb Hl].
      now apply extract_branch_1d.
  - eexists. eexists. split.
    + now rewrite (ExtractFacts.extract_2d "both" threshold interp offset rows
                     eq_refl Hrows).
    + intros k p Hk. eexists. eexists.
      unfold slice.currents. rewrite !nth_error_map, Hk.
      split; [reflexivity|split; [reflexivity|]].
      pose proof (proj1 (Forall_forall _ _) Hrows p (nth_error_In _ _ Hk))
        as [Hb Hl].
      now rewrite (ExtractFacts.extract_1d "both" threshold interp offset _ _
                     eq_refl Hb Hl).
Qed.

Lemma slices_independent_witness :
  exists l,
    fst (dvdi.extract_switching_current "positive" (Some 2.5%float) false 0%float
           (slice.store_2d [(example.bias, example.dvdi);
                            (example.bias, example.flat)])) = Ok (A1 l)
    /\ length l = 2%nat.
Proof.
  destruct (slices_are_extracted_independently (Some 2.5%float) false 0%float
              [(example.bias, example.dvdi); (example.bias, example.flat)])
    as [H _].
  - repeat constructor; discriminate.
  - destruct (H slice.pos) as (l & Hl & Hlen & _). exists l. split; assumption.
Defined.

(** ** shabanipy/jj/fraunhofer/utils.py *)

Module MoreMirrorFacts.

Lemma getitem_ok {A : Type} (l : list A) (k : nat) (d : A) :
  (k < length l)%nat -> Py.getitem l (Z.of_nat k) = Ok (nth k l d).
Proof. apply EdgeFacts.getitem_nat. Qed.

Lemma getitem_0 {A : Type} (l : list A) (d : A) :
  (0 < length l)%nat -> Py.getitem l 0 = Ok (nth 0 l d).
Proof. exact (getitem_ok l 0 d). Qed.

Lemma getitem_1 {A : Type} (l : list A) (d : A) :
  (1 < length l)%nat -> Py.getitem l 1 = Ok (nth 1 l d).
Proof. exact (getitem_ok l 1 d). Qed.

Lemma getitem_short {A : Type} (l : list A) (k : nat) :
  (length l <= k)%nat ->
  Py.getitem l (Z.of_nat k) = Raise (IndexError "index out of bounds").
Proof.
  intros H. unfold Py.getitem. cbv zeta.
  destruct (Z.ltb_spec (Z.of_nat k) 0); [lia|].
  destruct (Z.ltb_spec (Z.of_nat k) 0); [lia|].
  destruct (Z.leb_spec (Z.of_nat (length l)) (Z.of_nat k)); [reflexivity|lia].
Qed.

Lemma argmin_total (l : list float) :
  l <> [] -> exists i, np.argmin l = Ok i.
Proof. destruct l; [congruence|]. intros _. eexists. reflexivity. Qed.

Lemma keep_side_total (field ic : list float) :
  (2 <= length field)%nat -> exists k, fraunhofer.keep_side field ic = Ok k.
Proof.
  intros H. unfold fraunhofer.keep_side.
  rewrite (getitem_0 field np.nan), (getitem_1 field np.nan) by lia.
  cbn [bind result_Monad].
  set (field' := if PrimFloat.ltb _ _ then Py.reversed field else field).
  assert (Hf : field' <> []).
  { subst field'. unfold Py.reversed.
    destruct (PrimFloat.ltb _ _); intros E; apply (f_equal (@length float)) in E;
      rewrite ?length_rev in E; cbn in E; lia. }
  destruct (argmin_total (List.map PrimFloat.abs field')) as [index Hi].
  { intros E. apply Hf. now apply map_eq_nil in E. }
  rewrite Hi. cbn [bind result_Monad ret].
  destruct (index =? 0); [eexists; reflexivity|].
  destruct (index =? _); [eexists; reflexivity|].
  destruct (_ <? _); eexists; reflexivity.
Qed.

Lemma keep_side_lengths (field ic : list float) (s : fraunhofer.side)
  (f i : list float) :
  fraunhofer.keep_side field ic = Ok (s, f, i) ->
  (2 <= length f <= length field)%nat
  /\ (length field <= 2 * length f - 1)%nat.
Proof.
  unfold fraunhofer.keep_side.
  destruct (Py.getitem field 0) as [f0|e] eqn:E0; [|discriminate].
  destruct (Py.getitem field 1) as [f1|e] eqn:E1; [|discriminate].
  cbn [bind result_Monad].
  assert (Hn : (2 <= length field)%nat).
  { destruct (Nat.lt_ge_cases (length field) 2) as [H|H]; [|exact H].
    change 1 with (Z.of_nat 1) in E1. rewrite getitem_short in E1 by lia.
    discriminate E1. }
  set (field' := if PrimFloat.ltb f1 f0 then Py.reversed field else field).
  set (ic' := if PrimFloat.ltb f1 f0 then Py.reversed ic else ic).
  assert (Hlen : length field' = length field).
  { subst field'. unfold Py.reversed.
    destruct (PrimFloat.ltb f1 f0); rewrite ?length_rev; reflexivity. }
  clearbody field' ic'.
  destruct (np.argmin _) as [index|e] eqn:Ei; [|discriminate].
  apply MirrorFacts.arg_ext_bound in Ei. rewrite length_map in Ei.
  cbn [bind result_Monad ret]. unfold fraunhofer.len.
  destruct (Z.eqb_spec index 0) as [Hz|Hz];
    [intros H; injection H as <- <- <-; lia|].
  destruct (Z.eqb_spec index (Z.of_nat (length field') - 1)) as [Hl|Hl];
    [intros H; injection H as <- <- <-; lia|].
  pose proof (MirrorFacts.slice_length_formula field' (Some (index + 1)) None) as L1.
  pose proof (MirrorFacts.slice_length_formula field' None (Some index)) as L2.
  pose proof (MirrorFacts.slice_length_formula field' None (Some (index + 1))) as L3.
  pose proof (MirrorFacts.slice_length_formula field' (Some index) None) as L4.
  cbv zeta in L1, L2, L3, L4. unfold Py.adjust in L1, L2, L3, L4.
  destruct (Z.ltb_spec (index + 1) 0); [lia|].
  destruct (Z.ltb_spec index 0); [lia|].
  destruct (Z.ltb_spec (Z.of_nat (length (Py.slice field' (Some (index + 1)) None)))
              (Z.of_nat (length (Py.slice field' None (Some index)))));
    intros H'; injection H' as <- <- <-; lia.
Qed.

End MoreMirrorFacts.

(** X7. [symmetrize_fraunhofer] raises an IndexError when the field has
    fewer than two samples, and returns for every field of two samples or
    more, whatever the current array holds. *)
Theorem symmetrize_raises_iff_short (field ic : list float) :
  ((length field < 2)%nat ->
   fraunhofer.symmetrize_fraunhofer field ic
   = Raise (IndexError "index out of bounds"))
  /\ ((2 <= length field)%nat ->
      exists f' i', fraunhofer.symmetrize_fraunhofer field ic = Ok (f', i')).
Proof.
  split.
  - intros H. unfold fraunhofer.symmetrize_fraunhofer, fraunhofer.keep_side.
    destruct field as [|a [|b field]]; [reflexivity|reflexivity|].
    cbn [length] in H. lia.
  - intros H. destruct (MoreMirrorFacts.keep_side_total field ic H) as [[[s f] i] Hk].
    unfold fraunhofer.symmetrize_fraunhofer. rewrite Hk.
    cbn [bind result_Monad ret]. destruct (fraunhofer.mirror s f i) as [f' i'].
    now exists f', i'.
Qed.

Lemma symmetrize_raises_witness :
  fraunhofer.symmetrize_fraunhofer [0%float] [1%float]
  = Raise (IndexError "index out of bounds")
  /\ exists f' i',
       fraunhofer.symmetrize_fraunhofer example.off_field [] = Ok (f', i').
Proof.
  split.
  - apply (symmetrize_raises_iff_short [0%float] [1%float]). cbn. lia.
  - apply (symmetrize_raises_iff_short example.off_field []). cbn. lia.
Defined.

(** X8. Symmetrising never shortens a pattern: the field returned has at
    least three samples, at least as many as the input and at most twice as
    many less one. *)
Theorem symmetrize_length_bounds (field ic f' i' : list float) :
  fraunhofer.symmetrize_fraunhofer field ic = Ok (f', i') ->
  (3 <= length f')%nat
  /\ (length field <= length f' <= 2 * length field - 1)%nat.
Proof.
  unfold fraunhofer.symmetrize_fraunhofer.
  destruct (fraunhofer.keep_side field ic) as [[[s f] i]|e] eqn:Ek; [|discriminate].
  cbn [bind result_Monad ret]. rewrite MirrorFacts.mirror_mirrored.
  intros H. injection H as <- <-.
  destruct (MirrorFacts.keep_side_shape field ic s f i Ek) as [Hf _].
  destruct (MoreMirrorFacts.keep_side_lengths field ic s f i Ek) as [H1 H2].
  rewrite (MirrorFacts.mirrored_length PrimFloat.opp FloatFacts.opp_involutive s f Hf).
  lia.
Qed.

Lemma symmetrize_length_witness :
  (3 <= 7)%nat /\ (length example.field <= 7 <= 2 * length example.field - 1)%nat.
Proof.
  apply (symmetrize_length_bounds example.field example.ic
           [(-3)%float; (-2)%float; (-1)%float; 0%float; 1%float; 2%float; 3%float]
           [1%float; 2%float; 3%float; 4%float; 3%float; 2%float; 1%float]).
  vm_compute. reflexivity.
Defined.

(** X9. The direction of the sweep does not matter: a field that starts
    descending, and whose reversal does not, gives the same result as the
    reversed field with the reversed current. *)
Theorem symmetrize_of_descending_sweep (field ic : list float) :
  (2 <= length field)%nat ->
  PrimFloat.ltb (nth 1 field np.nan) (nth 0 field np.nan) = true ->
  PrimFloat.ltb (nth (length field - 2) field np.nan)
    (nth (length field - 1) field np.nan) = false ->
  fraunhofer.symmetrize_fraunhofer field ic
  = fraunhofer.symmetrize_fraunhofer (rev field) (rev ic).
Proof.
  intros Hn Hdesc Hasc.
  unfold fraunhofer.symmetrize_fraunhofer, fraunhofer.keep_side.
  rewrite (MoreMirrorFacts.getitem_0 field np.nan),
    (MoreMirrorFacts.getitem_1 field np.nan) by lia.
  rewrite (MoreMirrorFacts.getitem_0 (rev field) np.nan),
    (MoreMirrorFacts.getitem_1 (rev field) np.nan) by (rewrite length_rev; lia).
  cbn [bind result_Monad]. rewrite Hdesc.
  rewrite !rev_nth by lia.
  rewrite Hasc. reflexivity.
Qed.

Lemma symmetrize_of_descending_witness :
  fraunhofer.symmetrize_fraunhofer (rev example.field) (rev example.ic)
  = fraunhofer.symmetrize_fraunhofer (rev (rev example.field)) (rev (rev example.ic)).
Proof.
  apply (symmetrize_of_descending_sweep (rev example.field) (rev example.ic)).
  - cbn. lia.
  - reflexivity.
  - reflexivity.
Defined.

Module IdempotenceFacts.

Lemma app_pivot_inj {A : Type} (l1 l1' l2 l2' : list A) (a a' : A) :
  l1 ++ a :: l2 = l1' ++ a' :: l2' -> length l1 = length l1' ->
  l1 = l1' /\ a = a' /\ l2 = l2'.
Proof.
  revert l1'. induction l1 as [|x l1 IH]; intros [|x' l1'] E Hl;
    cbn [length] in Hl; try lia.
  - injection E as -> ->. auto.
  - injection E as -> E. destruct (IH l1' E) as (-> & -> & ->); [lia|]. auto.
Qed.

Lemma slice_from {A : Type} (l1 r : list A) :
  Py.slice (l1 ++ r) (Some (Z.of_nat (length l1))) None = r.
Proof.
  unfold Py.slice, Py.adjust. rewrite length_app.
  destruct (Z.ltb_spec (Z.of_nat (length l1)) 0); [lia|].
  replace (Z.max 0 (Z.min (Z.of_nat (length l1 + length r)) (Z.of_nat (length l1))))
    with (Z.of_nat (length l1)) by lia.
  rewrite Nat2Z.id.
  replace (Z.to_nat (Z.of_nat (length l1 + length r) - Z.of_nat (length l1)))
    with (length r) by lia.
  rewrite skipn_app, skipn_all, Nat.sub_diag. cbn [skipn app].
  apply firstn_all.
Qed.

Lemma keep_side_of_mirrored (l1 l2 k1 k2 : list float) (a c : float) (m : nat) :
  length l1 = m -> length l2 = m -> length k1 = m -> (1 <= m)%nat ->
  PrimFloat.ltb (nth 1 (l1 ++ a :: l2) np.nan) (nth 0 (l1 ++ a :: l2) np.nan) = false ->
  np.argmin (List.map PrimFloat.abs (l1 ++ a :: l2)) = Ok (Z.of_nat m) ->
  fraunhofer.keep_side (l1 ++ a :: l2) (k1 ++ c :: k2)
  = Ok (fraunhofer.positive, a :: l2, c :: k2).
Proof.
  intros H1 H2 H3 Hm Hord Hmin. unfold fraunhofer.keep_side.
  assert (Hlen : length (l1 ++ a :: l2) = (2 * m + 1)%nat)
    by (rewrite length_app; cbn [length]; lia).
  rewrite (MoreMirrorFacts.getitem_0 _ np.nan), (MoreMirrorFacts.getitem_1 _ np.nan)
    by lia.
  cbn [bind result_Monad]. rewrite Hord, Hmin. cbn [bind result_Monad ret].
  unfold fraunhofer.len.
  destruct (Z.eqb_spec (Z.of_nat m) 0); [lia|].
  destruct (Z.eqb_spec (Z.of_nat m) (Z.of_nat (length (l1 ++ a :: l2)) - 1)); [lia|].
  pose proof (MirrorFacts.slice_length_formula (l1 ++ a :: l2)
                (Some (Z.of_nat m + 1)) None) as L1.
  pose proof (MirrorFacts.slice_length_formula (l1 ++ a :: l2)
                None (Some (Z.of_nat m))) as L2.
  cbv zeta in L1, L2. unfold Py.adjust in L1, L2.
  destruct (Z.ltb_spec (Z.of_nat m + 1) 0); [lia|].
  destruct (Z.ltb_spec (Z.of_nat m) 0); [lia|].
  destruct (Z.ltb_spec
              (Z.of_nat (length (Py.slice (l1 ++ a :: l2) (Some (Z.of_nat m + 1)) None)))
              (Z.of_nat (length (Py.slice (l1 ++ a :: l2) None (Some (Z.of_nat m))))));
    [lia|].
  rewrite <- H1 at 1. rewrite slice_from.
  rewrite <- H3. rewrite slice_from. reflexivity.
Qed.

End IdempotenceFacts.

(** X10. Symmetrising is idempotent on its own output: when the field
    returned does not start descending and its middle sample is the one
    [argmin] of the absolute field selects, symmetrising the output again
    returns the same two arrays. *)
Theorem symmetrize_twice (field ic f' i' : list float) :
  fraunhofer.symmetrize_fraunhofer field ic = Ok (f', i') ->
  length ic = length field ->
  PrimFloat.ltb (nth 1 f' np.nan) (nth 0 f' np.nan) = false ->
  np.argmin (List.map PrimFloat.abs f') = Ok (Z.of_nat (length f' / 2)) ->
  fraunhofer.symmetrize_fraunhofer f' i' = Ok (f', i').
Proof.
  unfold fraunhofer.symmetrize_fraunhofer at 1.
  destruct (fraunhofer.keep_side field ic) as [[[s f] i]|e] eqn:Ek; [|discriminate].
  cbn [bind result_Monad ret]. rewrite MirrorFacts.mirror_mirrored.
  intros H Hl Hord Hmin. injection H as <- <-.
  destruct (MirrorFacts.keep_side_shape field ic s f i Ek) as [Hf Hlen].
  specialize (Hlen Hl).
  destruct (MoreMirrorFacts.keep_side_lengths field ic s f i Ek) as [[Hf2 _] _].
  assert (Hi : i <> []) by (intros ->; cbn in Hlen; lia).
  destruct (MirrorFacts.mirrored_form PrimFloat.opp FloatFacts.opp_involutive s f Hf)
    as (l1 & a & l2 & Eout & Erev & L1 & L2 & _).
  destruct (MirrorFacts.mirrored_form (fun v => v) (fun v => eq_refl) s i Hi)
    as (k1 & c & k2 & Eout' & Erev' & K1 & K2 & _).
  rewrite Eout in *. rewrite Eout' in *.
  assert (Hhalf : (length (l1 ++ a :: l2) / 2 = length f - 1)%nat).
  { rewrite length_app. cbn [length]. rewrite L1, L2.
    replace (length f - 1 + S (length f - 1))%nat
      with (1 + (length f - 1) * 2)%nat by lia.
    rewrite Nat.div_add by lia. reflexivity. }
  rewrite Hhalf in Hmin.
  unfold fraunhofer.symmetrize_fraunhofer.
  rewrite (IdempotenceFacts.keep_side_of_mirrored l1 l2 k1 k2 a c (length f - 1))
    by (try assumption; lia).
  cbn [bind result_Monad ret]. rewrite MirrorFacts.mirror_mirrored.
  cbn [pattern.mirrored tl]. f_equal. f_equal.
  - rewrite rev_app_distr in Erev. cbn [rev] in Erev.
    rewrite <- app_assoc in Erev. cbn [app] in Erev.
    rewrite map_app in Erev. cbn [List.map] in Erev.
    apply IdempotenceFacts.app_pivot_inj in Erev.
    + destruct Erev as (E & _ & _). now rewrite E.
    + rewrite length_map, length_rev. lia.
  - rewrite rev_app_distr in Erev'. cbn [rev] in Erev'.
    rewrite <- app_assoc in Erev'. cbn [app] in Erev'.
    rewrite map_app in Erev'. cbn [List.map] in Erev'.
    apply IdempotenceFacts.app_pivot_inj in Erev'.
    + destruct Erev' as (E & _ & _). now rewrite E.
    + rewrite length_map, length_rev. lia.
Qed.

Lemma symmetrize_twice_witness :
  fraunhofer.symmetrize_fraunhofer
    [(-3)%float; (-2)%float; (-1)%float; 0%float; 1%float; 2%float; 3%float]
    [1%float; 2%float; 3%float; 4%float; 3%float; 2%float; 1%float]
  = Ok ([(-3)%float; (-2)%float; (-1)%float; 0%float; 1%float; 2%float; 3%float],
        [1%float; 2%float; 3%float; 4%float; 3%float; 2%float; 1%float]).
Proof.
  apply (symmetrize_twice example.field example.ic).
  - vm_compute. reflexivity.
  - reflexivity.
  - reflexivity.
  - vm_compute. reflexivity.
Defined.

Lemma slice_nth {A : Type} (l : list A) (start stop : Z) (j : nat) (d : A) :
  0 <= start -> 0 <= stop ->
  Z.of_nat j < Z.min stop (Z.of_nat (length l)) - start ->
  nth j (Py.slice l (Some start) (Some stop)) d = nth (Z.to_nat start + j) l d.
Proof.
  intros H0 H1 Hj. unfold Py.slice, Py.adjust.
  destruct (Z.ltb_spec start 0); [lia|]. destruct (Z.ltb_spec stop 0); [lia|].
  rewrite nth_firstn.
  destruct (Nat.ltb_spec j
              (Z.to_nat (Z.max 0 (Z.min (Z.of_nat (length l)) stop)
                         - Z.max 0 (Z.min (Z.of_nat (length l)) start)))); [|lia].
  rewrite nth_skipn. f_equal. lia.
Qed.

Section PeakWindow.

Variable ModelResult : Type.
Variable peak_widths : list float -> list Z -> float -> result (list float).
Variable gaussian_fit : list float -> list float -> result ModelResult.
Variable best_center : ModelResult -> float.
Variable set_xdata : ModelResult -> list float -> ModelResult.

Lemma find_max_loc_lt (field ic : list float)
  (field_lim : option (float * float)) (max_loc : Z) :
  length field = length ic ->
  fraunhofer.find_max_loc field ic field_lim = Ok max_loc ->
  0 <= max_loc < Z.of_nat (length ic).
Proof.
  intros Hl. unfold fraunhofer.find_max_loc. destruct field_lim as [[lo hi]|].
  - rewrite NpFacts.zip1_same by now rewrite length_map.
    cbn [bind result_Monad]. intros H.
    apply MirrorFacts.arg_ext_bound in H.
    rewrite length_map, length_combine, length_map in H. lia.
  - intros H. now apply MirrorFacts.arg_ext_bound in H.
Qed.

(** X11. The window [find_fraunhofer_center] cuts around the peak is
    [field[max(0, max_loc - width_index) : max_loc + width_index + 1]], cut
    the same way from [ic]: with a width index that is not negative it holds
    between 1 and [2 * width_index + 1] samples, the peak sample among them,
    and the call returns what the fit of the window returns. *)
Theorem peak_window_holds_the_peak (field ic : list float)
  (field_lim : option (float * float)) (return_fit : bool)
  (max_loc width_index : Z) (width : list float) (w0 : float) :
  length field = length ic ->
  fraunhofer.find_max_loc field ic field_lim = Ok max_loc ->
  peak_widths ic [max_loc] 0.5%float = Ok width ->
  Py.getitem width 0 = Ok w0 ->
  fraunhofer.py_round (w0 * fraunhofer.window_scale)%float = Ok width_index ->
  0 <= width_index ->
  let start := Z.max 0 (max_loc - width_index) in
  let stop := max_loc + width_index + 1 in
  let subset_field := Py.slice field (Some start) (Some stop) in
  let subset_ic := Py.slice ic (Some start) (Some stop) in
  fraunhofer.find_fraunhofer_center ModelResult peak_widths gaussian_fit
    best_center set_xdata field ic field_lim return_fit
  = (out <- gaussian_fit subset_ic subset_field ;;
     ret (if return_fit then inl (set_xdata out subset_field)
          else inr (best_center (set_xdata out subset_field))))
  /\ length subset_ic = length subset_field
  /\ 1 <= Z.of_nat (length subset_field) <= 2 * width_index + 1
  /\ nth (Z.to_nat (max_loc - start)) subset_field np.nan
     = nth (Z.to_nat max_loc) field np.nan
  /\ nth (Z.to_nat (max_loc - start)) subset_ic np.nan
     = nth (Z.to_nat max_loc) ic np.nan.
Proof.
  intros Hl Hmax Hw Hw0 Hround Hpos start stop subset_field subset_ic.
  pose proof (find_max_loc_lt field ic field_lim max_loc Hl Hmax) as Hm.
  split; [|split; [|split; [|split]]].
  - unfold fraunhofer.find_fraunhofer_center.
    rewrite Hmax. cbn [bind result_Monad]. rewrite Hw. cbn [bind result_Monad].
    rewrite Hw0. cbn [bind result_Monad]. rewrite Hround. reflexivity.
  - subst subset_ic subset_field. now apply MirrorFacts.slice_length_eq.
  - pose proof (MirrorFacts.slice_length_formula field (Some start) (Some stop)) as L.
    cbv zeta in L. fold subset_field in L. rewrite L. unfold Py.adjust.
    destruct (Z.ltb_spec start 0); destruct (Z.ltb_spec stop 0); lia.
  - subst subset_field. rewrite slice_nth by lia. f_equal. lia.
  - subst subset_ic. rewrite slice_nth by lia. f_equal. lia.
Qed.

(** X12. On arrays of one length the search for the peak fails only when
    they are empty: [find_fraunhofer_center] then raises the ValueError of
    [argmax], before the peak width or the fit is asked for. On other arrays
    the search returns an index of the arrays. *)
Theorem center_of_empty_pattern_raises (field ic : list float)
  (field_lim : option (float * float)) (return_fit : bool) :
  length field = length ic ->
  (ic = [] ->
   fraunhofer.find_fraunhofer_center ModelResult peak_widths gaussian_fit
     best_center set_xdata field ic field_lim return_fit
   = Raise (ValueError "attempt to get argmax of an empty sequence"))
  /\ (ic <> [] ->
      exists max_loc,
        fraunhofer.find_max_loc field ic field_lim = Ok max_loc
        /\ 0 <= max_loc < Z.of_nat (length ic)).
Proof.
  intros Hl. split.
  - intros ->. destruct field; [|discriminate Hl].
    destruct field_lim as [[lo hi]|]; reflexivity.
  - intros Hne.
    assert (H : exists max_loc,
               fraunhofer.find_max_loc field ic field_lim = Ok max_loc).
    { unfold fraunhofer.find_max_loc. destruct field_lim as [[lo hi]|].
      - rewrite NpFacts.zip1_same by now rewrite length_map.
        cbn [bind result_Monad].
        destruct field as [|f field], ic as [|c ic]; try discriminate Hl;
          [congruence|].
        cbn [List.map combine]. unfold np.argmax, np.arg_ext. eauto.
      - destruct ic as [|c ic]; [congruence|].
        unfold np.argmax, np.arg_ext. eauto. }
    destruct H as [max_loc H]. exists max_loc. split; [exact H|].
    now apply (find_max_loc_lt field ic field_lim).
Qed.

End PeakWindow.

Lemma peak_window_holds_witness :
  nth (Z.to_nat (3 - Z.max 0 (3 - 1)))
    (Py.slice example.field (Some (Z.max 0 (3 - 1))) (Some (3 + 1 + 1))) np.nan
  = nth (Z.to_nat 3) example.field np.nan.
Proof.
  destruct (peak_window_holds_the_peak float
              (fun _ _ _ => Ok [2%float]) (fun _ x => Ok (hd 0%float x))
              (fun out => out) (fun out _ => out)
              example.field example.ic None false 3 1 [2%float] 2%float)
    as (_ & _ & _ & H & _).
  - reflexivity.
  - vm_compute. reflexivity.
  - reflexivity.
  - reflexivity.
  - vm_compute. reflexivity.
  - lia.
  - exact H.
Defined.

Lemma center_of_empty_pattern_witness :
  exists max_loc,
    fraunhofer.find_max_loc example.field example.ic None = Ok max_loc
    /\ 0 <= max_loc < Z.of_nat (length example.ic).
Proof.
  apply (center_of_empty_pattern_raises float
           (fun _ _ _ => Ok [2%float]) (fun _ x => Ok (hd 0%float x))
           (fun out => out) (fun out _ => out)
           example.field example.ic None false).
  - reflexivity.
  - discriminate.
Defined.

(** ** The peak search of find_fraunhofer_center *)

Module PeakSearchFacts.

Import peak.

Lemma leb_neg_infinity_l (x : float) :
  PrimFloat.is_nan x = false -> PrimFloat.leb PrimFloat.neg_infinity x = true.
Proof.
  intros Hx. rewrite leb_spec.
  destruct (Prim2SF x) as [[]|[]| |[] m e] eqn:E; try reflexivity.
  exfalso. rewrite <- (SF2Prim_Prim2SF x), E in Hx. vm_compute in Hx. discriminate.
Qed.

Lemma leb_neg_infinity_r (x : float) :
  PrimFloat.leb x PrimFloat.neg_infinity = true -> x = PrimFloat.neg_infinity.
Proof.
  rewrite leb_spec. intros H. apply Prim2SF_inj.
  destruct (Prim2SF x) as [[]|[]| |[] m e]; try discriminate H. reflexivity.
Qed.

Lemma nan_not_neg_infinity : PrimFloat.nan <> PrimFloat.neg_infinity.
Proof.
  intros H. apply (f_equal PrimFloat.is_nan) in H. vm_compute in H. discriminate.
Qed.

(** The scan leaves the sample it started from only for a sample that is
    not [-inf]. *)
Lemma arg_scan_spec (r : list float) (i : nat) (mp : float) (ind : nat) :
  PrimFloat.is_nan mp = false ->
  (np.arg_scan better r i mp ind = ind
   /\ (mp = PrimFloat.neg_infinity ->
       Forall (fun v => v = PrimFloat.neg_infinity) r))
  \/ ((i <= np.arg_scan better r i mp ind)%nat
      /\ nth (np.arg_scan better r i mp ind - i) r np.nan <> PrimFloat.neg_infinity).
Proof.
  revert i mp ind. induction r as [|v r IH]; intros i mp ind Hmp; cbn [np.arg_scan].
  - left. split; [reflexivity|]. constructor.
  - destruct (better v mp) eqn:Eb; unfold better in Eb;
      [apply negb_true_iff in Eb as Ev|apply negb_false_iff in Eb as Ev]; clear Eb;
      [assert (Hv : v <> PrimFloat.neg_infinity)
         by (intros ->; rewrite leb_neg_infinity_l in Ev by exact Hmp; discriminate)|];
      cycle 1.
    + destruct (IH (S i) mp ind Hmp) as [[E Hall]|[Hle Hn]].
      * left. split; [exact E|]. intros ->. constructor; [|now apply Hall].
        now apply leb_neg_infinity_r.
      * right. split; [lia|].
        replace (np.arg_scan better r (S i) mp ind - i)%nat
          with (S (np.arg_scan better r (S i) mp ind - S i)) by lia.
        exact Hn.
    + right. destruct (PrimFloat.is_nan v) eqn:En.
      * split; [lia|]. now rewrite Nat.sub_diag.
      * destruct (IH (S i) v i En) as [[E _]|[Hle Hn]].
        -- rewrite E. split; [lia|]. now rewrite Nat.sub_diag.
        -- split; [lia|].
           replace (np.arg_scan better r (S i) v i - i)%nat
             with (S (np.arg_scan better r (S i) v i - S i)) by lia.
           exact Hn.
Qed.

(** [argmax] finds a sample that is not [-inf], or all samples are [-inf]
    and it answers 0. *)
Lemma argmax_spec (l : list float) (i : Z) :
  np.argmax l = Ok i ->
  nth (Z.to_nat i) l np.nan <> PrimFloat.neg_infinity
  \/ (i = 0 /\ Forall (fun v => v = PrimFloat.neg_infinity) l).
Proof.
  unfold np.argmax, np.arg_ext. destruct l as [|v r]; [discriminate|].
  intros H. injection H as <-. rewrite Nat2Z.id.
  destruct (PrimFloat.is_nan v) eqn:En.
  - left. cbn [nth]. apply FloatFacts.is_nan_true in En. subst v.
    exact nan_not_neg_infinity.
  - change (fun v0 mp : float => negb (PrimFloat.leb v0 mp)) with better.
    destruct (arg_scan_spec r 1 v 0 En) as [[E Hall]|[Hle Hn]].
    + rewrite E. cbn [nth].
      destruct (PrimFloat.leb v PrimFloat.neg_infinity) eqn:Ev.
      * apply leb_neg_infinity_r in Ev. right. split; [reflexivity|].
        constructor; [exact Ev|now apply Hall].
      * left. intros ->. vm_compute in Ev. discriminate.
    + left.
      replace (np.arg_scan better r 1 v 0)
        with (S (np.arg_scan better r 1 v 0 - 1)) by lia.
      exact Hn.
Qed.

Lemma searched_nth (lo hi : float) (field ic : list float) (j : nat) :
  length field = length ic -> (j < length field)%nat ->
  nth j (searched lo hi field ic) np.nan
  = if PrimFloat.ltb lo (nth j field np.nan) && PrimFloat.ltb (nth j field np.nan) hi
    then nth j ic np.nan else PrimFloat.neg_infinity.
Proof.
  unfold searched. revert ic j.
  induction field as [|f field IH]; intros [|c ic] [|j] Hl Hj;
    cbn [length] in *; try lia; cbn [List.map combine nth fst snd].
  - reflexivity.
  - apply IH; lia.
Qed.

Lemma searched_length (lo hi : float) (field ic : list float) :
  length field = length ic -> length (searched lo hi field ic) = length field.
Proof.
  intros Hl. unfold searched.
  rewrite length_map, length_combine, length_map. lia.
Qed.

End PeakSearchFacts.

(** X13. With field limits the peak is searched for among the samples whose
    field lies strictly between the limits: when one of them has a current
    that is not [-inf], the field at the peak found lies between the limits;
    when no field lies between the limits, the first sample is taken for the
    peak, whatever the currents. *)
Theorem peak_is_searched_within_limits (field ic : list float) (lo hi : float)
  (max_loc : Z) :
  length field = length ic ->
  fraunhofer.find_max_loc field ic (Some (lo, hi)) = Ok max_loc ->
  let within := fun f => PrimFloat.ltb lo f && PrimFloat.ltb f hi in
  ((exists j, (j < length field)%nat
              /\ within (nth j field np.nan) = true
              /\ nth j ic np.nan <> PrimFloat.neg_infinity) ->
   within (nth (Z.to_nat max_loc) field np.nan) = true)
  /\ ((forall j, (j < length field)%nat -> within (nth j field np.nan) = false) ->
      max_loc = 0).
Proof.
  intros Hl Hm within. unfold fraunhofer.find_max_loc in Hm.
  rewrite NpFacts.zip1_same in Hm by now rewrite length_map.
  cbn [bind result_Monad] in Hm.
  change (List.map _ (combine _ ic)) with (peak.searched lo hi field ic) in Hm.
  pose proof (MirrorFacts.arg_ext_bound _ _ _ _ Hm) as Hb.
  rewrite PeakSearchFacts.searched_length in Hb by exact Hl.
  pose proof (PeakSearchFacts.searched_nth lo hi field ic (Z.to_nat max_loc) Hl
                ltac:(lia)) as Hn.
  fold (within (nth (Z.to_nat max_loc) field np.nan)) in Hn.
  destruct (PeakSearchFacts.argmax_spec _ _ Hm) as [Hpeak|[-> Hall]]; split.
  - intros _. destruct (within (nth (Z.to_nat max_loc) field np.nan));
      [reflexivity|]. now elim Hpeak.
  - intros Hout. rewrite Hout in Hn by lia. now elim Hpeak.
  - intros (j & Hj & Hw & Hc). exfalso. apply Hc.
    rewrite Forall_forall in Hall.
    pose proof (PeakSearchFacts.searched_nth lo hi field ic j Hl Hj) as Hnj.
    fold (within (nth j field np.nan)) in Hnj. rewrite Hw in Hnj.
    rewrite <- Hnj. apply Hall. apply nth_In.
    now rewrite PeakSearchFacts.searched_length.
  - reflexivity.
Qed.

Lemma peak_is_searched_witness :
  fraunhofer.find_max_loc
    [(-2)%float; (-1)%float; 0%float; 1%float; 2%float]
    [9%float; 1%float; 3%float; 2%float; 8%float]
    (Some ((-1.5)%float, 1.5%float)) = Ok 2
  /\ (PrimFloat.ltb (-1.5) 0 && PrimFloat.ltb 0 1.5 = true)%float.
Proof.
  split; [vm_compute; reflexivity|].
  apply (peak_is_searched_within_limits
           [(-2)%float; (-1)%float; 0%float; 1%float; 2%float]
           [9%float; 1%float; 3%float; 2%float; 8%float]
           (-1.5)%float 1.5%float 2).
  - reflexivity.
  - vm_compute. reflexivity.
  - exists 1%nat. split; [cbn; lia|]. split; [vm_compute; reflexivity|].
    cbn [nth]. intros H. apply (f_equal Prim2SF) in H. vm_compute in H. discriminate.
Defined.

Section RecenterFacts.

Variable ModelResult : Type.
Variable peak_widths : list float -> list Z -> float -> result (list float).
Variable gaussian_fit : list float -> list float -> result ModelResult.
Variable best_center : ModelResult -> float.
Variable set_xdata : ModelResult -> list float -> ModelResult.

Let center := recenter.center ModelResult peak_widths gaussian_fit best_center set_xdata.
Let recenter_slice :=
  recenter.recenter_slice ModelResult peak_widths gaussian_fit best_center set_xdata.
Let recenter_fraunhofer :=
  recenter.recenter_fraunhofer ModelResult peak_widths gaussian_fit best_center
    set_xdata.

Lemma recenter_loop (fs ics : list (list float)) (k : nat) :
  (k + length fs <= length ics)%nat ->
  recenter.loop ModelResult peak_widths gaussian_fit best_center set_xdata
    fs (A2 ics) (Z.of_nat k)
  = mapM recenter_slice (combine fs (skipn k ics)).
Proof.
  revert k. induction fs as [|f fs IH]; intros k Hk; [reflexivity|].
  cbn [length] in Hk. cbn [recenter.loop recenter.ic_slice].
  rewrite (EdgeFacts.getitem_nat ics k []) by lia.
  cbn [bind result_Monad].
  assert (Hs : skipn k ics = nth k ics [] :: skipn (S k) ics).
  { clear - Hk. revert k Hk. induction ics as [|i ics IHi]; intros k Hk.
    - cbn in Hk. lia.
    - destruct k as [|k]; [reflexivity|]. cbn [skipn nth]. apply IHi.
      cbn [length] in Hk. lia. }
  rewrite Hs. cbn [combine mapM]. unfold recenter_slice at 1.
  unfold recenter.recenter_slice. cbn [fst snd bind result_Monad].
  destruct (recenter.center _ _ _ _ _ f (nth k ics [])) as [c|e];
    cbn [bind result_Monad]; [|reflexivity].
  replace (Z.of_nat k + 1) with (Z.of_nat (S k)) by lia.
  rewrite IH by lia. reflexivity.
Qed.

Lemma mapM_first_items (fs : list (list float)) :
  Forall (fun f => f <> []) fs ->
  exists hs, mapM (fun f : list float => Py.getitem f 0) fs = Ok hs.
Proof.
  induction 1 as [|f fs Hf _ [hs IH]]; [now exists []|].
  cbn [mapM]. rewrite (MoreMirrorFacts.getitem_0 f np.nan)
    by (destruct f; [congruence|cbn; lia]).
  cbn [bind result_Monad]. rewrite IH. eexists. reflexivity.
Qed.

Lemma mapM_first_items_empty (fs : list (list float)) :
  In [] fs ->
  mapM (fun f : list float => Py.getitem f 0) fs
  = Raise (IndexError "index out of bounds").
Proof.
  induction fs as [|f fs IH]; intros Hin; [destruct Hin|].
  cbn [mapM]. destruct f as [|v f]; [reflexivity|].
  destruct Hin as [Hin|Hin]; [discriminate Hin|].
  rewrite (MoreMirrorFacts.getitem_0 (v :: f) np.nan) by (cbn; lia).
  cbn [bind result_Monad]. now rewrite IH.
Qed.

Lemma mapM_nth_error {A B : Type} (f : A -> result B) (l : list A) (r : list B) :
  mapM f l = Ok r ->
  length r = length l
  /\ forall k a, nth_error l k = Some a ->
       exists b, f a = Ok b /\ nth_error r k = Some b.
Proof.
  revert r. induction l as [|a l IH]; intros r H; cbn [mapM] in H.
  - injection H as <-. split; [reflexivity|]. intros [|k] a Hk; discriminate Hk.
  - destruct (f a) as [b|e] eqn:Ea; cbn [bind result_Monad] in H; [|discriminate].
    destruct (mapM f l) as [bs|e]; cbn [bind result_Monad ret] in H; [|discriminate].
    injection H as <-. destruct (IH bs eq_refl) as [Hl Hn].
    split; [cbn [length]; lia|].
    intros [|k] a' Hk; cbn [nth_error] in *.
    + injection Hk as <-. now exists b.
    + now apply Hn.
Qed.

(** X14. [recenter_fraunhofer] on a 2-d field with a 2-d current treats the
    slices one by one, in order: each slice of the result is the field slice
    less the center fitted on that slice and its current, the shape is that
    of the field, and the first slice whose fit fails makes the call fail.
    On a 1-d field it is one such slice. *)
Theorem recenter_is_slice_by_slice (fs ics : list (list float)) :
  fs <> [] -> Forall (fun f => f <> []) fs -> (length fs <= length ics)%nat ->
  recenter_fraunhofer (A2 fs) (A2 ics)
  = (rs <- mapM recenter_slice (combine fs ics) ;; ret (A2 rs))
  /\ (forall r, recenter_fraunhofer (A2 fs) (A2 ics) = Ok r ->
        exists rs,
          r = A2 rs /\ length rs = length fs
          /\ forall k f, nth_error fs k = Some f ->
               exists i c,
                 nth_error ics k = Some i /\ center f i = Ok c
                 /\ nth_error rs k = Some (List.map (fun v => v - c)%float f))
  /\ (forall f i, In (f, i) (combine fs ics) ->
        recenter_fraunhofer (A1 f) (A1 i)
        = (r <- recenter_slice (f, i) ;; ret (A1 r))).
Proof.
  intros Hne Hrows Hlen.
  assert (Hcall : recenter_fraunhofer (A2 fs) (A2 ics)
                  = (rs <- mapM recenter_slice (combine fs ics) ;; ret (A2 rs))).
  { unfold recenter_fraunhofer, recenter.recenter_fraunhofer.
    destruct (mapM_first_items fs Hrows) as [hs ->]. cbn [bind result_Monad].
    destruct fs as [|f0 fs0]; [congruence|].
    change 0 with (Z.of_nat 0). rewrite recenter_loop by (cbn [length] in *; lia).
    reflexivity. }
  split; [exact Hcall|split].
  - intros r Hr. rewrite Hcall in Hr.
    destruct (mapM recenter_slice (combine fs ics)) as [rs|e] eqn:Em;
      cbn [bind result_Monad ret] in Hr; [|discriminate].
    injection Hr as <-. exists rs.
    destruct (mapM_nth_error _ _ _ Em) as [Hl Hn].
    split; [reflexivity|]. split; [rewrite Hl, length_combine; lia|].
    intros k f Hk.
    destruct (nth_error ics k) as [i|] eqn:Ei.
    2:{ apply nth_error_None in Ei.
        assert (k < length fs)%nat by (apply nth_error_Some; congruence). lia. }
    assert (Hc : nth_error (combine fs ics) k = Some (f, i)).
    { clear - Hk Ei. revert ics k Hk Ei.
      induction fs as [|f' fs IH]; intros [|i' ics] [|k] Hk Ei;
        cbn [nth_error combine] in *; try discriminate.
      - now injection Hk as ->; injection Ei as ->.
      - now apply IH. }
    destruct (Hn k (f, i) Hc) as (b & Hb & Hrk).
    unfold recenter_slice, recenter.recenter_slice in Hb. cbn [fst snd] in Hb.
    fold center in Hb. destruct (center f i) as [c|e] eqn:Ec;
      cbn [bind result_Monad ret] in Hb; [|discriminate].
    injection Hb as <-. now exists i, c.
  - intros f i Hin. apply in_combine_l in Hin.
    pose proof (proj1 (Forall_forall _ _) Hrows f Hin) as Hf.
    unfold recenter_fraunhofer, recenter.recenter_fraunhofer.
    rewrite (MoreMirrorFacts.getitem_0 f np.nan)
      by (destruct f; [congruence|cbn; lia]).
    cbn [bind result_Monad recenter.ic_whole].
    unfold recenter_slice, recenter.recenter_slice. cbn [fst snd].
    destruct (recenter.center _ _ _ _ _ f i); reflexivity.
Qed.

(** X15. [recenter_fraunhofer] raises an IndexError on a 0-d field and on a
    field with an empty swept axis, whatever the current. A 2-d current with
    fewer slices than the 2-d field makes it fail: with the IndexError of the
    first missing slice, or with the error of the first slice whose fit
    fails, when there is one before it. *)
Theorem recenter_on_degenerate_arrays (ic : ndarray float) :
  (forall v, recenter_fraunhofer (A0 v) ic
             = Raise (IndexError "too many indices for array"))
  /\ recenter_fraunhofer (A1 []) ic = Raise (IndexError "index out of bounds")
  /\ (forall fs, In [] fs ->
        recenter_fraunhofer (A2 fs) ic = Raise (IndexError "index out of bounds"))
  /\ (forall fs ics, Forall (fun f => f <> []) fs ->
        (length ics < length fs)%nat ->
        recenter_fraunhofer (A2 fs) (A2 ics)
        = Raise (IndexError "index out of bounds")
        \/ exists k f i e,
             nth_error fs k = Some f /\ nth_error ics k = Some i
             /\ center f i = Raise e
             /\ recenter_fraunhofer (A2 fs) (A2 ics) = Raise e).
Proof.
  split; [|split; [|split]].
  - intros v. reflexivity.
  - reflexivity.
  - intros fs Hin. unfold recenter_fraunhofer, recenter.recenter_fraunhofer.
    rewrite (mapM_first_items_empty fs Hin). reflexivity.
  - intros fs ics Hrows Hlt.
    unfold recenter_fraunhofer, recenter.recenter_fraunhofer.
    destruct (mapM_first_items fs Hrows) as [hs ->]. cbn [bind result_Monad].
    destruct fs as [|f0 fs0]; [cbn in Hlt; lia|].
    assert (Hloop : forall rows k,
               (k <= length ics < k + length rows)%nat ->
               recenter.loop ModelResult peak_widths gaussian_fit
                 best_center set_xdata rows (A2 ics) (Z.of_nat k)
               = Raise (IndexError "index out of bounds")
               \/ exists j f i e,
                    nth_error rows j = Some f
                    /\ nth_error ics (k + j) = Some i
                    /\ center f i = Raise e
                    /\ recenter.loop ModelResult peak_widths gaussian_fit
                         best_center set_xdata rows (A2 ics) (Z.of_nat k)
                       = Raise e).
    { induction rows as [|f rows IH]; intros k Hk.
      - cbn [length] in Hk. left. exfalso. lia.
      - cbn [recenter.loop recenter.ic_slice].
        destruct (Nat.lt_ge_cases k (length ics)) as [Hin|Hout].
        + rewrite (EdgeFacts.getitem_nat ics k []) by lia.
          cbn [bind result_Monad].
          assert (Hi : nth_error ics k = Some (nth k ics []))
            by now apply nth_error_nth'.
          fold center.
          destruct (center f (nth k ics [])) as [c|e] eqn:Ec;
            cbn [bind result_Monad].
          * replace (Z.of_nat k + 1) with (Z.of_nat (S k)) by lia.
            destruct (IH (S k)) as [He|(j & f' & i & e & Hf & Hi' & Hc & He)].
            -- cbn [length] in Hk. lia.
            -- left. now rewrite He.
            -- right. exists (S j), f', i, e. cbn [nth_error].
               replace (k + S j)%nat with (S k + j)%nat by lia.
               repeat split; try assumption. now rewrite He.
          * right. exists O, f, (nth k ics []), e. rewrite Nat.add_0_r.
            repeat split; try assumption.
        + left. rewrite MoreMirrorFacts.getitem_short by lia. reflexivity. }
    destruct (Hloop (f0 :: fs0) O) as [He|(j & f & i & e & Hf & Hi & Hc & He)].
    + cbn [length] in *. lia.
    + left. change (Z.of_nat 0) with 0 in He. now rewrite He.
    + right. exists j, f, i, e. change (Z.of_nat 0) with 0 in He.
      cbn [Nat.add] in Hi. repeat split; try assumption. now rewrite He.
Qed.

End RecenterFacts.

Lemma recenter_slice_by_slice_witness :
  recenter.recenter_fraunhofer float
    (fun _ _ _ => Ok [2%float]) (fun _ x => Ok (hd 0%float x)) (fun out => out)
    (fun out _ => out)
    (A2 [example.field; example.field]) (A2 [example.ic; example.ic])
  = Ok (A2 [[(-2)%float; (-1)%float; 0%float; 1%float; 2%float; 3%float];
            [(-2)%float; (-1)%float; 0%float; 1%float; 2%float; 3%float]]).
Proof.
  destruct (recenter_is_slice_by_slice float
              (fun _ _ _ => Ok [2%float]) (fun _ x => Ok (hd 0%float x))
              (fun out => out) (fun out _ => out)
              [example.field; example.field] [example.ic; example.ic])
    as (H & _ & _).
  - discriminate.
  - repeat constructor; discriminate.
  - cbn. lia.
  - rewrite H. vm_compute. reflexivity.
Defined.

Lemma recenter_degenerate_witness :
  recenter.recenter_fraunhofer float
    (fun _ _ _ => Ok [2%float]) (fun _ x => Ok (hd 0%float x)) (fun out => out)
    (fun out _ => out)
    (A2 [example.field; example.field]) (A2 [example.ic])
  = Raise (IndexError "index out of bounds").
Proof.
  destruct (recenter_on_degenerate_arrays float
              (fun _ _ _ => Ok [2%float]) (fun _ x => Ok (hd 0%float x))
              (fun out => out) (fun out _ => out) (A2 [example.ic]))
    as (_ & _ & _ & H).
  destruct (H [example.field; example.field] [example.ic])
    as [He|(k & f & i & e & Hf & Hi & Hc & He)].
  - repeat constructor; discriminate.
  - cbn. lia.
  - exact He.
  - exfalso. destruct k as [|[|k]]; cbn [nth_error] in Hi; try discriminate Hi.
    injection Hf as <-. injection Hi as <-. vm_compute in Hc. discriminate Hc.
Defined.

(** ** shabanipy/utils/plotting/jy_pink.py *)

Module ColorFacts.

Import jy_pink.

Lemma fill_channels (N i : Z) (cs : list (list float)) (R G B : list entry) :
  N <> 0 -> Forall (fun c => (3 <= length c)%nat) cs ->
  fill N i (List.map Rgb cs) (channels R B G)
  = Done (channels (R ++ channel N 0 i cs) (B ++ channel N 2 i cs)
            (G ++ channel N 1 i cs)).
Proof.
  intros HN Hcs. revert i R G B. unfold channels.
  induction Hcs as [|c cs Hc _ IH]; intros i R G B.
  - cbn [List.map fill channel]. now rewrite !app_nil_r.
  - cbn [List.map fill channel bind outcome_Monad].
    assert (Hp : (3 <= length (prepared c))%nat).
    { unfold prepared, normalize_color.
      destruct (existsb _ c); rewrite ?length_map; exact Hc. }
    destruct (prepared c) as [|c0 [|c1 [|c2 p]]] eqn:Ep;
      cbn [length] in Hp; try lia.
    cbn [add_entries lookup String.eqb Ascii.eqb Bool.eqb bind outcome_Monad
         component nth_error append].
    unfold true_div. destruct (Z.eqb_spec N 0) as [E|_]; [congruence|].
    cbn [bind outcome_Monad add_entries lookup String.eqb Ascii.eqb Bool.eqb
         component nth_error append].
    rewrite IH. cbn [nth]. now rewrite <- !app_assoc.
Qed.

Lemma channel_positions (N : Z) (j j' : nat) (i : Z) (cs cs' : list (list float)) :
  length cs = length cs' ->
  List.map position (channel N j i cs) = List.map position (channel N j' i cs').
Proof.
  revert i cs'. induction cs as [|c cs IH]; intros i [|c' cs'] H;
    cbn [length] in H; try lia; [reflexivity|].
  cbn [channel List.map]. f_equal. apply IH. lia.
Qed.

Lemma channel_values (N : Z) (j : nat) (i : Z) (cs : list (list float)) :
  List.map value (channel N j i cs)
  = List.map (fun c => nth j (prepared c) np.nan) cs.
Proof.
  revert i. induction cs as [|c cs IH]; intros i; [reflexivity|].
  cbn [channel List.map]. f_equal. apply IH.
Qed.

Lemma fill_with_name (N i : Z) (colors : list color) (d : color_dict) (s : string) :
  In (Name s) colors -> exists e, fill N i colors d = Fail e.
Proof.
  revert i d. induction colors as [|c colors IH]; intros i d Hin; [destruct Hin|].
  cbn [fill]. destruct Hin as [->|Hin].
  - eexists. reflexivity.
  - destruct c as [n|c]; [eexists; reflexivity|].
    cbn [bind outcome_Monad].
    destruct (add_entries _ _ _ _ _ _) as [d'|e]; [|eexists; reflexivity].
    apply IH, Hin.
Qed.

Lemma make_color_dict_rgb (cs : list (list float)) :
  (2 <= length cs)%nat -> Forall (fun c => (3 <= length c)%nat) cs ->
  make_color_dict (List.map Rgb cs)
  = Done (channels (channel (Z.of_nat (length cs) - 1) 0 0 cs)
            (channel (Z.of_nat (length cs) - 1) 2 0 cs)
            (channel (Z.of_nat (length cs) - 1) 1 0 cs)).
Proof.
  intros Hn Hcs. unfold make_color_dict. cbv zeta. rewrite length_map.
  change [("red", []); ("blue", []); ("green", [])]%string with (channels [] [] []).
  rewrite fill_channels by (try assumption; lia).
  reflexivity.
Qed.

End ColorFacts.

(** X16. For two colours or more, each a tuple of three numbers or more,
    [make_color_dict] returns the dict with keys red, blue, green whose
    channels take the components 0, 2 and 1 of the colours: the point of
    colour i is [(i / N, c, c)] with [c] the component, divided by 255 when
    a component of that colour is above 1. *)
Theorem make_color_dict_channels (cs : list (list float)) :
  (2 <= length cs)%nat -> Forall (fun c => (3 <= length c)%nat) cs ->
  let N := Z.of_nat (length cs) - 1 in
  jy_pink.make_color_dict (List.map jy_pink.Rgb cs)
  = jy_pink.Done (jy_pink.channels (jy_pink.channel N 0 0 cs)
                    (jy_pink.channel N 2 0 cs) (jy_pink.channel N 1 0 cs)).
Proof.
  intros Hn Hcs N. subst N. now apply ColorFacts.make_color_dict_rgb.
Qed.

Lemma make_color_dict_channels_witness :
  jy_pink.make_color_dict
    (List.map jy_pink.Rgb
       [[0%float; 255%float; 255%float]; [1%float; 0.5%float; 0%float]])
  = jy_pink.Done
      (jy_pink.channels
         [(0%float, 0%float, 0%float); (1%float, 1%float, 1%float)]
         [(0%float, 1%float, 1%float); (1%float, 0%float, 0%float)]
         [(0%float, 1%float, 1%float); (1%float, 0.5%float, 0.5%float)]).
Proof.
  rewrite (make_color_dict_channels
             [[0%float; 255%float; 255%float]; [1%float; 0.5%float; 0%float]]).
  - vm_compute. reflexivity.
  - cbn. lia.
  - repeat constructor.
Defined.

(** X17. [make_color_dict] returns three empty channels for no colour,
    raises ZeroDivisionError for a single colour, and never returns when a
    colour is given as a string: [hex_color_to_rgb] is not defined. *)
Theorem make_color_dict_failures :
  jy_pink.make_color_dict [] = jy_pink.Done (jy_pink.channels [] [] [])
  /\ (forall c, jy_pink.make_color_dict [jy_pink.Rgb c]
                = jy_pink.Fail (jy_pink.ZeroDivisionError "division by zero"))
  /\ (forall s rest, jy_pink.make_color_dict (jy_pink.Name s :: rest)
                     = jy_pink.Fail (jy_pink.NameError "hex_color_to_rgb"))
  /\ (forall colors s, In (jy_pink.Name s) colors ->
        exists e, jy_pink.make_color_dict colors = jy_pink.Fail e).
Proof.
  split; [reflexivity|split; [reflexivity|split; [reflexivity|]]].
  intros colors s Hin. unfold jy_pink.make_color_dict.
  now apply (ColorFacts.fill_with_name _ _ colors _ s).
Qed.

Lemma make_color_dict_failures_witness :
  exists e,
    jy_pink.make_color_dict
      [jy_pink.Rgb [1%float; 0%float; 0%float]; jy_pink.Name "#ff0000"]
    = jy_pink.Fail e.
Proof.
  destruct make_color_dict_failures as (_ & _ & _ & H).
  apply (H _ "#ff0000"%string). cbn. auto.
Defined.

(** X18. The colours in reverse order give channels with the same positions
    and the values in reverse order: this is what sets jy_pink_r against
    jy_pink. *)
Theorem reversed_colors_reverse_the_channels (cs : list (list float)) (j : nat) :
  let N := Z.of_nat (length cs) - 1 in
  List.map jy_pink.position (jy_pink.channel N j 0 (rev cs))
  = List.map jy_pink.position (jy_pink.channel N j 0 cs)
  /\ List.map jy_pink.value (jy_pink.channel N j 0 (rev cs))
     = rev (List.map jy_pink.value (jy_pink.channel N j 0 cs))
  /\ ((2 <= length cs)%nat -> Forall (fun c => (3 <= length c)%nat) cs ->
      jy_pink.make_color_dict (List.map jy_pink.Rgb (rev cs))
      = jy_pink.Done (jy_pink.channels (jy_pink.channel N 0 0 (rev cs))
                        (jy_pink.channel N 2 0 (rev cs))
                        (jy_pink.channel N 1 0 (rev cs)))).
Proof.
  intros N. split; [|split].
  - apply ColorFacts.channel_positions. apply length_rev.
  - rewrite !ColorFacts.channel_values. apply map_rev.
  - intros Hn Hcs. subst N. rewrite <- (length_rev cs).
    apply ColorFacts.make_color_dict_rgb.
    + now rewrite length_rev.
    + apply Forall_rev. exact Hcs.
Qed.

Lemma reversed_colors_witness :
  jy_pink.make_color_dict
    (List.map jy_pink.Rgb (rev [[0%float; 255%float; 255%float];
                                [1%float; 0.5%float; 0%float]]))
  = jy_pink.Done
      (jy_pink.channels
         [(0%float, 1%float, 1%float); (1%float, 0%float, 0%float)]
         [(0%float, 0%float, 0%float); (1%float, 1%float, 1%float)]
         [(0%float, 0.5%float, 0.5%float); (1%float, 1%float, 1%float)]).
Proof.
  destruct (reversed_colors_reverse_the_channels
              [[0%float; 255%float; 255%float]; [1%float; 0.5%float; 0%float]] O)
    as (_ & _ & H).
  rewrite H.
  - vm_compute. reflexivity.
  - cbn. lia.
  - repeat constructor.
Defined.

Module RegistryFacts.

Import jy_pink.

Lemma registered_app (n : string) (r r' : registry) :
  registered n (r ++ r') = registered n r || registered n r'.
Proof. unfold registered. now rewrite map_app, existsb_app. Qed.

Lemma color_pts_dict : exists d, make_color_dict color_pts = Done d.
Proof. eexists. vm_compute. reflexivity. Qed.

Lemma color_pts_r_dict : exists d, make_color_dict (rev color_pts) = Done d.
Proof. eexists. vm_compute. reflexivity. Qed.

Lemma register_color_map_known (n : string) (colors : list color) (r : registry) :
  registered n r = true -> register_color_map n colors r = (Done tt, r).
Proof. intros H. unfold register_color_map. now rewrite H. Qed.

End RegistryFacts.

(** X19. [register] never fails and never touches a colormap that is
    registered already: it appends jy_pink and jy_pink_r, each only when its
    name is not in the registry, so that both names are registered afterwards
    and a second [register] changes nothing. *)
Theorem register_is_idempotent (r : jy_pink.registry) :
  let r1 := snd (jy_pink.register r) in
  fst (jy_pink.register r) = jy_pink.Done tt
  /\ jy_pink.registered "jy_pink" r1 = true
  /\ jy_pink.registered "jy_pink_r" r1 = true
  /\ (exists added,
        r1 = r ++ added
        /\ List.map fst added
           = (if jy_pink.registered "jy_pink" r then [] else ["jy_pink"%string])
             ++ (if jy_pink.registered "jy_pink_r" r then []
                 else ["jy_pink_r"%string]))
  /\ jy_pink.register r1 = (jy_pink.Done tt, r1).
Proof.
  destruct RegistryFacts.color_pts_dict as [d Hd].
  destruct RegistryFacts.color_pts_r_dict as [d' Hd'].
  assert (Hreg : forall r0,
             jy_pink.registered "jy_pink" r0 = true ->
             jy_pink.registered "jy_pink_r" r0 = true ->
             jy_pink.register r0 = (jy_pink.Done tt, r0)).
  { intros r0 H1 H2. unfold jy_pink.register.
    now rewrite !RegistryFacts.register_color_map_known. }
  assert (Hrun : exists added,
             jy_pink.register r = (jy_pink.Done tt, r ++ added)
             /\ List.map fst added
                = (if jy_pink.registered "jy_pink" r then []
                   else ["jy_pink"%string])
                  ++ (if jy_pink.registered "jy_pink_r" r then []
                      else ["jy_pink_r"%string])).
  { unfold jy_pink.register, jy_pink.register_color_map.
    destruct (jy_pink.registered "jy_pink" r) eqn:E1.
    - destruct (jy_pink.registered "jy_pink_r" r) eqn:E2.
      + exists []. now rewrite app_nil_r.
      + rewrite Hd'. now exists [("jy_pink_r"%string, d')].
    - rewrite Hd, RegistryFacts.registered_app.
      destruct (jy_pink.registered "jy_pink_r" r) eqn:E2; cbn [orb].
      + now exists [("jy_pink"%string, d)].
      + change (jy_pink.registered "jy_pink_r" [("jy_pink"%string, d)]) with false.
        rewrite Hd'. exists [("jy_pink"%string, d); ("jy_pink_r"%string, d')].
        now rewrite <- app_assoc. }
  destruct Hrun as (added & Hrun & Hnames). cbv zeta. rewrite Hrun. cbn [fst snd].
  assert (Hin : forall n,
             jy_pink.registered n (r ++ added)
             = jy_pink.registered n r
               || existsb (String.eqb n) (List.map fst added))
    by (intros n; apply RegistryFacts.registered_app).
  assert (H1 : jy_pink.registered "jy_pink" (r ++ added) = true).
  { rewrite Hin, Hnames. destruct (jy_pink.registered "jy_pink" r); reflexivity. }
  assert (H2 : jy_pink.registered "jy_pink_r" (r ++ added) = true).
  { rewrite Hin, Hnames.
    destruct (jy_pink.registered "jy_pink_r" r); [reflexivity|].
    destruct (jy_pink.registered "jy_pink" r); reflexivity. }
  repeat split; try assumption; [|now apply Hreg].
  now exists added.
Qed.

(** ** scripts/tcbc/tc.py *)

Module StaleFacts.

Import tc.

Lemma changing_snoc (l : list float) (t : float) :
  changing l -> PrimFloat.eqb t (last l np.nan) = false -> changing (l ++ [t]).
Proof.
  intros Hl Ht k Hk. rewrite length_app in Hk. cbn [length] in Hk.
  destruct (Nat.eq_dec (S k) (length l)) as [E|E].
  - rewrite app_nth2 by lia. rewrite app_nth1 by lia.
    replace (S k - length l)%nat with O by lia. cbn [nth].
    replace k with (length l - 1)%nat by lia. now rewrite nth_last.
  - rewrite !app_nth1 by lia. apply Hl. lia.
Qed.

Lemma sorted_snoc (R : Z -> Z -> Prop) (l : list Z) (x : Z) :
  StronglySorted R l -> Forall (fun j => R j x) l -> StronglySorted R (l ++ [x]).
Proof.
  induction 1 as [|a l Hs IH Ha]; intros Hx; cbn [app].
  - repeat constructor.
  - inversion Hx as [|? ? Hax Hlx]; subst. constructor; [now apply IH|].
    apply Forall_app. split; [exact Ha|]. now repeat constructor.
Qed.

Section Loop.

Variable temp : list float.
Variable R : Z -> Z -> Prop.
Hypothesis R_next : forall j i, R j i -> R j (i + 1).
Hypothesis R_self : forall i, R i (i + 1).

Lemma step_invariant (i : nat) (t : float) (st : list float * list Z) :
  nth_error temp i = Some t -> invariant temp R i st ->
  invariant temp R (S i) (step st (Z.of_nat i, t)).
Proof.
  intros Ht (Hr & Hne & Hch & Hs & Hb). unfold step. cbn [fst snd].
  assert (Hb' : Forall (fun j => R j (Z.of_nat (S i))) (snd st)).
  { eapply Forall_impl; [|exact Hb]. cbn beta. intros j Hj.
    replace (Z.of_nat (S i)) with (Z.of_nat i + 1) by lia. now apply R_next. }
  destruct (PrimFloat.eqb t (last (fst st) np.nan)) eqn:E.
  - refine (conj _ (conj _ (conj _ (conj _ _)))); assumption.
  - cbn [fst snd]. refine (conj _ (conj _ (conj _ (conj _ _)))).
    + apply Forall2_app; [exact Hr|]. constructor; [|constructor]. split.
      * assert (i < length temp)%nat by (apply nth_error_Some; congruence). lia.
      * rewrite Nat2Z.id. now apply nth_error_nth.
    + intros E'. now apply app_eq_nil in E' as [_ E'].
    + now apply changing_snoc.
    + now apply sorted_snoc.
    + apply Forall_app. split; [exact Hb'|]. constructor; [|constructor].
      replace (Z.of_nat (S i)) with (Z.of_nat i + 1) by lia. apply R_self.
Qed.

Lemma fold_invariant (rest : list float) (i : nat) (st : list float * list Z) :
  skipn i temp = rest -> invariant temp R i st ->
  exists n, invariant temp R n (fold_left step (enumerate_from (Z.of_nat i) rest) st).
Proof.
  revert i st. induction rest as [|t rest IH]; intros i st Hskip Hinv.
  - exists i. exact Hinv.
  - cbn [enumerate_from fold_left].
    assert (Hi : length (firstn i temp) = i).
    { apply (f_equal (@length float)) in Hskip. rewrite length_skipn in Hskip.
      cbn [length] in Hskip. rewrite length_firstn. lia. }
    assert (Ht : nth_error temp i = Some t).
    { rewrite <- (firstn_skipn i temp) at 1. rewrite Hskip.
      rewrite nth_error_app2 by lia. rewrite Hi, Nat.sub_diag. reflexivity. }
    replace (Z.of_nat i + 1) with (Z.of_nat (S i)) by lia.
    apply IH.
    + rewrite <- (firstn_skipn i temp) at 1.
      rewrite Hskip. replace (S i) with (length (firstn i temp) + 1)%nat by lia.
      rewrite skipn_app, skipn_all2 by lia.
      replace (length (firstn i temp) + 1 - length (firstn i temp))%nat
        with 1%nat by lia.
      reflexivity.
    + now apply step_invariant.
Qed.

End Loop.

Lemma fold_extends (l : list (Z * float)) (st : list float * list Z) :
  exists a b, fold_left step l st = (fst st ++ a, snd st ++ b).
Proof.
  revert st. induction l as [|it l IH]; intros [tf ix]; cbn [fold_left fst snd].
  - exists [], []. now rewrite !app_nil_r.
  - unfold step at 2. cbn [fst snd].
    destruct (PrimFloat.eqb (snd it) (last tf np.nan)).
    + apply (IH (tf, ix)).
    + destruct (IH (tf ++ [snd it], ix ++ [fst it])) as (a & b & E).
      exists (snd it :: a), (fst it :: b). rewrite E. cbn [fst snd].
      now rewrite <- !app_assoc.
Qed.

Lemma fresh_points_invariant (temp : list float) :
  temp <> [] ->
  exists temp_fresh indexs n,
    fresh_points temp = Ok (temp_fresh, indexs)
    /\ invariant temp Z.le n (temp_fresh, indexs).
Proof.
  intros Hne. destruct temp as [|t0 rest] eqn:Et; [congruence|].
  rewrite <- Et in *. unfold fresh_points.
  rewrite (MoreMirrorFacts.getitem_0 temp np.nan) by (rewrite Et; cbn; lia).
  cbn [bind result_Monad ret].
  destruct (fold_invariant temp Z.le
              (fun j i H => Z.le_trans j i (i + 1) H (Z.le_succ_diag_r i))
              Z.le_succ_diag_r
              temp O ([nth 0 temp np.nan], [0])) as [n H].
  - reflexivity.
  - unfold tc.invariant. cbn [fst snd].
    refine (conj _ (conj _ (conj _ (conj _ _)))).
    + constructor; [|constructor]. split; [|reflexivity].
      rewrite Et. cbn [length]. lia.
    + discriminate.
    + intros k Hk. cbn in Hk. lia.
    + repeat constructor.
    + constructor; [lia|constructor].
  - change (Z.of_nat 0) with 0 in H.
    destruct (fold_left step (enumerate_from 0 temp) _) as [tf ix] eqn:Ef.
    now exists tf, ix, n.
Qed.

Lemma take_ok (volt : list float) (indexs : list Z) :
  Forall (fun j => 0 <= j < Z.of_nat (length volt)) indexs ->
  take volt indexs
  = Ok (List.map (fun j => nth (Z.to_nat j) volt np.nan) indexs).
Proof.
  unfold take. induction 1 as [|j ix Hj _ IH]; cbn [mapM List.map]; [reflexivity|].
  rewrite <- (Z2Nat.id j) at 1 by lia.
  rewrite (MoreMirrorFacts.getitem_ok volt (Z.to_nat j) np.nan) by lia.
  cbn [bind result_Monad]. rewrite IH. reflexivity.
Qed.

End StaleFacts.

(** X20. The loop that drops the stale readings raises an IndexError on an
    empty temperature array. Otherwise it returns as many fresh temperatures
    as indices, at least one: each fresh temperature is the reading at its
    index, no fresh temperature [==] the one before it, and the indices
    never decrease. *)
Theorem fresh_points_are_changing_readings (temp : list float) :
  (temp = [] ->
   tc.fresh_points temp = Raise (IndexError "index out of bounds"))
  /\ (temp <> [] ->
      exists temp_fresh indexs,
        tc.fresh_points temp = Ok (temp_fresh, indexs)
        /\ temp_fresh <> []
        /\ Forall2 (tc.reading temp) temp_fresh indexs
        /\ tc.changing temp_fresh
        /\ StronglySorted Z.le indexs).
Proof.
  split; [intros ->; reflexivity|].
  intros Hne.
  destruct (StaleFacts.fresh_points_invariant temp Hne)
    as (tf & ix & n & Hf & Hr & Hn & Hc & Hs & _).
  exists tf, ix. repeat split; assumption.
Qed.

Lemma fresh_points_witness :
  exists temp_fresh indexs,
    tc.fresh_points [1%float; 1%float; 2%float; 2%float; 1%float]
    = Ok (temp_fresh, indexs)
    /\ tc.changing temp_fresh.
Proof.
  destruct (fresh_points_are_changing_readings
              [1%float; 1%float; 2%float; 2%float; 1%float])
    as [_ H].
  destruct H as (tf & ix & Hf & _ & _ & Hc & _); [discriminate|].
  now exists tf, ix.
Defined.

(** X21. The first reading is kept at index 0. When it [==] itself, the
    kept indices increase strictly, so that no reading is kept twice. When
    it is a NaN, the first turn of the loop keeps it a second time, at
    index 0 again. *)
Theorem first_reading_is_kept_twice_iff_nan (t0 : float) (rest : list float) :
  exists temp_fresh indexs,
    tc.fresh_points (t0 :: rest) = Ok (t0 :: temp_fresh, 0 :: indexs)
    /\ if PrimFloat.eqb t0 t0 then StronglySorted Z.lt (0 :: indexs)
       else exists more_temp more_indexs,
           temp_fresh = t0 :: more_temp /\ indexs = 0 :: more_indexs.
Proof.
  unfold tc.fresh_points.
  rewrite (MoreMirrorFacts.getitem_0 (t0 :: rest) np.nan) by (cbn; lia).
  cbn [bind result_Monad ret nth tc.enumerate_from fold_left].
  unfold tc.step at 2. cbn [fst snd last].
  destruct (PrimFloat.eqb t0 t0) eqn:E.
  - destruct (StaleFacts.fold_extends (tc.enumerate_from (0 + 1) rest) ([t0], [0]))
      as (a & b & Ef).
    destruct (StaleFacts.fold_invariant (t0 :: rest) Z.lt
                (fun j i H => Z.lt_trans j i (i + 1) H (Z.lt_succ_diag_r i))
                Z.lt_succ_diag_r
                rest 1%nat ([t0], [0])) as [n H].
    + reflexivity.
    + unfold tc.invariant. cbn [fst snd].
      refine (conj _ (conj _ (conj _ (conj _ _)))).
      * constructor; [|constructor]. split; [|reflexivity]. cbn [length]. lia.
      * discriminate.
      * intros k Hk. cbn in Hk. lia.
      * repeat constructor.
      * constructor; [lia|constructor].
    + change (Z.of_nat 1) with (0 + 1) in H. rewrite Ef in *. cbn [fst snd app] in *.
      exists a, b. split; [reflexivity|]. apply H.
  - destruct (StaleFacts.fold_extends (tc.enumerate_from (0 + 1) rest)
                ([t0] ++ [t0], [0] ++ [0])) as (a & b & Ef).
    rewrite Ef. cbn [fst snd app].
    exists (t0 :: a), (0 :: b). split; [reflexivity|]. now exists a, b.
Qed.

(** X22. With at least as many voltages as temperatures, the fresh voltages
    are [volt[indexs]] for the indices the loop has kept: the call returns
    the fresh temperatures of the loop with the voltages read at these
    indices, as many of the ones as of the others, each fresh voltage
    measured with the fresh temperature it is paired with. With
    temperatures and no voltage at all the indexing raises an IndexError. *)
Theorem fresh_voltages_go_with_fresh_temperatures (temp volt : list float) :
  temp <> [] ->
  ((length temp <= length volt)%nat ->
   exists temp_fresh indexs,
     tc.fresh_points temp = Ok (temp_fresh, indexs)
     /\ tc.discard_stale temp volt
        = Ok (temp_fresh,
              List.map (fun j => nth (Z.to_nat j) volt np.nan) indexs)
     /\ Forall (fun j => 0 <= j < Z.of_nat (length temp)) indexs
     /\ temp_fresh = List.map (fun j => nth (Z.to_nat j) temp np.nan) indexs)
  /\ (volt = [] ->
      tc.discard_stale temp volt = Raise (IndexError "index out of bounds")).
Proof.
  intros Hne.
  destruct (StaleFacts.fresh_points_invariant temp Hne)
    as (tf & ix & n & Hf & Hr & Hn & _).
  cbn [fst snd] in *. unfold tc.discard_stale. rewrite Hf.
  cbn [bind result_Monad fst snd]. split.
  - intros Hlen.
    assert (Hix : Forall (fun j => 0 <= j < Z.of_nat (length volt)) ix).
    { clear - Hr Hlen. induction Hr as [|t j tf ix [Hj _] _ IH]; constructor;
        [lia|exact IH]. }
    rewrite (StaleFacts.take_ok volt ix Hix). cbn [bind result_Monad ret].
    exists tf, ix. split; [reflexivity|]. split; [reflexivity|].
    clear - Hr. induction Hr as [|t j tf ix [Hj Ht] _ [IH1 IH2]].
    + split; [constructor|reflexivity].
    + split; [constructor; assumption|].
      cbn [List.map]. now rewrite Ht, <- IH2.
  - intros ->. destruct Hr as [|t j tf ix [Hj _] _]; [congruence|].
    assert (E1 : (j <? 0) = false) by (apply Z.ltb_ge; lia).
    assert (E2 : (0 <=? j) = true) by (apply Z.leb_le; lia).
    unfold tc.take. cbn [mapM]. unfold Py.getitem. cbn [length Z.of_nat].
    cbn zeta. rewrite E1, E2, orb_true_r. reflexivity.
Qed.

Lemma fresh_voltages_witness :
  exists temp_fresh indexs,
    tc.fresh_points [1%float; 1%float; 2%float; 2%float; 1%float]
    = Ok (temp_fresh, indexs)
    /\ tc.discard_stale [1%float; 1%float; 2%float; 2%float; 1%float]
                        [5%float; 6%float; 7%float; 8%float; 9%float]
       = Ok (temp_fresh,
             List.map (fun j => nth (Z.to_nat j)
                                  [5%float; 6%float; 7%float; 8%float; 9%float]
                                  np.nan) indexs).
Proof.
  destruct (fresh_voltages_go_with_fresh_temperatures
              [1%float; 1%float; 2%float; 2%float; 1%float]
              [5%float; 6%float; 7%float; 8%float; 9%float]) as [H _];
    [discriminate|].
  destruct H as (tf & ix & Hf & Hd & _); [cbn [length]; lia|].
  now exists tf, ix.
Defined.
